(** * PhotoCull: the decision engine, the peer protocol and the persistence
      gateway, embedded from [src/App.tsx], [src/services/dbService.ts] and
      [src/unnamed/part_000] (the card component, then [types.ts] from
      line 207 on).

    [src/App.tsx] holds two revisions of the component.  The later one
    (from line 640 on) is embedded in [Module App]; the pieces of the
    earlier one that differ and that are needed below are in
    [Module AppV1]. *)

From Stdlib Require Import ZArith List String Ascii Bool Lia.
From stdpp Require Import base gmap list strings sorting pretty.

Local Open Scope Z_scope.

(** ** JavaScript arrays, as far as the component uses them *)

Module Js.
Section Arrays.
Context {A : Type}.

(** [arr.length] *)
Definition len (l : list A) : Z := Z.of_nat (length l).

(** [arr[i]]; [None] is [undefined]. *)
Definition get (l : list A) (i : Z) : option A :=
  if i <? 0 then None else l !! Z.to_nat i.

(** [arr[i] = { ...arr[i], field }] for an index inside the array.  Outside
    [0 <= i < arr.length] JavaScript would grow the array (leaving holes) or
    attach a non-index property; a [list] has neither, so the handlers
    check the index first and set that case apart (see [Outcome]). *)
Definition update_at (l : list A) (i : Z) (f : A -> A) : list A :=
  alter f (Z.to_nat i) l.

(** [arr.findIndex((x, idx) => p(x, idx))], scanning from position [k];
    [-1] when nothing matches. *)
Fixpoint findIndex_from (p : A -> Z -> bool) (l : list A) (k : Z) : Z :=
  match l with
  | [] => -1
  | x :: l' => if p x k then k else findIndex_from p l' (k + 1)
  end.

Definition findIndex (p : A -> Z -> bool) (l : list A) : Z :=
  findIndex_from p l 0.

(** [arr.every(p)] *)
Definition every (p : A -> bool) (l : list A) : bool := forallb p l.

(** [arr[arr.length - 1]] *)
Definition last_elem (l : list A) : option A := last l.

(** [arr.slice(0, -1)] *)
Definition slice_init (l : list A) : list A := removelast l.

(** [arr.splice(idx, 1)] for [0 <= idx < arr.length]. *)
Definition splice1 (l : list A) (idx : Z) : list A :=
  delete (Z.to_nat idx) l.
End Arrays.

(** [a || b] on strings: the empty string is falsy. *)
Definition or_else (a : option string) (b : string) : string :=
  match a with
  | Some s => if String.eqb s EmptyString then b else s
  | None => b
  end.

(** The time values of [Date] (ECMAScript, TimeClip): outside them
    [new Date(t)] is an invalid date and [toISOString()] throws a
    [RangeError].  [Date.now()] is always inside. *)
Definition valid_time (t : Z) : Prop :=
  -8640000000000000 <= t <= 8640000000000000.

(** The one key that an assignment [obj[key] = "..."] on a plain object
    does not store: it names the prototype, and assigning a string to it
    is ignored. *)
Definition proto_key : string := "__proto__".
End Js.

(** ** Data model *)

(** [Decision], [src/unnamed/part_000] line 207: the three string literals
    ['keep'], ['delete'] and ['pending']. *)
Inductive Decision := Pending | Keep | Delete.

#[global] Instance Decision_eq_dec : EqDecision Decision.
Proof. solve_decision. Defined.

(** The [view] state of the component, [App.tsx] line 658: declared as
    the three literals ['landing'], ['culling'] and ['summary'].
    [INIT_SYNC] carries its view as a [string] and the handler casts it
    into the state ([setView(msg.view as any)], line 834), so the state can
    hold any string and is one here. *)
Definition View : Type := string.
Definition Landing : View := "landing".
Definition Culling : View := "culling".
Definition Summary : View := "summary".

#[global] Instance View_eq_dec : EqDecision View.
Proof. unfold View. apply _. Defined.

(** A [FileSystemFileHandle]: an opaque capability on the host, the stub
    [{}] on the remote (line 831). *)
Inductive FileHandle := RealFile (ref : nat) | StubHandle.

(** A [FileSystemDirectoryHandle]: an opaque capability. *)
Definition DirHandle := nat.

(** [ImageItem], [src/unnamed/part_000] lines 209-216. *)
Module ImageItem.
Record t := mk {
  id : string;
  name : string;
  relativePath : string;
  handle : FileHandle;
  url : option string;
  decision : Decision
}.

(** [{ ...img, decision: d }] *)
Definition with_decision (d : Decision) (img : t) : t :=
  mk (id img) (name img) (relativePath img) (handle img) (url img) d.

(** [img.decision === 'pending'] *)
Definition is_pending (img : t) : bool := bool_decide (decision img = Pending).
End ImageItem.

(** [SimplifiedImage], [src/unnamed/part_000] lines 218-223: the catalog
    entry as it travels in [INIT_SYNC] ([App.tsx] line 891). *)
Module SimpleImage.
Record t := mk {
  id : string;
  name : string;
  relativePath : string;
  decision : Decision
}.

Definition of_item (img : ImageItem.t) : t :=
  mk (ImageItem.id img) (ImageItem.name img) (ImageItem.relativePath img)
     (ImageItem.decision img).

(** [{ ...sim, handle: {}, url: null }] (line 831) *)
Definition to_item (sim : t) : ImageItem.t :=
  ImageItem.mk (id sim) (name sim) (relativePath sim) StubHandle None
               (decision sim).
End SimpleImage.

(** The counters of [stats] (line 730).  The [progress] percentage is
    computed in floating point and is left out. *)
Module Stats.
Record t := mk { total : Z; kept : Z; deleted : Z; pending : Z }.

Definition count (d : Decision) (images : list ImageItem.t) : Z :=
  Js.len (List.filter (fun img => bool_decide (ImageItem.decision img = d)) images).

Definition of_images (images : list ImageItem.t) : t :=
  mk (Js.len images) (count Keep images) (count Delete images)
     (count Pending images).
End Stats.


(** [PeerMessage], [src/unnamed/part_000] lines 234-241: the seven
    variants.  [stats] is declared [any]; the one sender passes the
    [stats] memo ([App.tsx] line 894) and no receiver reads it.  The [view]
    of [INIT_SYNC] is declared [string], which [View] is.  [SYNC_INDEX] is
    declared and is neither sent nor handled by any revision of the
    component. *)
Inductive PeerMessage :=
| INIT_SYNC (images : list SimpleImage.t) (currentIndex : Z)
            (rootFolderName : string) (stats : Stats.t) (view : View)
| IMAGE_DATA (index : Z) (id name dataUrl : string)
| DECISION (decision : Decision) (index : Z)
| DECISION_ACK (index : Z)
| UNDO
| NAVIGATE (view : View) (index : option Z)
| SYNC_INDEX (index : Z) (stats : Stats.t).

(** [CullSession], [src/unnamed/part_000] lines 225-232; [handle] is
    optional. *)
Module CullSession.
Record t := mk {
  directoryName : string;
  lastIndex : Z;
  totalImages : Z;
  updatedAt : Z;
  isDone : bool;
  handle : option DirHandle
}.
End CullSession.

(** [ImageDecision], [dbService.ts] line 168. *)
Module ImageDecision.
Record t := mk {
  directoryName : string;
  relativePath : string;
  decision : Decision
}.
End ImageDecision.

(** What a handler does to the outside world, in program order. *)
Inductive Effect :=
| Send (m : PeerMessage)                 (* connection.send(m) *)
| SaveSession (s : CullSession.t)        (* dbService.saveSession(s) *)
| SaveDecision (d : ImageDecision.t)     (* dbService.saveDecision(d) *)
| Alert (msg : string).                  (* alert(msg) *)

#[global] Instance FileHandle_eq_dec : EqDecision FileHandle.
Proof. solve_decision. Defined.

#[global] Instance ImageItem_eq_dec : EqDecision ImageItem.t.
Proof. solve_decision. Defined.

(** ** The persistence gateway: the later revision of [dbService.ts]
       (lines 161-347) *)

Module Db.
(** A record of the PocketBase collection ['sessions']. *)
Module SessionRecord.
Record t := mk {
  id : nat;
  directoryName : string;
  lastIndex : Z;
  totalImages : Z;
  isDone : bool;
  updatedAt : Z
}.

(** [update(id, { directoryName: n })] on one record. *)
Definition with_directoryName (n : string) (r : t) : t :=
  mk (id r) n (lastIndex r) (totalImages r) (isDone r) (updatedAt r).

(** [update(id, data)] with the five data fields of [saveSession]. *)
Definition with_data (s : CullSession.t) (r : t) : t :=
  mk (id r) (CullSession.directoryName s) (CullSession.lastIndex s)
     (CullSession.totalImages s) (CullSession.isDone s)
     (CullSession.updatedAt s).

Definition to_session (r : t) : CullSession.t :=
  CullSession.mk (directoryName r) (lastIndex r) (totalImages r)
                 (updatedAt r) (isDone r) None.
End SessionRecord.

(** A record of the PocketBase collection ['decisions']. *)
Module DecisionRecord.
Record t := mk {
  id : nat;
  directoryName : string;
  relativePath : string;
  decision : Decision
}.

Definition with_directoryName (n : string) (r : t) : t :=
  mk (id r) n (relativePath r) (decision r).

Definition with_data (d : ImageDecision.t) (r : t) : t :=
  mk (id r) (ImageDecision.directoryName d) (ImageDecision.relativePath d)
     (ImageDecision.decision d).
End DecisionRecord.

(** The two collections in storage order, the IndexedDB object store
    ['handles'], and whether [this.idb] is open.  Every request to
    PocketBase or IndexedDB is numbered; [faults n] says whether request
    number [n] fails.  [progressLog] records the calls of [onProgress]. *)
Record World := mkWorld {
  sessions : list SessionRecord.t;
  decisions : list DecisionRecord.t;
  handles : gmap string DirHandle;
  idb : bool;
  faults : nat -> bool;
  clock : nat;
  progressLog : list (Z * Z)
}.

Definition setSessions (l : list SessionRecord.t) (w : World) : World :=
  mkWorld l (decisions w) (handles w) (idb w) (faults w) (clock w) (progressLog w).
Definition setDecisions (l : list DecisionRecord.t) (w : World) : World :=
  mkWorld (sessions w) l (handles w) (idb w) (faults w) (clock w) (progressLog w).
Definition setHandles (h : gmap string DirHandle) (w : World) : World :=
  mkWorld (sessions w) (decisions w) h (idb w) (faults w) (clock w) (progressLog w).
Definition setIdb (b : bool) (w : World) : World :=
  mkWorld (sessions w) (decisions w) (handles w) b (faults w) (clock w) (progressLog w).
Definition tick (w : World) : World :=
  mkWorld (sessions w) (decisions w) (handles w) (idb w) (faults w) (S (clock w))
          (progressLog w).
Definition logProgress (p : Z * Z) (w : World) : World :=
  mkWorld (sessions w) (decisions w) (handles w) (idb w) (faults w) (clock w)
          (progressLog w ++ [p]).

(** *** Promises that resolve or reject, over the backend state *)

Inductive Result (A : Type) := Ok (a : A) | Thrown.
Arguments Ok {A} a.
Arguments Thrown {A}.

Definition M (A : Type) : Type := World -> Result A * World.

Definition ret {A} (a : A) : M A := fun w => (Ok a, w).

Definition bind {A B} (m : M A) (k : A -> M B) : M B :=
  fun w => match m w with
           | (Ok a, w') => k a w'
           | (Thrown, w') => (Thrown, w')
           end.

Definition throw {A} : M A := fun w => (Thrown, w).

(** [try { m } catch { h }] *)
Definition try_catch {A} (m : M A) (h : M A) : M A :=
  fun w => match m w with
           | (Ok a, w') => (Ok a, w')
           | (Thrown, w') => h w'
           end.

(** [promise.catch(() => null)] *)
Definition catch_null {A} (m : M A) : M (option A) :=
  try_catch (bind m (fun a => ret (Some a))) (ret None).

Definition gets {A} (f : World -> A) : M A := fun w => (Ok (f w), w).
Definition modify (f : World -> World) : M unit := fun w => (Ok tt, f w).

Declare Scope db_scope.
Delimit Scope db_scope with db.
Notation "'let*' x ':=' m 'in' k" := (bind m (fun x => k))
  (at level 10, x name, m at level 100, k at level 200) : db_scope.
Notation "m ';;' k" := (bind m (fun _ => k))
  (at level 100, right associativity) : db_scope.
Local Open Scope db_scope.

(** One request to a backend: it fails when the schedule says so. *)
Definition request : M unit :=
  fun w => (if faults w (clock w) then Thrown else Ok tt, tick w).

(** *** PocketBase collections *)

(** PocketBase hands out a fresh id to each created record. *)
Definition fresh_id (ids : list nat) : nat := S (foldr Nat.max 0%nat ids).

(** [getFirstListItem(filter)]: the first match, or a 404 rejection. *)
Definition getFirstListItem {R} (coll : World -> list R) (p : R -> bool) : M R :=
  request ;;
  let* l := gets coll in
  match List.find p l with
  | Some r => ret r
  | None => throw
  end.

(** [getFullList({ filter })] *)
Definition getFullList {R} (coll : World -> list R) (p : R -> bool) : M (list R) :=
  request ;;
  let* l := gets coll in
  ret (List.filter p l).

(** [update(id, fields)]: a 404 rejection when no record has that id.
    PocketBase ids are unique; the statements that depend on it say so. *)
Definition update {R} (coll : World -> list R) (setColl : list R -> World -> World)
    (idOf : R -> nat) (i : nat) (f : R -> R) : M unit :=
  request ;;
  let* l := gets coll in
  if existsb (fun r => Nat.eqb (idOf r) i) l
  then modify (setColl (List.map (fun r => if Nat.eqb (idOf r) i then f r else r) l))
  else throw.

(** The order [sort: '-updatedAt']: most recent first. *)
Definition newer_first (a b : SessionRecord.t) : Prop :=
  SessionRecord.updatedAt b <= SessionRecord.updatedAt a.

#[global] Instance newer_first_dec a b : base.Decision (newer_first a b).
Proof. unfold newer_first. apply _. Defined.

(** [collection('sessions').getFullList({ sort: '-updatedAt' })] *)
Definition sessions_sorted : M (list SessionRecord.t) :=
  request ;;
  let* l := gets sessions in
  ret (merge_sort newer_first l).

Definition sessions_create (s : CullSession.t) : M unit :=
  request ;;
  let* l := gets sessions in
  modify (setSessions
            (l ++ [SessionRecord.with_data s
                     (SessionRecord.mk (fresh_id (List.map SessionRecord.id l))
                                       EmptyString 0 0 false 0)])).

Definition decisions_create (d : ImageDecision.t) : M unit :=
  request ;;
  let* l := gets decisions in
  modify (setDecisions
            (l ++ [DecisionRecord.with_data d
                     (DecisionRecord.mk (fresh_id (List.map DecisionRecord.id l))
                                        EmptyString EmptyString Pending)])).

(** The filter [directoryName="..."] *)
Definition session_in (dir : string) (r : SessionRecord.t) : bool :=
  String.eqb (SessionRecord.directoryName r) dir.
Definition decision_in (dir : string) (r : DecisionRecord.t) : bool :=
  String.eqb (DecisionRecord.directoryName r) dir.
(** The filter [directoryName="..." && relativePath="..."] *)
Definition decision_at (dir path : string) (r : DecisionRecord.t) : bool :=
  String.eqb (DecisionRecord.directoryName r) dir
  && String.eqb (DecisionRecord.relativePath r) path.

(** *** The service *)

(** [init], lines 182-201: the health check swallows its failure, the
    IndexedDB open request rejects on error. *)
Definition init : M unit :=
  try_catch request (ret tt) ;;
  request ;;
  modify (setIdb true).

(** [if (!this.idb) await this.init()] *)
Definition ensure_idb : M unit :=
  let* opened := gets idb in
  if opened then ret tt else init.

(** [storeHandleLocally], lines 203-212. *)
Definition storeHandleLocally (directoryName : string) (handle : DirHandle) : M unit :=
  ensure_idb ;;
  request ;;
  modify (fun w => setHandles (<[directoryName := handle]> (handles w)) w).

(** [deleteHandleLocally], lines 214-223. *)
Definition deleteHandleLocally (directoryName : string) : M unit :=
  ensure_idb ;;
  request ;;
  modify (fun w => setHandles (delete directoryName (handles w)) w).

(** [getHandleLocally], lines 225-234. *)
Definition getHandleLocally (directoryName : string) : M (option DirHandle) :=
  ensure_idb ;;
  request ;;
  gets (fun w => handles w !! directoryName).

(** [saveSession], lines 236-259, for a session whose [updatedAt] is a
    time value ([Js.valid_time]), as [Date.now()] at the two call sites in
    [App.tsx] always is.  For another [updatedAt] the conversion
    [new Date(session.updatedAt).toISOString()] of line 244 throws inside
    the [try] after the lookup, and the call writes nothing; that branch
    is not embedded, and a statement about an arbitrary session assumes
    [Js.valid_time]. *)
Definition saveSession (session : CullSession.t) : M unit :=
  try_catch
    (let* existing :=
       catch_null (getFirstListItem sessions
                     (session_in (CullSession.directoryName session))) in
     match existing with
     | Some r => update sessions setSessions SessionRecord.id (SessionRecord.id r)
                        (SessionRecord.with_data session)
     | None => sessions_create session
     end ;;
     match CullSession.handle session with
     | Some h => storeHandleLocally (CullSession.directoryName session) h
     | None => ret tt
     end)
    (ret tt).

(** [getAllSessions], lines 261-274. *)
Definition getAllSessions : M (list CullSession.t) :=
  try_catch
    (let* records := sessions_sorted in
     ret (List.map SessionRecord.to_session records))
    (ret []).

(** [getSession], lines 276-290. *)
Definition getSession (directoryName : string) : M (option CullSession.t) :=
  try_catch
    (let* record := catch_null (getFirstListItem sessions (session_in directoryName)) in
     match record with
     | None => ret None
     | Some r => ret (Some (SessionRecord.to_session r))
     end)
    (ret None).

(** [saveDecision], lines 292-310. *)
Definition saveDecision (decision : ImageDecision.t) : M unit :=
  try_catch
    (let* existing :=
       catch_null (getFirstListItem decisions
                     (decision_at (ImageDecision.directoryName decision)
                                  (ImageDecision.relativePath decision))) in
     match existing with
     | Some r => update decisions setDecisions DecisionRecord.id (DecisionRecord.id r)
                        (DecisionRecord.with_data decision)
     | None => decisions_create decision
     end)
    (ret tt).

(** The object built by the [forEach] at line 316: later records overwrite
    earlier ones with the same [relativePath].  The plain object of the
    code is rendered as a finite map; the two differ at the key
    [Js.proto_key], whose assignment the object ignores, and a statement
    about an arbitrary path excludes that key.  No path that the scan
    filter lets through is that key. *)
Definition decision_map (records : list DecisionRecord.t) : gmap string Decision :=
  foldl (fun m r => <[DecisionRecord.relativePath r := DecisionRecord.decision r]> m)
        ∅ records.

(** [getDecisionsForDirectory], lines 312-321. *)
Definition getDecisionsForDirectory (directoryName : string)
    : M (gmap string Decision) :=
  try_catch
    (let* records := getFullList decisions (decision_in directoryName) in
     ret (decision_map records))
    (ret ∅).

(** The loop of lines 335-339; [onProgress] tells whether the callback was
    passed. *)
Fixpoint migrate (newPath : string) (onProgress : bool) (total : Z)
    (records : list DecisionRecord.t) (count : Z) : M unit :=
  match records with
  | [] => ret tt
  | record :: rest =>
    update decisions setDecisions DecisionRecord.id (DecisionRecord.id record)
           (DecisionRecord.with_directoryName newPath) ;;
    (if onProgress then modify (logProgress (count + 1, total)) else ret tt) ;;
    migrate newPath onProgress total rest (count + 1)
  end.

(** [relinkSession], lines 323-344. *)
Definition relinkSession (oldPath newPath : string) (newHandle : DirHandle)
    (onProgress : bool) : M unit :=
  let* sessionRecord := catch_null (getFirstListItem sessions (session_in oldPath)) in
  match sessionRecord with
  | Some r => update sessions setSessions SessionRecord.id (SessionRecord.id r)
                     (SessionRecord.with_directoryName newPath)
  | None => ret tt
  end ;;
  let* found := getFullList decisions (decision_in oldPath) in
  migrate newPath onProgress (Js.len found) found 0 ;;
  deleteHandleLocally oldPath ;;
  storeHandleLocally newPath newHandle.

(** The gateway calls among the effects of a handler, carried out in
    order. *)
Definition perform (e : Effect) : M unit :=
  match e with
  | SaveSession s => saveSession s
  | SaveDecision d => saveDecision d
  | Send _ | Alert _ => ret tt
  end.

Fixpoint perform_all (es : list Effect) : M unit :=
  match es with
  | [] => ret tt
  | e :: rest => perform e ;; perform_all rest
  end.

(** Every request from now on succeeds / fails. *)
Definition healthy (w : World) : Prop := forall n, faults w n = false.
Definition down (w : World) : Prop := forall n, faults w n = true.
End Db.

(** ** The component state ([useState] and [useRef] cells of [App]) *)

Module AppState.
(** [imagesId] stands for the identity of the array held by [images]:
    React compares state values and effect dependencies with [Object.is],
    and every [setImages] of the component receives a new array (a copy,
    a [map] or a scan result), so every [setImages] gives a new identity.
    Presentation-only cells ([isScanning], [scanCount], [isDeleting],
    the overlay flags, the settings panel) are left out. *)
Record t := mk {
  view : View;
  images : list ImageItem.t;
  rootFolderName : string;
  rootHandle : option DirHandle;
  currentIndex : Z;
  history : list Z;
  isSaving : bool;
  deleteProgress : Z * Z;                      (* { current, total } *)
  isRemote : bool;
  connection : bool;                           (* DataConnection | null *)
  remoteImageCache : gmap Z (string * string); (* index -> (dataUrl, name) *)
  currentIndexRef : Z;
  historyRef : list Z;
  imagesId : nat                               (* which array [images] is *)
}.

Definition setView (v : View) (s : t) : t :=
  mk v (images s) (rootFolderName s) (rootHandle s) (currentIndex s)
     (history s) (isSaving s) (deleteProgress s) (isRemote s) (connection s)
     (remoteImageCache s) (currentIndexRef s) (historyRef s) (imagesId s).
Definition setImages (l : list ImageItem.t) (s : t) : t :=
  mk (view s) l (rootFolderName s) (rootHandle s) (currentIndex s)
     (history s) (isSaving s) (deleteProgress s) (isRemote s) (connection s)
     (remoteImageCache s) (currentIndexRef s) (historyRef s) (S (imagesId s)).
Definition setRootFolderName (n : string) (s : t) : t :=
  mk (view s) (images s) n (rootHandle s) (currentIndex s)
     (history s) (isSaving s) (deleteProgress s) (isRemote s) (connection s)
     (remoteImageCache s) (currentIndexRef s) (historyRef s) (imagesId s).
Definition setRootHandle (h : option DirHandle) (s : t) : t :=
  mk (view s) (images s) (rootFolderName s) h (currentIndex s)
     (history s) (isSaving s) (deleteProgress s) (isRemote s) (connection s)
     (remoteImageCache s) (currentIndexRef s) (historyRef s) (imagesId s).
Definition setCurrentIndex (i : Z) (s : t) : t :=
  mk (view s) (images s) (rootFolderName s) (rootHandle s) i
     (history s) (isSaving s) (deleteProgress s) (isRemote s) (connection s)
     (remoteImageCache s) (currentIndexRef s) (historyRef s) (imagesId s).
Definition setHistory (h : list Z) (s : t) : t :=
  mk (view s) (images s) (rootFolderName s) (rootHandle s) (currentIndex s)
     h (isSaving s) (deleteProgress s) (isRemote s) (connection s)
     (remoteImageCache s) (currentIndexRef s) (historyRef s) (imagesId s).
Definition setIsSaving (b : bool) (s : t) : t :=
  mk (view s) (images s) (rootFolderName s) (rootHandle s) (currentIndex s)
     (history s) b (deleteProgress s) (isRemote s) (connection s)
     (remoteImageCache s) (currentIndexRef s) (historyRef s) (imagesId s).
Definition setDeleteProgress (p : Z * Z) (s : t) : t :=
  mk (view s) (images s) (rootFolderName s) (rootHandle s) (currentIndex s)
     (history s) (isSaving s) p (isRemote s) (connection s)
     (remoteImageCache s) (currentIndexRef s) (historyRef s) (imagesId s).
Definition setRemoteImageCache (c : gmap Z (string * string)) (s : t) : t :=
  mk (view s) (images s) (rootFolderName s) (rootHandle s) (currentIndex s)
     (history s) (isSaving s) (deleteProgress s) (isRemote s) (connection s)
     c (currentIndexRef s) (historyRef s) (imagesId s).

(** The two ref-copy effects, lines 694-695. *)
Definition sync_refs (s : t) : t :=
  mk (view s) (images s) (rootFolderName s) (rootHandle s) (currentIndex s)
     (history s) (isSaving s) (deleteProgress s) (isRemote s) (connection s)
     (remoteImageCache s) (currentIndex s) (history s) (imagesId s).
End AppState.

(** What a handler leaves behind: the next state and its effects.  [None]
    marks the one situation the state type cannot hold: an array write at an
    index outside [0 <= i < images.length]. *)
Definition Outcome : Type := option (AppState.t * list Effect).

(** ** The later revision of [App.tsx] (lines 640-1492) *)

Module App.
Import AppState.

(** [performSave], lines 743-770.  [hist] is what [historyRef.current]
    holds when line 757 reads it; the read comes after the awaited
    [saveSession], when the render that commits the caller's [setHistory]
    has already copied it into the ref.  Returns the final [isSaving] and
    the gateway calls. *)
Definition performSave (newImages : list ImageItem.t) (newIndex : Z)
    (hist : list Z) (now : Z) (s : t) : t * list Effect :=
  match rootHandle s with
  | Some h =>
    if isRemote s then (s, [])
    else
      let session :=
        CullSession.mk (rootFolderName s) newIndex (Js.len newImages) now
          (Js.every (fun img => negb (ImageItem.is_pending img)) newImages)
          (Some h) in
      let decisionSave :=
        match Js.last_elem hist with
        | Some lastIndex =>
          match Js.get newImages lastIndex with
          | Some img =>
            [SaveDecision (ImageDecision.mk (rootFolderName s)
                             (ImageItem.relativePath img)
                             (ImageItem.decision img))]
          | None => []        (* TypeError, caught at line 765 *)
          end
        | None => []
        end in
      (setIsSaving false s, SaveSession session :: decisionSave)
  | None => (s, [])
  end.

(** [specificIndex !== undefined ? specificIndex : currentIndexRef.current] *)
Definition targetIndexOf (specificIndex : option Z) (s : t) : Z :=
  match specificIndex with
  | Some i => i
  | None => currentIndexRef s
  end.

(** The cursor chosen at lines 782-785. *)
Definition nextIndex (updatedImages : list ImageItem.t) (targetIndex : Z) : Z :=
  let nextPendingIndex :=
    Js.findIndex (fun img idx => (idx >? targetIndex) && ImageItem.is_pending img)
                 updatedImages in
  let finalNextIndex :=
    if nextPendingIndex =? -1
    then Js.findIndex (fun img _ => ImageItem.is_pending img) updatedImages
    else nextPendingIndex in
  if finalNextIndex =? -1 then targetIndex + 1 else finalNextIndex.

(** [makeDecision], lines 772-793. *)
Definition makeDecision (now : Z) (decision : Decision)
    (specificIndex : option Z) (s : t) : Outcome :=
  let targetIndex := targetIndexOf specificIndex s in
  if targetIndex >=? Js.len (images s) then Some (s, [])
  else if negb (isRemote s) then
    if targetIndex <? 0 then None
    else
      let updatedImages :=
        Js.update_at (images s) targetIndex (ImageItem.with_decision decision) in
      let newHistory := history s ++ [targetIndex] in
      let newIdx := nextIndex updatedImages targetIndex in
      let s1 := setCurrentIndex newIdx (setHistory newHistory (setImages updatedImages s)) in
      let '(s2, saves) := performSave updatedImages newIdx newHistory now s1 in
      Some (s2, saves ++ (if connection s then [Send (DECISION_ACK targetIndex)] else []))
  else if connection s then Some (s, [Send (DECISION decision targetIndex)])
  else Some (s, []).

(** [undoLast], lines 795-826. *)
Definition undoLast (now : Z) (s : t) : Outcome :=
  if isRemote s then Some (s, if connection s then [Send UNDO] else [])
  else
    match Js.last_elem (historyRef s) with
    | None => Some (s, [])
    | Some lastIndex =>
      match Js.get (images s) lastIndex with
      | None => None
      | Some old =>
        let updatedImages :=
          Js.update_at (images s) lastIndex (ImageItem.with_decision Pending) in
        let s1 := setCurrentIndex lastIndex
                    (setHistory (Js.slice_init (history s))
                       (setImages updatedImages s)) in
        Some (s1,
              [SaveDecision (ImageDecision.mk (rootFolderName s)
                               (ImageItem.relativePath old) Pending);
               SaveSession (CullSession.mk (rootFolderName s) lastIndex
                              (Js.len (images s)) now false (rootHandle s))])
      end
    end.

(** [handlePeerMessage], lines 828-853. *)
Definition handlePeerMessage (now : Z) (msg : PeerMessage) (s : t) : Outcome :=
  match msg with
  | INIT_SYNC imgs idx root _ v =>
    Some (setView v (setRootFolderName root (setCurrentIndex idx
            (setImages (List.map SimpleImage.to_item imgs) s))), [])
  | IMAGE_DATA index _ name dataUrl =>
    Some (setRemoteImageCache (<[index := (dataUrl, name)]> (remoteImageCache s)) s, [])
  | DECISION decision index => makeDecision now decision (Some index) s
  | DECISION_ACK _ =>
    if isRemote s then Some (setIsSaving false s, []) else Some (s, [])
  | UNDO => if negb (isRemote s) then undoLast now s else Some (s, [])
  | NAVIGATE v index =>
    match index with
    | Some i => Some (setCurrentIndex i (setView v s), [])
    | None => Some (setView v s, [])
    end
  | SYNC_INDEX _ _ => Some (s, [])       (* no [case] of the [switch] *)
  end.

(** The completion effect, lines 712-719. *)
Definition completion_effect (s : t) : t :=
  if (Js.len (images s) >? 0) && negb (isRemote s)
     && bool_decide (view s = Culling)
     && Js.every (fun img => negb (ImageItem.is_pending img)) (images s)
  then setView Summary s else s.

(** What runs after a render: the ref copies and the completion effect. *)
Definition commit (s : t) : t := completion_effect (sync_refs s).

(** *** Loading, bulk deletion and the prefetcher *)

(** The body of the [forEach] at lines 920-922; every decision string is
    truthy. *)
Definition merge_decision (browserDecisions : gmap string Decision)
    (img : ImageItem.t) : ImageItem.t :=
  match browserDecisions !! ImageItem.relativePath img with
  | Some d => ImageItem.with_decision d img
  | None => img
  end.

(** [loadFolder], lines 912-941.  [scanned] is the result of
    [scanDirectory], [None] when it throws. *)
Definition loadFolder (scanned : option (list ImageItem.t * string))
    (handle : DirHandle) (overrideName : option string) (s : t)
    (w : Db.World) : t * Db.World :=
  match scanned with
  | None => (s, w)
  | Some (scannedImages, defaultName) =>
    let targetName := Js.or_else overrideName defaultName in
    match Db.getDecisionsForDirectory targetName w with
    | (Db.Thrown, w1) => (s, w1)
    | (Db.Ok browserDecisions, w1) =>
      let foundImages := List.map (merge_decision browserDecisions) scannedImages in
      let firstUndecidedIndex :=
        Js.findIndex (fun img _ => ImageItem.is_pending img) foundImages in
      let startIndex :=
        if firstUndecidedIndex =? -1 then 0 else firstUndecidedIndex in
      let allDone :=
        (firstUndecidedIndex =? -1) && (Js.len foundImages >? 0) in
      match Db.storeHandleLocally targetName handle w1 with
      | (Db.Thrown, w2) => (s, w2)
      | (Db.Ok _, w2) =>
        (setView (if allDone then Summary else Culling)
           (setHistory []
              (setCurrentIndex startIndex
                 (setRootHandle (Some handle)
                    (setRootFolderName targetName
                       (setImages foundImages s))))),
         w2)
      end
    end
  end.

(** Lines 1019-1020: drop the first record carrying that id. *)
Definition remove_by_id (id : string) (l : list ImageItem.t) : list ImageItem.t :=
  let idx := Js.findIndex (fun i _ => String.eqb (ImageItem.id i) id) l in
  if idx =? -1 then l else Js.splice1 l idx.

(** [img.decision === 'delete'] *)
Definition is_delete (img : ImageItem.t) : bool :=
  bool_decide (ImageItem.decision img = Delete).

(** The loop of lines 1016-1028.  [fileRemoved h] says whether
    [deleteFile(h)] succeeds.  The accumulator is [updatedImages],
    [currentCount] and the gateway calls made so far. *)
Fixpoint deletion_loop (fileRemoved : FileHandle -> bool) (dir : string)
    (toDelete : list ImageItem.t)
    (acc : list ImageItem.t * Z * list Effect)
    : list ImageItem.t * Z * list Effect :=
  match toDelete with
  | [] => acc
  | img :: rest =>
    let '(updatedImages, currentCount, calls) := acc in
    let acc' :=
      if fileRemoved (ImageItem.handle img)
      then (remove_by_id (ImageItem.id img) updatedImages,
            currentCount + 1,
            calls ++ [SaveDecision (ImageDecision.mk dir
                                      (ImageItem.relativePath img) Pending)])
      else (updatedImages, currentCount + 1, calls) in
    deletion_loop fileRemoved dir rest acc'
  end.

(** The cursor recomputed at lines 1031-1041; [targetImgId] is
    [images[currentIndex]?.id]. *)
Definition recomputeIndex (targetImgId : option string)
    (updatedImages : list ImageItem.t) : Z :=
  match targetImgId with
  | None => 0
  | Some tid =>
    if String.eqb tid EmptyString then 0
    else
      let foundIdx :=
        Js.findIndex (fun i _ => String.eqb (ImageItem.id i) tid) updatedImages in
      if foundIdx =? -1 then
        let pendingIdx :=
          Js.findIndex (fun i _ => ImageItem.is_pending i) updatedImages in
        if pendingIdx =? -1 then 0 else pendingIdx
      else foundIdx
  end.

(** [executeLiveDeletion], lines 996-1049.  [granted] is the answer to
    [requestPermission({ mode: 'readwrite' })]. *)
Definition executeLiveDeletion (granted : bool)
    (fileRemoved : FileHandle -> bool) (s : t) : t * list Effect :=
  match rootHandle s with
  | None => (s, [])
  | Some _ =>
    if negb granted
    then (s, [Alert "Permission denied. Deletion cannot proceed."])
    else
      let targetImgId :=
        option_map ImageItem.id (Js.get (images s) (currentIndex s)) in
      let toDelete := List.filter is_delete (images s) in
      let '(updatedImages, currentCount, calls) :=
        deletion_loop fileRemoved (rootFolderName s) toDelete (images s, 0, []) in
      let newIndex := recomputeIndex targetImgId updatedImages in
      (setDeleteProgress (currentCount, Js.len toDelete)
         (setHistory []
            (setCurrentIndex newIndex (setImages updatedImages s))),
       calls)
  end.

(** [sendImage], lines 898-905.  [readDataUrl h] is the result of
    [getFileDataUrl(h)], [None] when it throws. *)
Definition sendImage (readDataUrl : FileHandle -> option string) (s : t)
    (index : Z) : list Effect :=
  if (index >=? 0) && (index <? Js.len (images s))
     && negb (bool_decide (is_Some (remoteImageCache s !! index)))
  then
    match Js.get (images s) index with
    | Some img =>
      match readDataUrl (ImageItem.handle img) with
      | Some dataUrl =>
        [Send (IMAGE_DATA index (ImageItem.id img) (ImageItem.name img) dataUrl)]
      | None => []
      end
    | None => []
    end
  else [].

(** The body of the effect at lines 887-910; the three images are listed
    in call order. *)
Definition prefetch_effect (readDataUrl : FileHandle -> option string)
    (s : t) : list Effect :=
  if negb (isRemote s) && connection s && (Js.len (images s) >? 0) then
    Send (INIT_SYNC (List.map SimpleImage.of_item (images s)) (currentIndex s)
                    (rootFolderName s) (Stats.of_images (images s)) (view s))
    :: sendImage readDataUrl s (currentIndex s)
    ++ sendImage readDataUrl s (currentIndex s + 1)
    ++ sendImage readDataUrl s (currentIndex s + 2)
  else [].

(** The dependency list of that effect (line 910): it runs again after a
    render in which one of them changed.  [stats] is a memo on [images]
    (lines 730-741): it is a new object exactly when [images] is a new
    array. *)
Definition prefetch_fires (prev s : t) : bool :=
  negb (bool_decide (currentIndex prev = currentIndex s))
  || negb (Bool.eqb (connection prev) (connection s))
  || negb (Bool.eqb (isRemote prev) (isRemote s))
  || negb (bool_decide (Js.len (images prev) = Js.len (images s)))
  || negb (bool_decide (view prev = view s))
  || negb (String.eqb (rootFolderName prev) (rootFolderName s))
  || negb (Nat.eqb (imagesId prev) (imagesId s)).

(** The [IMAGE_DATA] indices among some effects. *)
Definition image_data_indices (effs : list Effect) : list Z :=
  omap (fun e => match e with Send (IMAGE_DATA i _ _ _) => Some i | _ => None end) effs.
End App.

(** ** The earlier revision of [App.tsx] (lines 1-638), where it differs *)

Module AppV1.
Import AppState.

(** [performSave], lines 86-117. *)
Definition performSave (newImages : list ImageItem.t) (newIndex : Z)
    (hist : list Z) (now : Z) (s : t) : t * list Effect :=
  match rootHandle s with
  | Some h =>
    if isRemote s then (s, [])
    else
      let session :=
        CullSession.mk (rootFolderName s) newIndex (Js.len newImages) now
          (newIndex >=? Js.len newImages) (Some h) in
      let decisionSave :=
        if (newIndex >=? 0) && (newIndex <=? Js.len newImages) then
          match Js.last_elem hist with
          | Some lastDecidedIndex =>
            match Js.get newImages lastDecidedIndex with
            | Some img =>
              [SaveDecision (ImageDecision.mk (rootFolderName s)
                               (ImageItem.relativePath img)
                               (ImageItem.decision img))]
            | None => []      (* TypeError, caught at line 112 *)
            end
          | None => []
          end
        else [] in
      (setIsSaving false s, SaveSession session :: decisionSave)
  | None => (s, [])
  end.

(** [makeDecision], lines 119-135: the cursor always moves to
    [targetIndex + 1]. *)
Definition makeDecision (now : Z) (decision : Decision)
    (specificIndex : option Z) (s : t) : Outcome :=
  let targetIndex := App.targetIndexOf specificIndex s in
  if targetIndex >=? Js.len (images s) then Some (s, [])
  else if negb (isRemote s) then
    if targetIndex <? 0 then None
    else
      let updatedImages :=
        Js.update_at (images s) targetIndex (ImageItem.with_decision decision) in
      let newHistory := history s ++ [targetIndex] in
      let nextIndex := targetIndex + 1 in
      let s1 := setCurrentIndex nextIndex (setHistory newHistory (setImages updatedImages s)) in
      let '(s2, saves) := performSave updatedImages nextIndex newHistory now s1 in
      Some (s2, saves ++ (if connection s then [Send (DECISION_ACK targetIndex)] else []))
  else if connection s then Some (s, [Send (DECISION decision targetIndex)])
  else Some (s, []).

(** [handlePeerMessage], lines 172-203.  [undoLast] (lines 137-170) has the
    text of the later revision's. *)
Definition handlePeerMessage (now : Z) (msg : PeerMessage) (s : t) : Outcome :=
  match msg with
  | INIT_SYNC imgs idx root _ v =>
    Some (setView v (setRootFolderName root (setCurrentIndex idx
            (setImages (List.map SimpleImage.to_item imgs) s))), [])
  | IMAGE_DATA index _ name dataUrl =>
    Some (setRemoteImageCache (<[index := (dataUrl, name)]> (remoteImageCache s)) s, [])
  | DECISION decision index => makeDecision now decision (Some index) s
  | DECISION_ACK index =>
    if isRemote s
    then Some (setIsSaving false (setCurrentIndex (index + 1) s), [])
    else Some (s, [])
  | UNDO => if negb (isRemote s) then App.undoLast now s else Some (s, [])
  | NAVIGATE v index =>
    match index with
    | Some i => Some (setCurrentIndex i (setView v s), [])
    | None => Some (setView v s, [])
    end
  | SYNC_INDEX _ _ => Some (s, [])       (* no [case] of the [switch] *)
  end.
End AppV1.


(** ** Vocabulary of the statements, and sample states *)

(** The record at index [j] of the catalog is still pending. *)
Definition pending_at (l : list ImageItem.t) (j : Z) : Prop :=
  exists img, Js.get l j = Some img /\ ImageItem.decision img = Pending.

(** Every index on the history stack lies inside the catalog. *)
Definition history_in_range (s : AppState.t) : Prop :=
  Forall (fun i => 0 <= i < Js.len (AppState.images s)) (AppState.history s).

Module Sample.
Definition img (id : string) (d : Decision) : ImageItem.t :=
  ImageItem.mk id (id ++ ".jpg") ("shoot/" ++ id ++ ".jpg")
               (RealFile (String.length id)) None d.

(** A host with an open directory, a connected remote and the cursor on
    the first record. *)
Definition host (images : list ImageItem.t) : AppState.t :=
  AppState.mk Culling images "shoot" (Some 7%nat) 0 [] false (0, 0)
              false true ∅ 0 [] 0.

(** The remote mirror of [host images]. *)
Definition remote (images : list ImageItem.t) : AppState.t :=
  AppState.mk Culling
    (List.map (fun i => SimpleImage.to_item (SimpleImage.of_item i)) images)
    "shoot" None 0 [] false (0, 0) true true ∅ 0 [] 0.

(** [pending, delete, pending, keep]: the catalog of section 8, item 3. *)
Definition skip_catalog : list ImageItem.t :=
  [img "a" Pending; img "b" Delete; img "c" Pending; img "d" Keep].

(** Four records, none decided yet. *)
Definition fresh_catalog : list ImageItem.t :=
  [img "a" Pending; img "b" Pending; img "c" Pending; img "d" Pending].

(** One pending record followed by two decided ones. *)
Definition last_pending_first : list ImageItem.t :=
  [img "a" Pending; img "b" Keep; img "c" Keep].
End Sample.

(** The decision collection after every record of [old] moved to [new]. *)
Definition migrated (old new : string) (l : list Db.DecisionRecord.t)
    : list Db.DecisionRecord.t :=
  List.map (fun r => if Db.decision_in old r
                     then Db.DecisionRecord.with_directoryName new r else r) l.

(** The session collection after the first session of [old] moved to [new]. *)
Definition relinked_sessions (old new : string) (l : list Db.SessionRecord.t)
    : list Db.SessionRecord.t :=
  match List.find (Db.session_in old) l with
  | Some r0 =>
    List.map (fun r => if Nat.eqb (Db.SessionRecord.id r) (Db.SessionRecord.id r0)
                       then Db.SessionRecord.with_directoryName new r else r) l
  | None => l
  end.

(** The identity of a decision record: [(directoryName, relativePath)]. *)
Definition record_key (r : Db.DecisionRecord.t) : string * string :=
  (Db.DecisionRecord.directoryName r, Db.DecisionRecord.relativePath r).

(** The invariant of section 3 on the decision collection: distinct record
    ids, and at most one record per [(directoryName, relativePath)]. *)
Definition well_keyed (l : list Db.DecisionRecord.t) : Prop :=
  NoDup (List.map Db.DecisionRecord.id l) /\ NoDup (List.map record_key l).

(** The decision collection after a successful [saveDecision(d)]. *)
Definition upsert (d : ImageDecision.t) (l : list Db.DecisionRecord.t)
    : list Db.DecisionRecord.t :=
  match List.find (Db.decision_at (ImageDecision.directoryName d)
                                  (ImageDecision.relativePath d)) l with
  | Some r0 =>
    List.map (fun r => if Nat.eqb (Db.DecisionRecord.id r) (Db.DecisionRecord.id r0)
                       then Db.DecisionRecord.with_data d r else r) l
  | None =>
    l ++ [Db.DecisionRecord.with_data d
            (Db.DecisionRecord.mk (Db.fresh_id (List.map Db.DecisionRecord.id l))
                                  EmptyString EmptyString Pending)]
  end.

(** What [getDecisionsForDirectory(dir)] answers for [path] on a backend
    that holds [l]. *)
Definition persisted (dir path : string) (l : list Db.DecisionRecord.t)
    : option Decision :=
  Db.decision_map (List.filter (Db.decision_in dir) l) !! path.

(** One step of the [forEach] inside [Db.decision_map]. *)
Definition put_decision (m : gmap string Decision) (r : Db.DecisionRecord.t)
    : gmap string Decision :=
  <[Db.DecisionRecord.relativePath r := Db.DecisionRecord.decision r]> m.

(** The calls [(1, n), (2, n), ..., (n, n)] of a progress callback. *)
Definition progress_calls (n : nat) : list (Z * Z) :=
  List.map (fun k => (Z.of_nat k, Z.of_nat n)) (seq 1 n).

Module SampleDb.
Definition sessions : list Db.SessionRecord.t :=
  [Db.SessionRecord.mk 1 "shoot" 2 4 false 1000;
   Db.SessionRecord.mk 2 "other" 0 9 false 2000].

Definition decisions : list Db.DecisionRecord.t :=
  [Db.DecisionRecord.mk 1 "shoot" "shoot/a.jpg" Keep;
   Db.DecisionRecord.mk 2 "other" "x.png" Delete;
   Db.DecisionRecord.mk 3 "shoot" "shoot/b.jpg" Delete].

(** A backend that answers every request. *)
Definition up : Db.World :=
  Db.mkWorld sessions decisions {["shoot" := 7%nat]} true (fun _ => false) 0 [].

(** A backend that fails every request. *)
Definition unreachable : Db.World :=
  Db.mkWorld sessions decisions {["shoot" := 7%nat]} true (fun _ => true) 0 [].
End SampleDb.

(** A record that the bulk deletion removes: flagged [delete], and its file
    removal succeeds. *)
Definition removed (fileRemoved : FileHandle -> bool) (img : ImageItem.t) : bool :=
  App.is_delete img && fileRemoved (ImageItem.handle img).

(** The gateway call that resets the persisted decision of a record. *)
Definition reset_call (dir : string) (img : ImageItem.t) : Effect :=
  SaveDecision (ImageDecision.mk dir (ImageItem.relativePath img) Pending).

(** What [sendImage] needs to send index [i]. *)
Definition sendable (readDataUrl : FileHandle -> option string) (s : AppState.t) (i : Z) : bool :=
  (i >=? 0) && (i <? Js.len (AppState.images s))
  && negb (bool_decide (is_Some (AppState.remoteImageCache s !! i)))
  && match Js.get (AppState.images s) i with
     | Some img => bool_decide (is_Some (readDataUrl (ImageItem.handle img)))
     | None => false
     end.

Module SampleCleanup.
(** [A(delete), B(keep), C(delete), D(pending)]: section 8, item 6. *)
Definition catalog : list ImageItem.t :=
  [Sample.img "A" Delete; Sample.img "B" Keep;
   Sample.img "C" Delete; Sample.img "D" Pending].

(** The host of [Sample.host], with the cursor on [B] and two decisions in
    the history. *)
Definition host : AppState.t :=
  AppState.setHistory [0; 2] (AppState.setCurrentIndex 1 (Sample.host catalog)).

(** Every file can be read and removed. *)
Definition all_files : FileHandle -> bool := fun _ => true.
Definition readable : FileHandle -> option string :=
  fun h => match h with
           | RealFile _ => Some "data:image/jpeg;base64,/9j/4AAQ"
           | StubHandle => None
           end.
End SampleCleanup.

(** The session collection after a successful [saveSession(s)]. *)
Definition upsert_session (s : CullSession.t) (l : list Db.SessionRecord.t)
    : list Db.SessionRecord.t :=
  match List.find (Db.session_in (CullSession.directoryName s)) l with
  | Some r0 =>
    List.map (fun r => if Nat.eqb (Db.SessionRecord.id r) (Db.SessionRecord.id r0)
                       then Db.SessionRecord.with_data s r else r) l
  | None =>
    l ++ [Db.SessionRecord.with_data s
            (Db.SessionRecord.mk (Db.fresh_id (List.map Db.SessionRecord.id l))
                                 EmptyString 0 0 false 0)]
  end.

(** [{ ...s, handle: undefined }]: what the session collection keeps of a
    session. *)
Definition without_handle (s : CullSession.t) : CullSession.t :=
  CullSession.mk (CullSession.directoryName s) (CullSession.lastIndex s)
                 (CullSession.totalImages s) (CullSession.updatedAt s)
                 (CullSession.isDone s) None.

(** The handle store after [saveSession(s)]. *)
Definition handles_after_save (s : CullSession.t) (h : gmap string DirHandle)
    : gmap string DirHandle :=
  match CullSession.handle s with
  | Some dh => <[CullSession.directoryName s := dh]> h
  | None => h
  end.

Module SampleDb2.
(** A backend whose next request fails and that answers afterwards. *)
Definition hiccup : Db.World :=
  Db.mkWorld SampleDb.sessions SampleDb.decisions {["shoot" := 7%nat]} true
             (fun n => Nat.eqb n 0) 0 [].

(** A backend that answers twice and then fails. *)
Definition fails_third : Db.World :=
  Db.mkWorld SampleDb.sessions SampleDb.decisions {["shoot" := 7%nat]} true
             (fun n => Nat.leb 2 n) 0 [].

Definition session : CullSession.t :=
  CullSession.mk "trip" 3 12 5000 false (Some 11%nat).
End SampleDb2.

(** ** The file service: the later revision of [fileService.ts]
       ([src/services/dbService.ts], lines 417-523) *)

Module FileService.
(** [IMAGE_EXTENSIONS], line 419. *)
Definition IMAGE_EXTENSIONS : list string :=
  ["jpg"; "jpeg"; "png"; "gif"; "webp"; "bmp"; "avif"; "svg";
   "cr2"; "nef"; "arw"; "dng"; "orf"].

(** [webFormats], line 462. *)
Definition webFormats : list string :=
  ["jpg"; "jpeg"; "png"; "gif"; "webp"; "svg"; "avif"].

(** [rawExtensions] of [ImageCard] ([src/unnamed/part_000], line 32). *)
Definition rawExtensions : list string := ["cr2"; "nef"; "arw"; "dng"; "orf"].

(** [toLowerCase] on the letters A-Z.  The only characters outside ASCII
    that JavaScript lowers to an ASCII letter give [k], which no extension
    above contains, so membership in the three lists is not affected. *)
Definition lower_char (c : ascii) : ascii :=
  if (65 <=? nat_of_ascii c)%nat && (nat_of_ascii c <=? 90)%nat
  then ascii_of_nat (nat_of_ascii c + 32) else c.

Fixpoint toLowerCase (s : string) : string :=
  match s with
  | EmptyString => EmptyString
  | String c s' => String (lower_char c) (toLowerCase s')
  end.

(** [name.split('.').pop()]: the text after the last dot, the whole name
    when it has none.  [acc] is the segment read so far. *)
Fixpoint last_segment_from (acc : string) (s : string) : string :=
  match s with
  | EmptyString => acc
  | String c s' =>
    if Ascii.eqb c "."%char then last_segment_from EmptyString s'
    else last_segment_from (acc +:+ String c EmptyString) s'
  end.

(** [name.split('.').pop()?.toLowerCase() || ''] *)
Definition extension_of (name : string) : string :=
  toLowerCase (last_segment_from EmptyString name).

(** [list.includes(ext)] / [set.has(ext)] *)
Definition includes (l : list string) (ext : string) : bool :=
  existsb (String.eqb ext) l.

(** The test of line 439. *)
Definition is_image (name : string) : bool :=
  includes IMAGE_EXTENSIONS (extension_of name).

(** The test of [getImageUrl], line 463: [ext && webFormats.includes(ext)];
    when it fails [getImageUrl] throws. *)
Definition browser_renders (name : string) : bool :=
  negb (String.eqb (extension_of name) EmptyString)
  && includes webFormats (extension_of name).

(** [isRawFormat] of [ImageCard] ([src/unnamed/part_000], lines 35-36). *)
Definition is_raw (name : string) : bool :=
  includes rawExtensions (extension_of name).

(** The state [walk] starts from. *)
Definition init : list ImageItem.t * Z * list Z := ([], 0, []).

(** What [handle.values()] yields: files and directories. *)
#[warnings="-register-all"] Inductive Entry :=
| FileEntry (name : string) (file : nat)
| DirEntry (name : string) (children : list Entry).

(** [path ? `${path}/${entry.name}` : entry.name] *)
Definition entryPath (path name : string) : string :=
  if String.eqb path EmptyString then name else path +:+ "/" +:+ name.

(** The state of a scan: [images], [count] and the calls of [onProgress]. *)
Definition ScanState : Type := list ImageItem.t * Z * list Z.

(** [walk], lines 429-453, on one entry.  [randomId k] is the id that
    [Math.random().toString(36).substr(2, 9)] gives to the [k]-th record. *)
Fixpoint walk_entry (randomId : nat -> string) (path : string) (e : Entry)
    (st : ScanState) : ScanState :=
  match e with
  | FileEntry name file =>
    if is_image name then
      let '(images, count, calls) := st in
      (images ++ [ImageItem.mk (randomId (length images)) name (entryPath path name)
                               (RealFile file) None Pending],
       count + 1, calls ++ [count + 1])
    else st
  | DirEntry name children =>
    fold_left (fun st' c => walk_entry randomId (entryPath path name) c st')
              children st
  end.

(** [walk(handle, path)]: the loop over the entries of one directory. *)
Definition walk (randomId : nat -> string) (path : string) (entries : list Entry)
    (st : ScanState) : ScanState :=
  fold_left (fun st' c => walk_entry randomId path c st') entries st.

(** [scanDirectory], lines 421-457, on a root directory named [rootName]
    that lists [entries]: the records, the root name and the progress
    calls. *)
Definition scanDirectory (randomId : nat -> string) (rootName : string)
    (entries : list Entry) : list ImageItem.t * string * list Z :=
  let '(images, _, calls) := walk randomId EmptyString entries ([], 0, []) in
  (images, rootName, calls).

(** What one more record adds to the scan state. *)
Definition scanned_ok (r : ImageItem.t) : Prop :=
  ImageItem.decision r = Pending /\ ImageItem.url r = None
  /\ is_image (ImageItem.name r) = true
  /\ exists file, ImageItem.handle r = RealFile file.

(** A step of the walk appends [n] records, raises [count] by [n] and
    reports [count + 1 .. count + n]. *)
Definition extends (randomId : nat -> string) (st st' : ScanState) : Prop :=
  exists new,
    fst (fst st') = fst (fst st) ++ new
    /\ snd (fst st') = snd (fst st) + Js.len new
    /\ snd st' = snd st ++ List.map (fun k => snd (fst st) + Z.of_nat k)
                                  (seq 1 (length new))
    /\ Forall scanned_ok new
    /\ List.map ImageItem.id new
       = List.map randomId (seq (length (fst (fst st))) (length new)).

(** Every directory of the tree has a name. *)
Fixpoint dirs_named (e : Entry) : bool :=
  match e with
  | FileEntry _ _ => true
  | DirEntry name children =>
    negb (String.eqb name EmptyString) && forallb dirs_named children
  end.

(** The [relativePath]s of the records of a scan state. *)
Definition paths_of (st : ScanState) : list string :=
  List.map ImageItem.relativePath (fst (fst st)).

(** The [relativePath]s a scan of [entries] returns, in order. *)
Definition scan_paths (randomId : nat -> string) (entries : list Entry)
    : list string :=
  List.map ImageItem.relativePath
           (fst (fst (scanDirectory randomId EmptyString entries))).

(** No dot in the text. *)
Fixpoint no_dot (s : string) : bool :=
  match s with
  | EmptyString => true
  | String c s' => negb (Ascii.eqb c "."%char) && no_dot s'
  end.

(** [s.replace(/\//g, '\\')], line 509. *)
Fixpoint to_backslashes (s : string) : string :=
  match s with
  | EmptyString => EmptyString
  | String c s' =>
    String (if Ascii.eqb c "/"%char then "\"%char else c) (to_backslashes s')
  end.

Definition nl : string := String "010"%char EmptyString.
Definition quote : string := String "034"%char EmptyString.

Inductive Platform := Win | Unix.

(** One [script += ...] of the two [forEach] loops, lines 507-511 and
    516-519. *)
Definition add_command (platform : Platform) (rootPath : string)
    (script : string) (img : ImageItem.t) : string :=
  match platform with
  | Win =>
    script +:+ "del /f /q " +:+ quote
      +:+ to_backslashes (rootPath +:+ "/" +:+ ImageItem.relativePath img)
      +:+ quote +:+ nl
  | Unix =>
    script +:+ "rm -f " +:+ quote
      +:+ (rootPath +:+ "/" +:+ ImageItem.relativePath img) +:+ quote +:+ nl
  end.

(** [generateDeletionScript], lines 502-523. *)
Definition generateDeletionScript (images : list ImageItem.t) (rootPath : string)
    (platform : Platform) : string :=
  let toDelete :=
    List.filter (fun img => bool_decide (ImageItem.decision img = Delete)) images in
  match platform with
  | Win =>
    fold_left (add_command Win rootPath) toDelete
      ("@echo off" +:+ nl +:+ "echo PhotoCull Pro: Deleting "
         +:+ pretty (length toDelete) +:+ " files..." +:+ nl)
    +:+ "echo Cleanup complete." +:+ nl +:+ "pause"
  | Unix =>
    fold_left (add_command Unix rootPath) toDelete
      ("#!/bin/bash" +:+ nl +:+ "echo " +:+ quote +:+ "PhotoCull Pro: Deleting "
         +:+ pretty (length toDelete) +:+ " files..." +:+ quote +:+ nl)
    +:+ "echo " +:+ quote +:+ "Cleanup complete." +:+ quote
  end.

(** The text before the commands, for [n] flagged records. *)
Definition script_header (platform : Platform) (n : nat) : string :=
  match platform with
  | Win =>
    "@echo off" +:+ nl +:+ "echo PhotoCull Pro: Deleting "
      +:+ pretty n +:+ " files..." +:+ nl
  | Unix =>
    "#!/bin/bash" +:+ nl +:+ "echo " +:+ quote +:+ "PhotoCull Pro: Deleting "
      +:+ pretty n +:+ " files..." +:+ quote +:+ nl
  end.

(** The text after the commands. *)
Definition script_footer (platform : Platform) : string :=
  match platform with
  | Win => "echo Cleanup complete." +:+ nl +:+ "pause"
  | Unix => "echo " +:+ quote +:+ "Cleanup complete." +:+ quote
  end.

(** The command line of one record. *)
Definition command (platform : Platform) (rootPath : string)
    (img : ImageItem.t) : string :=
  match platform with
  | Win =>
    "del /f /q " +:+ quote +:+ to_backslashes rootPath +:+ "\" +:+
      to_backslashes (ImageItem.relativePath img) +:+ quote +:+ nl
  | Unix =>
    "rm -f " +:+ quote +:+ rootPath +:+ "/" +:+ ImageItem.relativePath img
      +:+ quote +:+ nl
  end.

(** Texts put end to end. *)
Definition join (l : list string) : string :=
  fold_right String.append EmptyString l.
End FileService.

(** ** The remaining handlers and effects of the later [App.tsx] *)

Module AppEvents.
Import AppState.


(** A click on the thumbnail of index [idx] on the summary, line 1352. *)
Definition openRecord (idx : Z) (s : t) : t :=
  setView Culling (setCurrentIndex idx s).

(** The RESTART button, line 1340. *)
Definition restart (s : t) : t := setView Culling (setCurrentIndex 0 s).



(** Where [handleResumeProject] ends. *)
Inductive Resume :=
| Loaded (s : t) (w : Db.World)                  (* [loadFolder] ran *)
| PickDirectory (relinkFrom : string) (w : Db.World)
| Rejected (w : Db.World).         (* [getHandleLocally] rejected, uncaught *)

(** [handleResumeProject], lines 980-994.  [permissionReturns h] says
    whether the permission calls on [h] return (whatever they answer: the
    answer of [requestPermission] is not looked at); [scan h] is the
    result of [scanDirectory(h)]. *)
Definition handleResumeProject (permissionReturns : DirHandle -> bool)
    (scan : DirHandle -> option (list ImageItem.t * string))
    (session : CullSession.t) (s : t) (w : Db.World) : Resume :=
  match Db.getHandleLocally (CullSession.directoryName session) w with
  | (Db.Thrown, w1) => Rejected w1
  | (Db.Ok None, w1) => PickDirectory (CullSession.directoryName session) w1
  | (Db.Ok (Some localHandle), w1) =>
    if permissionReturns localHandle then
      let '(s', w2) :=
        App.loadFolder (scan localHandle) localHandle
                       (Some (CullSession.directoryName session)) s w1 in
      Loaded s' w2
    else PickDirectory (CullSession.directoryName session) w1
  end.

(** [confirmPathSelection], lines 954-978, once [showPathPrompt] holds
    [{ handle, relinkFrom }]; the empty string is falsy.  [loadProjects]
    (lines 721-724) only reads the sessions. *)
Definition confirmPathSelection (relinkFrom : option string)
    (customPath : string) (handle : DirHandle)
    (scanned : option (list ImageItem.t * string)) (s : t) (w : Db.World)
    : t * Db.World :=
  let relinking :=
    match relinkFrom with
    | Some old => negb (String.eqb old EmptyString)
    | None => false
    end in
  if relinking then
    match Db.relinkSession (default EmptyString relinkFrom) customPath handle true w with
    | (Db.Ok _, w1) =>
      let '(s', w2) := App.loadFolder scanned handle (Some customPath) s w1 in
      (s', snd (Db.getAllSessions w2))
    | (Db.Thrown, w1) => (s, w1)
    end
  else App.loadFolder scanned handle (Some customPath) s w.

(** What the user does on the host: a decision on the viewed record, undo,
    a thumbnail click, RESTART, and the live deletion. *)
Inductive UserAction :=
| Decide (d : Decision)
| Undo
| Open (idx : nat)
| Restart
| Cleanup (granted : bool) (fileRemoved : FileHandle -> bool).

Definition step (now : Z) (a : UserAction) (s : t) : Outcome :=
  match a with
  | Decide d => App.makeDecision now d None s
  | Undo => App.undoLast now s
  | Open idx => Some (openRecord (Z.of_nat idx) s, [])
  | Restart => Some (restart s, [])
  | Cleanup granted fileRemoved =>
    Some (App.executeLiveDeletion granted fileRemoved s)
  end.

(** A sequence of timed actions, each one on the committed render of the
    state the previous one left. *)
Fixpoint run (acts : list (Z * UserAction)) (s : t) : Outcome :=
  match acts with
  | [] => Some (s, [])
  | (now, a) :: rest =>
    match step now a (App.commit s) with
    | Some (s1, out1) =>
      match run rest s1 with
      | Some (s2, out2) => Some (s2, out1 ++ out2)
      | None => None
      end
    | None => None
    end
  end.
End AppEvents.

(** *** Vocabulary for the statements about them *)

(** The decisions that a list of effects saves, in order. *)
Definition saved_decisions (effs : list Effect) : list ImageDecision.t :=
  omap (fun e => match e with SaveDecision d => Some d | _ => None end) effs.

(** The sessions that a list of effects saves, in order. *)
Definition saved_sessions (effs : list Effect) : list CullSession.t :=
  omap (fun e => match e with SaveSession s => Some s | _ => None end) effs.

(** An effect that writes through the persistence gateway: a
    [saveSession] or a [saveDecision] call. *)
Definition is_save (e : Effect) : bool :=
  match e with
  | SaveSession _ | SaveDecision _ => true
  | Send _ | Alert _ => false
  end.




(** The cursor is a position at or after the start of the catalog. *)
Definition cursor_ok (s : AppState.t) : Prop := 0 <= AppState.currentIndex s.

(** Record [i] of the catalog is decided. *)
Definition decided_at (l : list ImageItem.t) (j : Z) : Prop :=
  exists img, Js.get l j = Some img /\ ImageItem.decision img <> Pending.
(** ** Facts about the array primitives *)

Module JsFacts.
Section Arrays.
Context {A : Type}.
Implicit Types (l : list A) (p : A -> Z -> bool).

Lemma get_Some_range l i x : Js.get l i = Some x -> 0 <= i < Js.len l.
Proof.
  unfold Js.get, Js.len. destruct (Z.ltb_spec i 0); [discriminate|].
  intros H'. apply lookup_lt_Some in H'. lia.
Qed.

Lemma get_in_range l i : 0 <= i < Js.len l -> exists x, Js.get l i = Some x.
Proof.
  unfold Js.get, Js.len. intros Hi.
  destruct (Z.ltb_spec i 0); [lia|].
  apply lookup_lt_is_Some. lia.
Qed.

Lemma get_of_nat l (j : nat) : Js.get l (Z.of_nat j) = l !! j.
Proof.
  unfold Js.get. destruct (Z.ltb_spec (Z.of_nat j) 0); [lia|].
  by rewrite Nat2Z.id.
Qed.

Lemma len_update_at l i f : Js.len (Js.update_at l i f) = Js.len l.
Proof. unfold Js.len, Js.update_at. by rewrite length_alter. Qed.

Lemma get_update_at_eq l i f x :
  Js.get l i = Some x -> Js.get (Js.update_at l i f) i = Some (f x).
Proof.
  unfold Js.get, Js.update_at. destruct (i <? 0); [discriminate|].
  intros H. by rewrite list_lookup_alter_eq, H.
Qed.

Lemma get_update_at_ne l i j f :
  0 <= i -> j <> i -> Js.get (Js.update_at l i f) j = Js.get l j.
Proof.
  unfold Js.get, Js.update_at. intros Hi Hne.
  destruct (Z.ltb_spec j 0); [done|].
  apply list_lookup_alter_ne. lia.
Qed.

(** [findIndex] returns [-1] exactly when no position matches, and
    otherwise the first matching position. *)
Lemma findIndex_from_spec p l k :
  0 <= k ->
  (Js.findIndex_from p l k = -1
     /\ forall (j : nat) x, l !! j = Some x -> p x (k + Z.of_nat j) = false)
  \/ (exists (n : nat) x,
        Js.findIndex_from p l k = k + Z.of_nat n
        /\ l !! n = Some x /\ p x (k + Z.of_nat n) = true
        /\ forall (j : nat) y, l !! j = Some y -> (j < n)%nat ->
             p y (k + Z.of_nat j) = false).
Proof.
  revert k. induction l as [|a l IH]; intros k Hk; simpl.
  - left. split; [done|]. intros j x Hj. by rewrite lookup_nil in Hj.
  - destruct (p a k) eqn:Hp.
    + right. exists 0%nat, a. rewrite Z.add_0_r.
      repeat split; auto. intros j y _ Hlt. lia.
    + destruct (IH (k + 1) ltac:(lia)) as [[Hr Hall]|(n & x & Hr & Hx & Hpx & Hall)].
      * left. split; [done|]. intros [|j] x Hj; simpl in Hj.
        -- injection Hj as <-. by rewrite Z.add_0_r.
        -- specialize (Hall j x Hj).
           by replace (k + Z.of_nat (S j)) with (k + 1 + Z.of_nat j) by lia.
      * right. exists (S n), x.
        replace (k + Z.of_nat (S n)) with (k + 1 + Z.of_nat n) by lia.
        repeat split; auto. intros [|j] y Hj Hlt; simpl in Hj.
        -- injection Hj as <-. by rewrite Z.add_0_r.
        -- specialize (Hall j y Hj ltac:(lia)).
           by replace (k + Z.of_nat (S j)) with (k + 1 + Z.of_nat j) by lia.
Qed.

Lemma findIndex_spec p l :
  (Js.findIndex p l = -1
     /\ forall j x, Js.get l j = Some x -> p x j = false)
  \/ (exists x,
        0 <= Js.findIndex p l
        /\ Js.get l (Js.findIndex p l) = Some x
        /\ p x (Js.findIndex p l) = true
        /\ forall j y, Js.get l j = Some y -> j < Js.findIndex p l ->
             p y j = false).
Proof.
  unfold Js.findIndex.
  destruct (findIndex_from_spec p l 0 ltac:(lia))
    as [[Hr Hall]|(n & x & Hr & Hx & Hpx & Hall)].
  - left. split; [done|]. intros j x Hj.
    pose proof (get_Some_range _ _ _ Hj) as Hrange.
    unfold Js.get in Hj. destruct (Z.ltb_spec j 0); [lia|].
    specialize (Hall _ _ Hj). by rewrite Z.add_0_l, Z2Nat.id in Hall by lia.
  - right. exists x. rewrite Hr. rewrite !Z.add_0_l in *.
    split; [lia|]. split; [by rewrite get_of_nat|]. split; [done|].
    intros j y Hj Hlt.
    pose proof (get_Some_range _ _ _ Hj) as Hrange.
    unfold Js.get in Hj. destruct (Z.ltb_spec j 0); [lia|].
    specialize (Hall _ _ Hj ltac:(lia)).
    by rewrite Z.add_0_l, Z2Nat.id in Hall by lia.
Qed.
End Arrays.
End JsFacts.

(** ** The decision engine *)

Module DecisionFacts.
Import AppState.

Lemma pending_at_is_pending l j img :
  Js.get l j = Some img -> ImageItem.is_pending img = true -> pending_at l j.
Proof.
  intros Hget Hp. exists img. split; [done|].
  unfold ImageItem.is_pending in Hp. by apply bool_decide_eq_true in Hp.
Qed.

Lemma not_pending_at l j :
  (forall img, Js.get l j = Some img -> ImageItem.is_pending img = false) ->
  ~ pending_at l j.
Proof.
  intros H (img & Hget & Hd). specialize (H _ Hget).
  unfold ImageItem.is_pending in H. apply bool_decide_eq_false in H. done.
Qed.

(** The three outcomes of the cursor computation at lines 782-785. *)
Lemma nextIndex_spec l i :
  let c := App.nextIndex l i in
  (i < c /\ pending_at l c /\ forall j, i < j < c -> ~ pending_at l j)
  \/ ((forall j, i < j -> ~ pending_at l j)
      /\ pending_at l c /\ forall j, j < c -> ~ pending_at l j)
  \/ ((forall j, ~ pending_at l j) /\ c = i + 1).
Proof.
  unfold App.nextIndex.
  set (p1 := fun (img : ImageItem.t) idx => (idx >? i) && ImageItem.is_pending img).
  set (p2 := fun (img : ImageItem.t) (_ : Z) => ImageItem.is_pending img).
  destruct (JsFacts.findIndex_spec p1 l) as [[-> Hnone1]|(x & Hge & Hx & Hpx & Hfirst)].
  - simpl.
    assert (Hafter : forall j, i < j -> ~ pending_at l j).
    { intros j Hj. apply not_pending_at. intros img Hget.
      specialize (Hnone1 _ _ Hget). unfold p1 in Hnone1.
      apply andb_false_iff in Hnone1 as [Hgt|Hp]; [|done].
      rewrite Z.gtb_ltb in Hgt. apply Z.ltb_ge in Hgt. lia. }
    destruct (JsFacts.findIndex_spec p2 l) as [[-> Hnone2]|(x & Hge & Hx & Hpx & Hfirst)].
    + simpl. right. right. split; [|done].
      intros j. apply not_pending_at. intros img Hget. exact (Hnone2 _ _ Hget).
    + destruct (Z.eqb_spec (Js.findIndex p2 l) (-1)) as [Heq|_]; [lia|].
      right. left. split; [done|]. split.
      * eapply pending_at_is_pending; eauto.
      * intros j Hj. apply not_pending_at. intros img Hget.
        exact (Hfirst _ _ Hget Hj).
  - destruct (Z.eqb_spec (Js.findIndex p1 l) (-1)) as [Heq|_]; [lia|].
    destruct (Z.eqb_spec (Js.findIndex p1 l) (-1)) as [Heq|_]; [lia|].
    unfold p1 in Hpx. apply andb_true_iff in Hpx as [Hgt Hp].
    rewrite Z.gtb_ltb in Hgt. apply Z.ltb_lt in Hgt.
    left. split; [done|]. split.
    + eapply pending_at_is_pending; eauto.
    + intros j [Hij Hjc]. apply not_pending_at. intros img Hget.
      specialize (Hfirst _ _ Hget Hjc). unfold p1 in Hfirst.
      apply andb_false_iff in Hfirst as [Hgt'|Hp']; [|done].
      rewrite Z.gtb_ltb in Hgt'. apply Z.ltb_ge in Hgt'. lia.
Qed.

(** [performSave] only ever touches the saving indicator. *)
Lemma performSave_state newImages newIndex hist now s :
  fst (App.performSave newImages newIndex hist now s) = s
  \/ fst (App.performSave newImages newIndex hist now s) = setIsSaving false s.
Proof.
  unfold App.performSave. destruct (rootHandle s); [|by left].
  destruct (isRemote s); [by left|by right].
Qed.

(** The host branch of [makeDecision], spelled out. *)
Lemma makeDecision_host now d i s :
  isRemote s = false -> 0 <= i < Js.len (images s) ->
  exists s' eff,
    App.makeDecision now d (Some i) s = Some (s', eff)
    /\ images s' = Js.update_at (images s) i (ImageItem.with_decision d)
    /\ history s' = history s ++ [i]
    /\ currentIndex s' = App.nextIndex (images s') i
    /\ historyRef s' = historyRef s
    /\ view s' = view s /\ isRemote s' = false.
Proof.
  intros Hhost [Hlo Hhi]. unfold App.makeDecision, App.targetIndexOf.
  destruct (Z.geb_spec i (Js.len (images s))) as [Hge|_]; [lia|].
  rewrite Hhost. simpl negb. cbv iota.
  destruct (Z.ltb_spec i 0) as [Hneg|_]; [lia|].
  match goal with
  | |- context [App.performSave ?a ?b ?c ?e ?f] =>
    pose proof (performSave_state a b c e f) as Hps;
    destruct (App.performSave a b c e f) as [s2 saves]
  end.
  eexists _, _. split; [reflexivity|].
  simpl in Hps. destruct Hps as [-> | ->]; simpl; by rewrite ?Hhost.
Qed.




(** The skip example of section 8, item 3. *)
Example decide_skip_policy :
  exists s' eff,
    App.makeDecision 5 Keep (Some 0) (Sample.host Sample.skip_catalog) = Some (s', eff)
    /\ currentIndex s' = 2.
Proof. eexists _, _. vm_compute. split; reflexivity. Qed.

(** C10: a decision whose target index is at or past the end of the
    catalog (in particular any decision on an empty catalog) changes
    nothing, on the host and on the remote alike: the state is returned as
    it was, and there is no message and no gateway call. *)
Theorem decide_past_end_noop now d idx s :
  App.targetIndexOf idx s >= Js.len (images s) ->
  App.makeDecision now d idx s = Some (s, []).
Proof.
  intros Hge. unfold App.makeDecision.
  destruct (Z.geb_spec (App.targetIndexOf idx s) (Js.len (images s))); [done|lia].
Qed.

Lemma decide_past_end_noop_witness :
  App.makeDecision 5 Delete None (Sample.host []) = Some (Sample.host [], [])
  /\ App.makeDecision 5 Keep (Some 4) (Sample.remote Sample.skip_catalog)
     = Some (Sample.remote Sample.skip_catalog, []).
Proof.
  split.
  - apply (decide_past_end_noop 5 Delete None (Sample.host [])). vm_compute. discriminate.
  - apply (decide_past_end_noop 5 Keep (Some 4) (Sample.remote Sample.skip_catalog)).
    vm_compute. discriminate.
Defined.

(** C3: on the remote a decision never changes the mirror.  The state
    (catalog, history, cursor and all the rest) comes back as it was; the
    only effect is one [DECISION] message carrying the decision and the
    target index, sent when the link is open and the index lies before the
    end of the catalog; and a host that receives that message runs its own
    [makeDecision] on the index.  A [DECISION] message arriving at the
    remote is treated the same way: relayed, never applied. *)
Theorem remote_decision_is_intent_only now d idx s :
  isRemote s = true ->
  App.makeDecision now d idx s
    = Some (s, if (App.targetIndexOf idx s <? Js.len (images s)) && connection s
               then [Send (DECISION d (App.targetIndexOf idx s))] else [])
  /\ (forall i, exists eff,
        App.handlePeerMessage now (DECISION d i) s = Some (s, eff)
        /\ (eff = [] \/ eff = [Send (DECISION d i)]))
  /\ (forall now' host i,
        isRemote host = false ->
        App.handlePeerMessage now' (DECISION d i) host
          = App.makeDecision now' d (Some i) host).
Proof.
  intros Hrem.
  assert (Hmd : forall idx', App.makeDecision now d idx' s
    = Some (s, if (App.targetIndexOf idx' s <? Js.len (images s)) && connection s
               then [Send (DECISION d (App.targetIndexOf idx' s))] else [])).
  { intros idx'. unfold App.makeDecision. rewrite Hrem. simpl negb. cbv iota.
    destruct (Z.geb_spec (App.targetIndexOf idx' s) (Js.len (images s))) as [Hge|Hlt].
    - destruct (Z.ltb_spec (App.targetIndexOf idx' s) (Js.len (images s))); [lia|done].
    - destruct (Z.ltb_spec (App.targetIndexOf idx' s) (Js.len (images s))); [|lia].
      by destruct (connection s). }
  split; [apply Hmd|]. split.
  - intros i. eexists. split; [apply (Hmd (Some i))|].
    simpl. destruct (_ && _); auto.
  - reflexivity.
Qed.

Lemma remote_decision_is_intent_only_witness :
  App.makeDecision 5 Delete None (Sample.remote Sample.skip_catalog)
    = Some (Sample.remote Sample.skip_catalog, [Send (DECISION Delete 0)]).
Proof.
  exact (proj1 (remote_decision_is_intent_only 5 Delete None
                  (Sample.remote Sample.skip_catalog) eq_refl)).
Defined.

(** The render that follows a handler changes neither the catalog, nor the
    cursor, nor the history; it refreshes the two refs. *)
Lemma commit_fields s :
  images (App.commit s) = images s
  /\ currentIndex (App.commit s) = currentIndex s
  /\ history (App.commit s) = history s
  /\ historyRef (App.commit s) = history s
  /\ currentIndexRef (App.commit s) = currentIndex s
  /\ isRemote (App.commit s) = isRemote s.
Proof.
  unfold App.commit, App.completion_effect.
  destruct (_ && _); simpl; repeat split; reflexivity.
Qed.

Lemma with_decision_restore d img :
  ImageItem.decision img = Pending ->
  ImageItem.with_decision Pending (ImageItem.with_decision d img) = img.
Proof. destruct img; simpl; intros ->; reflexivity. Qed.

Lemma update_at_restore (l : list ImageItem.t) i d img :
  Js.get l i = Some img -> ImageItem.decision img = Pending ->
  Js.update_at (Js.update_at l i (ImageItem.with_decision d)) i
               (ImageItem.with_decision Pending) = l.
Proof.
  intros Hget Hp. unfold Js.update_at, Js.get in *.
  destruct (i <? 0); [discriminate|].
  apply list_eq. intros j.
  destruct (decide (j = Z.to_nat i)) as [->|Hne].
  - rewrite !list_lookup_alter_eq, Hget. simpl.
    by rewrite with_decision_restore.
  - by rewrite !list_lookup_alter_ne by done.
Qed.

(** C4: on the host, for every record at index [i] that is pending,
    [decide(i, keep)] (after which [catalog[i]] is kept and [i] is on top
    of the history stack) followed (after the render in between) by
    [undo()] gives back the catalog as it was, so [catalog[i]] is pending
    again,
    puts the cursor on [i], and leaves the history stack as it was before
    the pair, hence of the same length; and, whatever the catalog holds,
    [undo()] with an empty history stack changes nothing and has no
    effect: the test of line 802 reads [historyRef.current], which after a
    render holds the history stack. *)
Theorem decide_then_undo_identity now now' i s :
  isRemote s = false ->
  (forall img,
     Js.get (images s) i = Some img -> ImageItem.decision img = Pending ->
     exists s1 e1 s2 e2,
       App.makeDecision now Keep (Some i) s = Some (s1, e1)
       /\ (exists kept, Js.get (images s1) i = Some kept
                        /\ ImageItem.decision kept = Keep)
       /\ history s1 = history s ++ [i]
       /\ App.undoLast now' (App.commit s1) = Some (s2, e2)
       /\ images s2 = images s
       /\ Js.get (images s2) i = Some img
       /\ currentIndex s2 = i
       /\ history s2 = history s
       /\ length (history s2) = length (history s))
  /\ (historyRef s = [] -> App.undoLast now' s = Some (s, []))
  /\ (history s = [] ->
      App.undoLast now' (App.commit s) = Some (App.commit s, [])).
Proof.
  intros Hhost. split; [|split].
  - intros img Hget Hp.
    pose proof (JsFacts.get_Some_range _ _ _ Hget) as Hi.
    destruct (makeDecision_host now Keep i s Hhost Hi)
      as (s1 & e1 & Hrun & Himg & Hhist & _ & _ & _ & Hhost1).
    destruct (commit_fields s1) as (Hci & _ & Hch & Hcr & _ & Hcrem).
    exists s1, e1. unfold App.undoLast.
    rewrite Hcrem, Hhost1, Hcr, Hhist. unfold Js.last_elem. rewrite last_snoc.
    rewrite Hci, Himg, (JsFacts.get_update_at_eq _ _ _ _ Hget).
    eexists _, _. split; [done|].
    split; [by eexists; split; [reflexivity|]|]. split; [reflexivity|].
    split; [reflexivity|]. simpl.
    rewrite Hch, Hhist. unfold Js.slice_init. rewrite removelast_last.
    rewrite (update_at_restore _ _ _ _ Hget Hp). done.
  - intros Hempty. unfold App.undoLast. by rewrite Hhost, Hempty.
  - intros Hempty. destruct (commit_fields s) as (_ & _ & _ & Hcr & _ & Hcrem).
    unfold App.undoLast. by rewrite Hcrem, Hhost, Hcr, Hempty.
Qed.

Lemma decide_then_undo_identity_witness :
  (exists s1 e1 s2 e2,
     App.makeDecision 5 Keep (Some 2) (Sample.host Sample.skip_catalog) = Some (s1, e1)
     /\ (exists kept, Js.get (images s1) 2 = Some kept
                      /\ ImageItem.decision kept = Keep)
     /\ history s1 = [2]
     /\ App.undoLast 6 (App.commit s1) = Some (s2, e2)
     /\ images s2 = Sample.skip_catalog
     /\ currentIndex s2 = 2
     /\ history s2 = [])
  /\ App.undoLast 6 (App.commit (Sample.host Sample.skip_catalog))
     = Some (App.commit (Sample.host Sample.skip_catalog), [])
  /\ App.undoLast 6 (Sample.host [Sample.img "a" Keep; Sample.img "b" Delete])
     = Some (Sample.host [Sample.img "a" Keep; Sample.img "b" Delete], [])
  /\ App.undoLast 6 (Sample.host []) = Some (Sample.host [], []).
Proof.
  destruct (decide_then_undo_identity 5 6 2 (Sample.host Sample.skip_catalog) eq_refl)
    as (Hpair & _ & Hempty).
  destruct (Hpair (Sample.img "c" Pending) eq_refl eq_refl)
    as (s1 & e1 & s2 & e2 & H1 & Hk & Hh & H2 & H3 & _ & H5 & H6 & _).
  split; [|split; [|split]].
  - exists s1, e1, s2, e2. split; [exact H1|]. split; [exact Hk|].
    split; [exact Hh|]. split; [exact H2|]. split; [exact H3|].
    split; [exact H5|exact H6].
  - apply Hempty. reflexivity.
  - exact (proj1 (proj2 (decide_then_undo_identity 5 6 0
             (Sample.host [Sample.img "a" Keep; Sample.img "b" Delete]) eq_refl))
             eq_refl).
  - exact (proj1 (proj2 (decide_then_undo_identity 5 6 0 (Sample.host []) eq_refl))
             eq_refl).
Defined.

(** A decision keeps the history inside the catalog. *)
Lemma decide_keeps_history_in_range now d idx s s' eff :
  isRemote s = false -> history_in_range s ->
  App.makeDecision now d idx s = Some (s', eff) ->
  history_in_range s'.
Proof.
  intros Hhost Hwf. unfold App.makeDecision. rewrite Hhost. simpl negb. cbv iota.
  destruct (Z.geb_spec (App.targetIndexOf idx s) (Js.len (images s))) as [|Hlt];
    [by intros [= <- _]|].
  destruct (Z.ltb_spec (App.targetIndexOf idx s) 0) as [|Hge]; [discriminate|].
  match goal with
  | |- context [App.performSave ?a ?b ?c ?e ?f] =>
    pose proof (performSave_state a b c e f) as Hps;
    destruct (App.performSave a b c e f) as [s2 saves]
  end.
  intros [= <- _]. simpl in Hps. unfold history_in_range.
  destruct Hps as [-> | ->]; simpl; rewrite JsFacts.len_update_at;
    (apply Forall_app; split; [exact Hwf|by apply Forall_singleton]).
Qed.

(** With the history inside the catalog, [undo()] on the host always has an
    outcome, and the history stays inside the catalog. *)
Lemma undo_defined now s :
  isRemote s = false -> history_in_range s ->
  exists s' eff,
    App.undoLast now (App.commit s) = Some (s', eff) /\ history_in_range s'.
Proof.
  intros Hhost Hwf. destruct (commit_fields s) as (Hci & _ & Hch & Hcr & _ & Hcrem).
  assert (Hwf' : history_in_range (App.commit s))
    by (unfold history_in_range; by rewrite Hci, Hch).
  unfold App.undoLast. rewrite Hcrem, Hhost, Hcr. unfold Js.last_elem.
  destruct (last (history s)) as [lastIndex|] eqn:Hlast; [|by eauto].
  assert (Hin : 0 <= lastIndex < Js.len (images s)).
  { apply last_Some in Hlast as [h' Hh'].
    unfold history_in_range in Hwf. rewrite Hh' in Hwf.
    apply Forall_app in Hwf as [_ Hl]. exact (proj1 (Forall_singleton _ _) Hl). }
  rewrite Hci. destruct (JsFacts.get_in_range (images s) lastIndex Hin) as [old ->].
  eexists _, _. split; [reflexivity|].
  unfold history_in_range. simpl. rewrite JsFacts.len_update_at, Hch.
  unfold Js.slice_init. apply last_Some in Hlast as [h' Hh']. rewrite Hh'.
  rewrite removelast_last. unfold history_in_range in Hwf. rewrite Hh' in Hwf.
  by apply Forall_app in Hwf as [Hl _].
Qed.

(** On the remote [undo()] only asks the host. *)
Lemma remote_undo_is_intent_only now s :
  isRemote s = true ->
  App.undoLast now s = Some (s, if connection s then [Send UNDO] else []).
Proof. intros H. unfold App.undoLast. by rewrite H. Qed.

(** C2 (amended): when the remote receives [DECISION_ACK] carrying index
    [i], the later revision of the handler clears the saving indicator and
    changes nothing else, so the cursor stays where it is until the host's
    next [NAVIGATE]; the earlier revision of the handler also moves the
    cursor to [i + 1]. *)
Theorem remote_ack_clears_saving now i s :
  isRemote s = true ->
  App.handlePeerMessage now (DECISION_ACK i) s = Some (setIsSaving false s, [])
  /\ currentIndex (setIsSaving false s) = currentIndex s
  /\ isSaving (setIsSaving false s) = false
  /\ AppV1.handlePeerMessage now (DECISION_ACK i) s
     = Some (setIsSaving false (setCurrentIndex (i + 1) s), [])
  /\ currentIndex (setIsSaving false (setCurrentIndex (i + 1) s)) = i + 1.
Proof. intros H. simpl. rewrite H. repeat split; reflexivity. Qed.

Lemma remote_ack_clears_saving_witness :
  App.handlePeerMessage 5 (DECISION_ACK 0) (Sample.remote Sample.skip_catalog)
  = Some (setIsSaving false (Sample.remote Sample.skip_catalog), []).
Proof.
  exact (proj1 (remote_ack_clears_saving 5 0 (Sample.remote Sample.skip_catalog) eq_refl)).
Defined.

(** C2, as stated, fails on the later revision: a remote with its cursor on
    index 0 that receives [DECISION_ACK] for index 0 still has its cursor
    on index 0, not on 1. *)
Lemma remote_ack_keeps_cursor :
  exists s' eff,
    App.handlePeerMessage 5 (DECISION_ACK 0) (Sample.remote Sample.skip_catalog)
      = Some (s', eff)
    /\ currentIndex s' = 0
    /\ currentIndex s' <> 0 + 1.
Proof. eexists _, _. vm_compute. repeat split; congruence. Qed.
End DecisionFacts.

(** ** The persistence gateway *)

Module DbFacts.
Import Db.

Lemma healthy_faults w w' : faults w' = faults w -> healthy w -> healthy w'.
Proof. intros E H n. by rewrite E. Qed.

Lemma down_faults w w' : faults w' = faults w -> down w -> down w'.
Proof. intros E H n. by rewrite E. Qed.

(** A call wrapped in [try { ... } catch { return v }] never rejects. *)
Lemma try_catch_ret_total {A} (m : M A) (v : A) w :
  exists a w', try_catch m (ret v) w = (Ok a, w').
Proof.
  unfold try_catch, ret. destruct (m w) as [[a|] w']; eauto.
Qed.

Ltac run :=
  unfold catch_null, try_catch, bind, gets, modify, ret, throw, request; simpl.
Ltac run_with H := run; repeat (rewrite H; simpl).

Lemma getFirstListItem_healthy {R} (coll : World -> list R) p w :
  healthy w ->
  catch_null (getFirstListItem coll p) w = (Ok (List.find p (coll (tick w))), tick w).
Proof.
  intros H. unfold getFirstListItem. run_with H.
  by destruct (List.find p (coll (tick w))).
Qed.

Lemma getFullList_healthy {R} (coll : World -> list R) p w :
  healthy w ->
  getFullList coll p w = (Ok (List.filter p (coll (tick w))), tick w).
Proof. intros H. unfold getFullList. by run_with H. Qed.

Lemma update_healthy {R} (coll : World -> list R) setColl idOf i (f : R -> R) w :
  healthy w ->
  existsb (fun r => Nat.eqb (idOf r) i) (coll (tick w)) = true ->
  update coll setColl idOf i f w
  = (Ok tt, setColl (List.map (fun r => if Nat.eqb (idOf r) i then f r else r)
                              (coll (tick w))) (tick w)).
Proof. intros H Hex. unfold update. run_with H. by rewrite Hex. Qed.

Lemma ensure_idb_healthy w :
  healthy w ->
  exists w', ensure_idb w = (Ok tt, w')
    /\ sessions w' = sessions w /\ decisions w' = decisions w
    /\ handles w' = handles w /\ faults w' = faults w
    /\ progressLog w' = progressLog w /\ idb w' = true.
Proof.
  intros H. unfold ensure_idb, init. run. destruct (idb w) eqn:Hidb.
  - eexists. split; [reflexivity|]. by repeat split.
  - repeat (rewrite H; simpl). eexists. split; [reflexivity|]. by repeat split.
Qed.

Lemma storeHandleLocally_healthy name h w :
  healthy w ->
  exists w', storeHandleLocally name h w = (Ok tt, w')
    /\ sessions w' = sessions w /\ decisions w' = decisions w
    /\ handles w' = <[name := h]> (handles w) /\ faults w' = faults w
    /\ progressLog w' = progressLog w.
Proof.
  intros H. destruct (ensure_idb_healthy w H) as (w1 & E & Hs & Hd & Hh & Hf & Hp & _).
  unfold storeHandleLocally. unfold bind at 1. rewrite E.
  run. rewrite Hf, H. simpl.
  eexists. split; [reflexivity|]. simpl. by rewrite Hs, Hd, Hh, Hf, Hp.
Qed.

Lemma deleteHandleLocally_healthy name w :
  healthy w ->
  exists w', deleteHandleLocally name w = (Ok tt, w')
    /\ sessions w' = sessions w /\ decisions w' = decisions w
    /\ handles w' = delete name (handles w) /\ faults w' = faults w
    /\ progressLog w' = progressLog w.
Proof.
  intros H. destruct (ensure_idb_healthy w H) as (w1 & E & Hs & Hd & Hh & Hf & Hp & _).
  unfold deleteHandleLocally. unfold bind at 1. rewrite E.
  run. rewrite Hf, H. simpl.
  eexists. split; [reflexivity|]. simpl. by rewrite Hs, Hd, Hh, Hf, Hp.
Qed.

Lemma existsb_map_same_id (g : DecisionRecord.t -> DecisionRecord.t) i l :
  (forall r, DecisionRecord.id (g r) = DecisionRecord.id r) ->
  existsb (fun r => Nat.eqb (DecisionRecord.id r) i) (List.map g l)
  = existsb (fun r => Nat.eqb (DecisionRecord.id r) i) l.
Proof.
  intros Hg. induction l as [|a l IH]; simpl; [done|]. by rewrite Hg, IH.
Qed.

Lemma progress_step (c total : Z) n :
  (c + 1, total) :: List.map (fun k => (c + 1 + Z.of_nat k, total)) (seq 1 n)
  = List.map (fun k => (c + Z.of_nat k, total)) (seq 1 (S n)).
Proof.
  rewrite <- cons_seq. simpl. f_equal. rewrite <- (seq_shift n 1), List.map_map.
  apply List.map_ext. intros k. f_equal. lia.
Qed.

(** The migration loop on a backend that answers: every listed record gets
    the new name, and the callback hears [count + 1, ..., count + n]. *)
Lemma migrate_healthy newPath total rs :
  forall c w,
    healthy w ->
    (forall r, In r rs ->
       existsb (fun x => Nat.eqb (DecisionRecord.id x) (DecisionRecord.id r))
               (decisions w) = true) ->
    exists w',
      migrate newPath true total rs c w = (Ok tt, w')
      /\ decisions w'
         = List.map (fun x =>
             if existsb (fun r => Nat.eqb (DecisionRecord.id r) (DecisionRecord.id x)) rs
             then DecisionRecord.with_directoryName newPath x else x) (decisions w)
      /\ sessions w' = sessions w /\ handles w' = handles w
      /\ faults w' = faults w
      /\ progressLog w'
         = progressLog w ++ List.map (fun k => (c + Z.of_nat k, total)) (seq 1 (length rs)).
Proof.
  induction rs as [|r rs IH]; intros c w H Hex.
  - exists w. simpl. rewrite List.map_id, app_nil_r. by repeat split.
  - cbn [migrate]. unfold bind at 1.
    rewrite update_healthy; [|done|apply Hex; by left].
    unfold bind at 1. unfold modify at 1.
    match goal with |- context [migrate _ _ _ _ _ ?w1] => set (w1' := w1) end.
    destruct (IH (c + 1) w1') as (w' & Hrun & Hd & Hs & Hh & Hf & Hp).
    + by eapply healthy_faults; [|exact H].
    + intros r' Hr'. subst w1'. simpl.
      rewrite existsb_map_same_id by (intros x; by destruct (Nat.eqb _ _)).
      apply Hex. by right.
    + exists w'. split; [exact Hrun|]. subst w1'. simpl in *.
      split; [|split; [done|split; [done|split; [done|]]]].
      * rewrite Hd, List.map_map. apply List.map_ext. intros x.
        destruct (Nat.eqb (DecisionRecord.id x) (DecisionRecord.id r)) eqn:E.
        -- rewrite (Nat.eqb_sym (DecisionRecord.id r)), E. simpl.
           by destruct (existsb _ rs).
        -- by rewrite (Nat.eqb_sym (DecisionRecord.id r)), E.
      * rewrite Hp, <- app_assoc. f_equal. apply progress_step.
Qed.

Lemma same_id_same_record (l : list DecisionRecord.t) x r :
  NoDup (List.map DecisionRecord.id l) -> In x l -> In r l ->
  DecisionRecord.id x = DecisionRecord.id r -> x = r.
Proof.
  induction l as [|a l IH]; simpl; [done|].
  intros Hnd Hx Hr E. apply NoDup_cons in Hnd as [Hna Hnd].
  destruct Hx as [->|Hx], Hr as [->|Hr]; [done| | |by apply IH].
  - exfalso. apply Hna. rewrite E. apply list_elem_of_In. by apply in_map.
  - exfalso. apply Hna. rewrite <- E. apply list_elem_of_In. by apply in_map.
Qed.

(** With distinct record ids, the records touched by the loop are exactly
    those stored under the old name. *)
Lemma migrated_by_ids old new l :
  NoDup (List.map DecisionRecord.id l) ->
  List.map (fun x =>
    if existsb (fun r => Nat.eqb (DecisionRecord.id r) (DecisionRecord.id x))
               (List.filter (decision_in old) l)
    then DecisionRecord.with_directoryName new x else x) l
  = migrated old new l.
Proof.
  intros Hnd. unfold migrated. apply List.map_ext_in. intros x Hx.
  destruct (decision_in old x) eqn:Hin.
  - replace (existsb _ _) with true; [done|]. symmetry. apply existsb_exists.
    exists x. split; [apply filter_In; by split|apply Nat.eqb_refl].
  - replace (existsb _ _) with false; [done|]. symmetry.
    apply not_true_is_false. intros Hex. apply existsb_exists in Hex as (r & Hr & E).
    apply filter_In in Hr as [Hr Hold]. apply Nat.eqb_eq in E.
    assert (r = x) as -> by (by eapply same_id_same_record). congruence.
Qed.

Lemma bind_ok {A B} (m : M A) (k : A -> M B) w a w' :
  m w = (Ok a, w') -> bind m k w = k a w'.
Proof. intros E. unfold bind. by rewrite E. Qed.

Lemma bind_thrown {A B} (m : M A) (k : A -> M B) w w' :
  m w = (Thrown, w') -> bind m k w = (Thrown, w').
Proof. intros E. unfold bind. by rewrite E. Qed.

(** *** The lookup table built by [getDecisionsForDirectory] *)

Lemma foldl_put_renamed new rs : forall m,
  foldl put_decision m (List.map (DecisionRecord.with_directoryName new) rs) = foldl put_decision m rs.
Proof. induction rs as [|r rs IH]; intros m; simpl; [done|]. apply IH. Qed.

Lemma dom_foldl_put rs : forall m,
  dom (foldl put_decision m rs)
  = list_to_set (List.map DecisionRecord.relativePath rs) ∪ dom m.
Proof.
  induction rs as [|r rs IH]; intros m; simpl.
  - by rewrite (left_id_L ∅ (∪)).
  - rewrite IH. unfold put_decision. rewrite dom_insert_L.
    by rewrite (assoc_L (∪)), (comm_L (∪) (list_to_set _) {[_]}).
Qed.

Lemma decision_map_has_path rs r :
  In r rs -> is_Some (decision_map rs !! DecisionRecord.relativePath r).
Proof.
  intros Hr. apply elem_of_dom. unfold decision_map.
  change (foldl _ ∅ rs) with (foldl put_decision ∅ rs). rewrite dom_foldl_put.
  apply elem_of_union_l, elem_of_list_to_set, list_elem_of_In.
  by apply in_map.
Qed.

Lemma decision_map_size rs :
  NoDup (List.map DecisionRecord.relativePath rs) ->
  size (decision_map rs) = length rs.
Proof.
  intros Hnd. rewrite <- size_dom. unfold decision_map.
  change (foldl _ ∅ rs) with (foldl put_decision ∅ rs). rewrite dom_foldl_put.
  rewrite dom_empty_L, (right_id_L ∅ (∪)), size_list_to_set by done.
  apply length_map.
Qed.

Lemma decision_map_renamed new rs :
  decision_map (List.map (DecisionRecord.with_directoryName new) rs) = decision_map rs.
Proof. apply foldl_put_renamed. Qed.

Lemma decision_in_renamed new r :
  decision_in new (DecisionRecord.with_directoryName new r) = true.
Proof. unfold decision_in. simpl. apply String.eqb_refl. Qed.

(** What is stored under the new name after the migration, when nothing
    was stored under it before. *)
Lemma filter_migrated_fresh old new l :
  (forall r, In r l -> decision_in new r = false) ->
  List.filter (decision_in new) (migrated old new l)
  = List.map (DecisionRecord.with_directoryName new) (List.filter (decision_in old) l).
Proof.
  unfold migrated. induction l as [|a l IH]; intros Hfresh; simpl; [done|].
  rewrite IH by (intros r Hr; apply Hfresh; by right).
  destruct (decision_in old a) eqn:Hold.
  - by rewrite decision_in_renamed.
  - by rewrite (Hfresh a) by (by left).
Qed.

(** Every migrated record is stored under the new name. *)
Lemma migrated_in_new old new l r :
  In r l -> decision_in old r = true ->
  In (DecisionRecord.with_directoryName new r)
     (List.filter (decision_in new) (migrated old new l)).
Proof.
  intros Hr Hold. apply filter_In. split; [|apply decision_in_renamed].
  unfold migrated. apply in_map_iff. exists r. by rewrite Hold.
Qed.

Lemma getDecisionsForDirectory_healthy dir w :
  healthy w ->
  getDecisionsForDirectory dir w
  = (Ok (decision_map (List.filter (decision_in dir) (decisions w))), tick w).
Proof.
  intros H. unfold getDecisionsForDirectory, try_catch.
  erewrite bind_ok by (by apply getFullList_healthy). reflexivity.
Qed.

Lemma find_session_exists p (l : list SessionRecord.t) r0 :
  List.find p l = Some r0 ->
  existsb (fun r => Nat.eqb (SessionRecord.id r) (SessionRecord.id r0)) l = true.
Proof.
  intros Hf. apply find_some in Hf as [Hin _]. apply existsb_exists.
  exists r0. split; [done|apply Nat.eqb_refl].
Qed.

(** The first step of [relinkSession] on a backend that answers; [rest]
    is what follows it. *)
Lemma relink_session_step {B} old new (rest : M B) w :
  healthy w ->
  exists w1,
    bind (catch_null (getFirstListItem sessions (session_in old)))
         (fun sessionRecord =>
            bind (match sessionRecord with
                  | Some r => update sessions setSessions SessionRecord.id
                                     (SessionRecord.id r)
                                     (SessionRecord.with_directoryName new)
                  | None => ret tt
                  end) (fun _ => rest)) w = rest w1
    /\ sessions w1 = relinked_sessions old new (sessions w)
    /\ decisions w1 = decisions w /\ handles w1 = handles w
    /\ faults w1 = faults w /\ progressLog w1 = progressLog w.
Proof.
  intros H. erewrite bind_ok by (by apply getFirstListItem_healthy).
  unfold relinked_sessions. change (sessions (tick w)) with (sessions w).
  destruct (List.find (session_in old) (sessions w)) as [r0|] eqn:Hfind.
  - erewrite bind_ok;
      [|apply update_healthy;
        [by eapply healthy_faults; [|exact H]|by eapply find_session_exists]].
    eexists. split; [reflexivity|]. by repeat split.
  - eexists. split; [reflexivity|]. by repeat split.
Qed.

(** The session record that [relinkSession] looks up is stored under the
    new name afterwards, its other fields as they were. *)
Lemma relinked_session_renamed old new l r0 :
  List.find (session_in old) l = Some r0 ->
  In (SessionRecord.mk (SessionRecord.id r0) new (SessionRecord.lastIndex r0)
                       (SessionRecord.totalImages r0) (SessionRecord.isDone r0)
                       (SessionRecord.updatedAt r0))
     (relinked_sessions old new l).
Proof.
  intros Hfind. unfold relinked_sessions. rewrite Hfind.
  apply find_some in Hfind as [Hin _].
  apply in_map_iff. exists r0. split; [|exact Hin].
  by rewrite Nat.eqb_refl.
Qed.

(** A session stored under a name is found by [getSession] under that
    name. *)
Lemma getSession_finds name w r :
  healthy w -> In r (sessions w) -> SessionRecord.directoryName r = name ->
  exists sess,
    getSession name w = (Ok (Some sess), tick w)
    /\ CullSession.directoryName sess = name.
Proof.
  intros H Hin Hname. unfold getSession, try_catch.
  erewrite bind_ok by (by apply getFirstListItem_healthy).
  change (sessions (tick w)) with (sessions w).
  destruct (List.find (session_in name) (sessions w)) as [y|] eqn:Hfind.
  - exists (SessionRecord.to_session y). split; [reflexivity|].
    apply find_some in Hfind as [_ Hy]. by apply String.eqb_eq in Hy.
  - exfalso. apply (find_none _ _ Hfind) in Hin.
    unfold session_in in Hin. rewrite Hname, String.eqb_refl in Hin. discriminate.
Qed.

(** C8: on a backend that answers, with distinct record ids, relinking a
    directory that has N decision records moves the first session record
    of the old name to the new name (the record with that id is stored
    under the new name afterwards, its other fields unchanged, and
    [getSession] finds a session under the new name), moves each of the N
    decision records
    to the new name, calls the progress callback exactly N times, with
    counts 1, 2, ..., N and total N every time, and last drops the cached
    handle of the old name and stores the new handle under the new name.
    A decision lookup under the new name afterwards has an entry for the
    path of each of the N records; when nothing was stored under the new
    name before, the lookup is the very table the old name gave before the
    relink, with N entries when the N paths are distinct. *)
Theorem relink_migrates_all old new h w :
  healthy w ->
  NoDup (List.map DecisionRecord.id (decisions w)) ->
  exists w',
    relinkSession old new h true w = (Ok tt, w')
    /\ sessions w' = relinked_sessions old new (sessions w)
    /\ (forall r0,
          List.find (session_in old) (sessions w) = Some r0 ->
          In (SessionRecord.mk (SessionRecord.id r0) new
                (SessionRecord.lastIndex r0) (SessionRecord.totalImages r0)
                (SessionRecord.isDone r0) (SessionRecord.updatedAt r0))
             (sessions w')
          /\ exists sess w'',
               getSession new w' = (Ok (Some sess), w'')
               /\ CullSession.directoryName sess = new)
    /\ decisions w' = migrated old new (decisions w)
    /\ progressLog w'
       = progressLog w
         ++ progress_calls (length (List.filter (decision_in old) (decisions w)))
    /\ handles w' = <[new := h]> (delete old (handles w))
    /\ exists m w'',
         getDecisionsForDirectory new w' = (Ok m, w'')
         /\ (forall r, In r (decisions w) -> decision_in old r = true ->
               is_Some (m !! DecisionRecord.relativePath r))
         /\ ((forall r, In r (decisions w) -> decision_in new r = false) ->
             m = decision_map (List.filter (decision_in old) (decisions w))
             /\ (NoDup (List.map DecisionRecord.relativePath
                          (List.filter (decision_in old) (decisions w))) ->
                 size m = length (List.filter (decision_in old) (decisions w)))).
Proof.
  intros H Hnd. unfold relinkSession.
  (* the session record *)
  match goal with
  | |- context [bind (catch_null _) (fun _ => bind _ (fun _ => ?rest))] =>
    destruct (relink_session_step old new rest w H)
      as (w1 & E1 & Hs1 & Hd1 & Hh1 & Hf1 & Hp1)
  end.
  rewrite E1. clear E1.
  assert (H1 : healthy w1) by (by eapply healthy_faults; [|exact H]).
  (* the decision records *)
  erewrite bind_ok by (by apply getFullList_healthy).
  change (decisions (tick w1)) with (decisions w1). rewrite Hd1.
  set (rs := List.filter (decision_in old) (decisions w)).
  destruct (migrate_healthy new (Js.len rs) rs 0 (tick w1)) as
    (w2 & E2 & Hd2 & Hs2 & Hh2 & Hf2 & Hp2).
  { by eapply healthy_faults; [|exact H1]. }
  { intros r Hr. change (decisions (tick w1)) with (decisions w1). rewrite Hd1.
    apply existsb_exists. exists r. split; [|apply Nat.eqb_refl].
    by apply filter_In in Hr as [Hr _]. }
  erewrite bind_ok by exact E2.
  assert (H2 : healthy w2) by (by eapply healthy_faults; [|exact H1]; rewrite Hf2).
  (* the handles *)
  destruct (deleteHandleLocally_healthy old w2 H2) as (w3 & E3 & Hs3 & Hd3 & Hh3 & Hf3 & Hp3).
  erewrite bind_ok by exact E3.
  assert (H3 : healthy w3) by (by eapply healthy_faults; [|exact H2]).
  destruct (storeHandleLocally_healthy new h w3 H3) as (w4 & E4 & Hs4 & Hd4 & Hh4 & Hf4 & Hp4).
  exists w4. split; [exact E4|].
  assert (Hdec : decisions w4 = migrated old new (decisions w)).
  { rewrite Hd4, Hd3, Hd2. change (decisions (tick w1)) with (decisions w1).
    rewrite Hd1. by apply migrated_by_ids. }
  assert (H4 : healthy w4) by (by eapply healthy_faults; [|exact H3]).
  assert (Hsess : sessions w4 = relinked_sessions old new (sessions w))
    by (by rewrite Hs4, Hs3, Hs2).
  split; [exact Hsess|]. split.
  { intros r0 Hfind.
    pose proof (relinked_session_renamed old new _ _ Hfind) as Hin.
    rewrite <- Hsess in Hin. split; [exact Hin|].
    destruct (getSession_finds new w4 _ H4 Hin eq_refl) as (sess & E & Hname).
    by exists sess, (tick w4). }
  split; [exact Hdec|].
  split.
  { rewrite Hp4, Hp3, Hp2. change (progressLog (tick w1)) with (progressLog w1).
    rewrite Hp1. reflexivity. }
  split; [by rewrite Hh4, Hh3, Hh2; change (handles (tick w1)) with (handles w1); rewrite Hh1|].
  rewrite (getDecisionsForDirectory_healthy new w4 H4), Hdec.
  eexists _, _. split; [reflexivity|]. split.
  - intros r Hr Hold.
    apply (decision_map_has_path _ (DecisionRecord.with_directoryName new r)).
    by apply migrated_in_new.
  - intros Hfresh. rewrite filter_migrated_fresh by done.
    rewrite decision_map_renamed. split; [done|]. apply decision_map_size.
Qed.

Lemma relink_migrates_all_witness :
  exists w',
    relinkSession "shoot" "archive" 9%nat true SampleDb.up = (Ok tt, w')
    /\ List.map SessionRecord.directoryName (sessions w') = ["archive"; "other"]
    /\ In (SessionRecord.mk 1 "archive" 2 4 false 1000) (sessions w')
    /\ (exists sess w'',
          getSession "archive" w' = (Ok (Some sess), w'')
          /\ CullSession.directoryName sess = "archive")
    /\ decisions w' = migrated "shoot" "archive" SampleDb.decisions
    /\ progressLog w' = [(1, 2); (2, 2)]
    /\ handles w' = <["archive" := 9%nat]> (delete "shoot" (handles SampleDb.up))
    /\ exists m w'',
         getDecisionsForDirectory "archive" w' = (Ok m, w'')
         /\ m = decision_map (List.filter (decision_in "shoot") SampleDb.decisions)
         /\ size m = 2%nat.
Proof.
  destruct (relink_migrates_all "shoot" "archive" 9%nat SampleDb.up)
    as (w' & E & Hs & Hren & Hd & Hp & Hh & m & w'' & Hget & _ & Hfresh).
  - intros n. reflexivity.
  - apply (bool_decide_unpack _). vm_compute. reflexivity.
  - exists w'. split; [exact E|].
    split; [by rewrite Hs|].
    destruct (Hren (SessionRecord.mk 1 "shoot" 2 4 false 1000) eq_refl)
      as [Hin Hfound].
    split; [exact Hin|]. split; [exact Hfound|].
    split; [exact Hd|]. split; [exact Hp|].
    split; [exact Hh|]. exists m, w''. split; [exact Hget|].
    destruct Hfresh as [Hm Hsize].
    + intros r Hr. simpl in Hr.
      destruct Hr as [<-|[<-|[<-|[]]]]; reflexivity.
    + split; [exact Hm|]. apply Hsize.
      apply (bool_decide_unpack _). vm_compute. reflexivity.
Defined.

(** *** Failures *)

Lemma saveSession_down s w :
  down w -> saveSession s w = (Ok tt, tick (tick w)).
Proof.
  intros H. unfold saveSession, getFirstListItem, sessions_create. run.
  by repeat (rewrite H; simpl).
Qed.

Lemma saveDecision_down d w :
  down w -> saveDecision d w = (Ok tt, tick (tick w)).
Proof.
  intros H. unfold saveDecision, getFirstListItem, decisions_create. run.
  by repeat (rewrite H; simpl).
Qed.

Lemma relinkSession_down old new h p w :
  down w -> relinkSession old new h p w = (Thrown, tick (tick w)).
Proof.
  intros H. unfold relinkSession, getFirstListItem, getFullList. run.
  by repeat (rewrite H; simpl).
Qed.

Lemma ensure_idb_down w :
  down w -> exists w', ensure_idb w = (Ok tt, w') /\ faults w' = faults w
                       \/ ensure_idb w = (Thrown, w').
Proof.
  intros H. unfold ensure_idb, init. run. destruct (idb w).
  - exists w. by left.
  - repeat (rewrite H; simpl). eexists. by right.
Qed.

Lemma storeHandleLocally_down name h w :
  down w -> exists w', storeHandleLocally name h w = (Thrown, w').
Proof.
  intros H. unfold storeHandleLocally.
  destruct (ensure_idb_down w H) as (w1 & [[E Hf]|E]).
  - erewrite bind_ok by exact E. run. rewrite Hf, H. simpl. eauto.
  - erewrite bind_thrown by exact E. eauto.
Qed.

Lemma deleteHandleLocally_down name w :
  down w -> exists w', deleteHandleLocally name w = (Thrown, w').
Proof.
  intros H. unfold deleteHandleLocally.
  destruct (ensure_idb_down w H) as (w1 & [[E Hf]|E]).
  - erewrite bind_ok by exact E. run. rewrite Hf, H. simpl. eauto.
  - erewrite bind_thrown by exact E. eauto.
Qed.

Lemma getHandleLocally_down name w :
  down w -> exists w', getHandleLocally name w = (Thrown, w').
Proof.
  intros H. unfold getHandleLocally.
  destruct (ensure_idb_down w H) as (w1 & [[E Hf]|E]).
  - erewrite bind_ok by exact E. run. rewrite Hf, H. simpl. eauto.
  - erewrite bind_thrown by exact E. eauto.
Qed.

(** C9 (amended): the five PocketBase-backed calls ([saveSession],
    [saveDecision], [getAllSessions], [getSession],
    [getDecisionsForDirectory]) never reject, whatever fails underneath;
    a read whose request fails returns the empty list, [null] or the empty
    table; on an unreachable backend the two writes leave the sessions,
    the decisions and the handles as they were.  [relinkSession] and the
    local handle calls ([storeHandleLocally], [deleteHandleLocally],
    [getHandleLocally]) are not covered: on an unreachable backend they
    reject, and the caller sees the failure. *)
Theorem gateway_failure_policy w :
  ((forall s, exists w', saveSession s w = (Ok tt, w'))
   /\ (forall d, exists w', saveDecision d w = (Ok tt, w'))
   /\ (exists l w', getAllSessions w = (Ok l, w'))
   /\ (forall n, exists r w', getSession n w = (Ok r, w'))
   /\ (forall n, exists m w', getDecisionsForDirectory n w = (Ok m, w')))
  /\ (faults w (clock w) = true ->
      getAllSessions w = (Ok [], tick w)
      /\ (forall n, getSession n w = (Ok None, tick w))
      /\ (forall n, getDecisionsForDirectory n w = (Ok ∅, tick w)))
  /\ (down w ->
      (forall s, exists w', saveSession s w = (Ok tt, w')
         /\ sessions w' = sessions w /\ decisions w' = decisions w
         /\ handles w' = handles w)
      /\ (forall d, exists w', saveDecision d w = (Ok tt, w')
            /\ sessions w' = sessions w /\ decisions w' = decisions w
            /\ handles w' = handles w)
      /\ (forall old new h p, exists w', relinkSession old new h p w = (Thrown, w'))
      /\ (forall n h, exists w', storeHandleLocally n h w = (Thrown, w'))
      /\ (forall n, exists w', deleteHandleLocally n w = (Thrown, w'))
      /\ (forall n, exists w', getHandleLocally n w = (Thrown, w'))).
Proof.
  split; [|split].
  - split; [|split; [|split; [|split]]].
    + intros s. destruct (try_catch_ret_total
        (bind (catch_null (getFirstListItem sessions
                 (session_in (CullSession.directoryName s))))
           (fun existing =>
              bind match existing with
                   | Some r => update sessions setSessions SessionRecord.id
                                      (SessionRecord.id r) (SessionRecord.with_data s)
                   | None => sessions_create s
                   end
                (fun _ => match CullSession.handle s with
                          | Some h => storeHandleLocally (CullSession.directoryName s) h
                          | None => ret tt
                          end))) tt w) as ([] & w' & E).
      exists w'. exact E.
    + intros d. unfold saveDecision.
      match goal with |- context [try_catch ?m (ret tt)] =>
        destruct (try_catch_ret_total m tt w) as ([] & w' & E) end.
      exists w'. exact E.
    + apply try_catch_ret_total.
    + intros n. apply try_catch_ret_total.
    + intros n. apply try_catch_ret_total.
  - intros Hfail. unfold getAllSessions, getSession, getDecisionsForDirectory,
      sessions_sorted, getFirstListItem, getFullList. run. rewrite Hfail. by simpl.
  - intros Hdown.
    split; [intros s; rewrite saveSession_down by done; by eexists|].
    split; [intros d; rewrite saveDecision_down by done; by eexists|].
    split; [intros old new h p; rewrite relinkSession_down by done; by eexists|].
    split; [intros n h; by apply storeHandleLocally_down|].
    split; [intros n; by apply deleteHandleLocally_down|].
    intros n; by apply getHandleLocally_down.
Qed.

Lemma gateway_failure_policy_witness :
  getAllSessions SampleDb.unreachable = (Ok [], tick SampleDb.unreachable)
  /\ exists w', saveDecision (ImageDecision.mk "shoot" "shoot/a.jpg" Delete)
                             SampleDb.unreachable = (Ok tt, w')
                /\ decisions w' = SampleDb.decisions.
Proof.
  destruct (gateway_failure_policy SampleDb.unreachable) as (_ & Hread & Hdown).
  split.
  - apply Hread. reflexivity.
  - destruct Hdown as (_ & Hsave & _); [intros n; reflexivity|].
    destruct (Hsave (ImageDecision.mk "shoot" "shoot/a.jpg" Delete))
      as (w' & E & _ & Hd & _).
    exists w'. split; assumption.
Defined.

(** C9, as stated, fails: on an unreachable backend [relinkSession]
    rejects, and so does [storeHandleLocally]; the failure reaches the
    caller. *)
Lemma relink_failure_propagates :
  fst (relinkSession "shoot" "archive" 9%nat true SampleDb.unreachable) = Thrown
  /\ fst (storeHandleLocally "archive" 9%nat SampleDb.unreachable) = Thrown.
Proof. split; vm_compute; reflexivity. Qed.
End DbFacts.

(** ** Writing and reading back one decision *)

Module UpsertFacts.
Import Db.

Lemma saveDecision_healthy d w :
  healthy w ->
  exists w',
    saveDecision d w = (Ok tt, w')
    /\ decisions w' = upsert d (decisions w)
    /\ sessions w' = sessions w /\ handles w' = handles w
    /\ faults w' = faults w.
Proof.
  intros H. unfold saveDecision, try_catch.
  erewrite DbFacts.bind_ok by (by apply DbFacts.getFirstListItem_healthy).
  unfold upsert. change (decisions (tick w)) with (decisions w).
  destruct (List.find _ (decisions w)) as [r0|] eqn:Hfind.
  - rewrite DbFacts.update_healthy.
    + eexists. split; [reflexivity|]. by repeat split.
    + by eapply DbFacts.healthy_faults; [|exact H].
    + apply find_some in Hfind as [Hin _]. apply existsb_exists.
      exists r0. split; [done|apply Nat.eqb_refl].
  - unfold decisions_create, bind, gets, modify, ret, request. simpl.
    rewrite H. simpl. eexists. split; [reflexivity|]. by repeat split.
Qed.

Lemma fresh_id_above ids i : In i ids -> (i < fresh_id ids)%nat.
Proof.
  unfold fresh_id. induction ids as [|a ids IH]; simpl; [done|].
  intros [->|Hin]; [lia|]. specialize (IH Hin). lia.
Qed.

Lemma found_key d l r0 :
  List.find (decision_at (ImageDecision.directoryName d)
                         (ImageDecision.relativePath d)) l = Some r0 ->
  In r0 l
  /\ record_key r0 = (ImageDecision.directoryName d, ImageDecision.relativePath d).
Proof.
  intros Hf. apply find_some in Hf as [Hin Hat]. split; [done|].
  unfold decision_at in Hat. apply andb_true_iff in Hat as [Hd Hp].
  apply String.eqb_eq in Hd, Hp. unfold record_key. by rewrite Hd, Hp.
Qed.

Lemma not_found_key d l :
  List.find (decision_at (ImageDecision.directoryName d)
                         (ImageDecision.relativePath d)) l = None ->
  ~ In (ImageDecision.directoryName d, ImageDecision.relativePath d)
       (List.map record_key l).
Proof.
  intros Hf Hin. apply in_map_iff in Hin as (r & Hk & Hr).
  pose proof (find_none _ _ Hf r Hr) as Hno. unfold decision_at in Hno.
  unfold record_key in Hk. injection Hk as Hd Hp.
  by rewrite Hd, Hp, !String.eqb_refl in Hno.
Qed.

Lemma same_key_same_record (l : list DecisionRecord.t) x y :
  NoDup (List.map record_key l) -> In x l -> In y l ->
  record_key x = record_key y -> x = y.
Proof.
  induction l as [|a l IH]; simpl; [done|].
  intros Hnd Hx Hy E. apply NoDup_cons in Hnd as [Hna Hnd].
  destruct Hx as [->|Hx], Hy as [->|Hy]; [done| | |by apply IH].
  - exfalso. apply Hna. rewrite E. apply list_elem_of_In. by apply in_map.
  - exfalso. apply Hna. rewrite <- E. apply list_elem_of_In. by apply in_map.
Qed.

(** The in-place update of [upsert] keeps every id and every key. *)
Lemma update_keeps_id_and_key d l r0 r :
  NoDup (List.map DecisionRecord.id l) ->
  record_key r0 = (ImageDecision.directoryName d, ImageDecision.relativePath d) ->
  In r0 l -> In r l ->
  DecisionRecord.id (if Nat.eqb (DecisionRecord.id r) (DecisionRecord.id r0)
                     then DecisionRecord.with_data d r else r) = DecisionRecord.id r
  /\ record_key (if Nat.eqb (DecisionRecord.id r) (DecisionRecord.id r0)
                 then DecisionRecord.with_data d r else r) = record_key r.
Proof.
  intros Hnd Hk Hr0 Hr.
  destruct (Nat.eqb_spec (DecisionRecord.id r) (DecisionRecord.id r0)) as [E|Hne];
    [|done].
  assert (r = r0) as -> by (by eapply DbFacts.same_id_same_record).
  split; [done|]. by rewrite Hk.
Qed.

(** [saveDecision] keeps the invariant of the decision collection. *)
Lemma upsert_well_keyed d l : well_keyed l -> well_keyed (upsert d l).
Proof.
  intros [Hids Hkeys]. unfold upsert.
  destruct (List.find _ l) as [r0|] eqn:Hfind.
  - destruct (found_key _ _ _ Hfind) as [Hr0 Hk]. split.
    + rewrite List.map_map.
      erewrite List.map_ext_in; [exact Hids|].
      intros r Hr. by apply (update_keeps_id_and_key d l r0 r).
    + rewrite List.map_map.
      erewrite List.map_ext_in; [exact Hkeys|].
      intros r Hr. by apply (update_keeps_id_and_key d l r0 r).
  - split; rewrite List.map_app; simpl; apply NoDup_app.
    + split; [done|]. split; [|apply NoDup_singleton].
      intros i Hi Hnew. apply list_elem_of_singleton in Hnew as ->.
      apply list_elem_of_In, fresh_id_above in Hi. lia.
    + split; [done|]. split; [|apply NoDup_singleton].
      intros k Hk Hnew. apply list_elem_of_singleton in Hnew as ->.
      apply list_elem_of_In in Hk. by apply (not_found_key d l).
Qed.

(** After [saveDecision(d)] some record carries [d]'s key and decision. *)
Lemma upsert_written d l :
  exists r, In r (upsert d l)
    /\ record_key r = (ImageDecision.directoryName d, ImageDecision.relativePath d)
    /\ DecisionRecord.decision r = ImageDecision.decision d.
Proof.
  unfold upsert. destruct (List.find _ l) as [r0|] eqn:Hfind.
  - destruct (found_key _ _ _ Hfind) as [Hr0 Hk].
    exists (DecisionRecord.with_data d r0). split; [|done].
    apply in_map_iff. exists r0. by rewrite Nat.eqb_refl.
  - eexists. split; [apply in_or_app; right; by left|done].
Qed.

(** Records of other keys are left as they are. *)
Lemma upsert_others d l r :
  NoDup (List.map DecisionRecord.id l) -> In r l ->
  record_key r <> (ImageDecision.directoryName d, ImageDecision.relativePath d) ->
  In r (upsert d l).
Proof.
  intros Hids Hr Hne. unfold upsert.
  destruct (List.find _ l) as [r0|] eqn:Hfind.
  - destruct (found_key _ _ _ Hfind) as [Hr0 Hk].
    apply in_map_iff. exists r. split; [|done].
    destruct (Nat.eqb_spec (DecisionRecord.id r) (DecisionRecord.id r0)) as [E|_];
      [|done].
    assert (r = r0) as -> by (by eapply DbFacts.same_id_same_record). congruence.
  - apply in_or_app. by left.
Qed.

Lemma foldl_put_other rs : forall m p,
  ~ In p (List.map DecisionRecord.relativePath rs) ->
  foldl put_decision m rs !! p = m !! p.
Proof.
  induction rs as [|a rs IH]; intros m p Hp; simpl; [done|].
  rewrite IH by (intros Hin; apply Hp; by right).
  unfold put_decision. apply lookup_insert_ne. intros E. apply Hp. by left.
Qed.

Lemma foldl_put_lookup rs : forall m r,
  NoDup (List.map DecisionRecord.relativePath rs) -> In r rs ->
  foldl put_decision m rs !! DecisionRecord.relativePath r
  = Some (DecisionRecord.decision r).
Proof.
  induction rs as [|a rs IH]; intros m r Hnd Hr; simpl in *; [done|].
  apply NoDup_cons in Hnd as [Hna Hnd]. destruct Hr as [->|Hr].
  - rewrite foldl_put_other by (by rewrite <- list_elem_of_In).
    unfold put_decision. apply lookup_insert_eq.
  - by apply IH.
Qed.

(** With one record per key, the lookup answers with that record. *)
Lemma persisted_unique l r :
  NoDup (List.map record_key l) -> In r l ->
  persisted (DecisionRecord.directoryName r) (DecisionRecord.relativePath r) l
  = Some (DecisionRecord.decision r).
Proof.
  intros Hkeys Hr. unfold persisted, decision_map.
  change (foldl _ ∅ ?rs) with (foldl put_decision ∅ rs).
  apply foldl_put_lookup.
  - clear Hr. induction l as [|a l IH]; simpl; [constructor|].
    simpl in Hkeys. apply NoDup_cons in Hkeys as [Hna Hkeys].
    destruct (decision_in (DecisionRecord.directoryName r) a) eqn:Hin;
      [|by apply IH].
    simpl. apply NoDup_cons. split; [|by apply IH].
    intros Hp. apply Hna. apply list_elem_of_In.
    apply list_elem_of_In, in_map_iff in Hp as (x & Hx & Hxin).
    apply filter_In in Hxin as [Hxin Hxdir]. apply in_map_iff. exists x.
    split; [|done]. unfold decision_in in *.
    apply String.eqb_eq in Hin, Hxdir. unfold record_key. by rewrite Hx, Hin, Hxdir.
  - apply filter_In. split; [done|]. unfold decision_in. apply String.eqb_refl.
Qed.

(** A pending record stays pending through a write of [pending]. *)
Lemma upsert_keeps_pending d l r :
  well_keyed l -> ImageDecision.decision d = Pending ->
  In r l -> DecisionRecord.decision r = Pending ->
  exists r', In r' (upsert d l)
    /\ record_key r' = record_key r /\ DecisionRecord.decision r' = Pending.
Proof.
  intros [Hids _] Hd Hr Hp.
  destruct (decide (record_key r
                    = (ImageDecision.directoryName d, ImageDecision.relativePath d)))
    as [E|Hne].
  - destruct (upsert_written d l) as (r' & Hin & Hk & Hdec).
    exists r'. by rewrite Hk, Hdec, E.
  - exists r. split; [by apply upsert_others|done].
Qed.

(** A run of writes of [pending]: afterwards the collection still has one
    record per key, and each written key holds [pending]. *)
Lemma pending_writes ds : forall l,
  well_keyed l ->
  (forall d, In d ds -> ImageDecision.decision d = Pending) ->
  well_keyed (foldl (fun l d => upsert d l) l ds)
  /\ (forall r, In r l -> DecisionRecord.decision r = Pending ->
        exists r', In r' (foldl (fun l d => upsert d l) l ds)
          /\ record_key r' = record_key r /\ DecisionRecord.decision r' = Pending)
  /\ (forall d, In d ds ->
        exists r', In r' (foldl (fun l d => upsert d l) l ds)
          /\ record_key r'
             = (ImageDecision.directoryName d, ImageDecision.relativePath d)
          /\ DecisionRecord.decision r' = Pending).
Proof.
  induction ds as [|d ds IH]; intros l Hwk Hall; simpl.
  - split; [done|]. split; [eauto|]. intros d [].
  - destruct (IH (upsert d l)) as (Hwk' & Hold & Hnew).
    { by apply upsert_well_keyed. }
    { intros d' Hd'. apply Hall. by right. }
    split; [done|]. split.
    + intros r Hr Hp.
      destruct (upsert_keeps_pending d l r Hwk (Hall d (or_introl eq_refl)) Hr Hp)
        as (r1 & Hin1 & Hk1 & Hp1).
      destruct (Hold r1 Hin1 Hp1) as (r' & Hin' & Hk' & Hp').
      exists r'. by rewrite Hk', Hk1.
    + intros d' [<-|Hd'].
      * destruct (upsert_written d l) as (r1 & Hin1 & Hk1 & Hdec1).
        rewrite (Hall d (or_introl eq_refl)) in Hdec1.
        destruct (Hold r1 Hin1 Hdec1) as (r' & Hin' & Hk' & Hp').
        exists r'. by rewrite Hk', Hk1.
      * by apply Hnew.
Qed.

(** The resets issued by the bulk deletion, carried out on a backend that
    answers. *)
Lemma perform_resets dir imgs : forall w,
  healthy w ->
  exists w',
    perform_all (List.map (reset_call dir) imgs) w = (Ok tt, w')
    /\ decisions w'
       = foldl (fun l d => upsert d l) (decisions w)
               (List.map (fun img => ImageDecision.mk dir (ImageItem.relativePath img)
                                                      Pending) imgs)
    /\ faults w' = faults w.
Proof.
  induction imgs as [|img imgs IH]; intros w H; simpl.
  - exists w. by repeat split.
  - destruct (saveDecision_healthy
                (ImageDecision.mk dir (ImageItem.relativePath img) Pending) w H)
      as (w1 & E1 & Hd1 & _ & _ & Hf1).
    erewrite DbFacts.bind_ok by exact E1.
    destruct (IH w1) as (w' & E & Hd & Hf);
      [by eapply DbFacts.healthy_faults; [|exact H]|].
    exists w'. split; [exact E|]. split; [by rewrite Hd, Hd1|by rewrite Hf, Hf1].
Qed.

(** Carried out on a backend that answers and keeps one record per key,
    the resets leave [pending] as the persisted decision of every path they
    name. *)
Lemma resets_persist_pending dir imgs w :
  healthy w -> well_keyed (decisions w) ->
  exists w',
    perform_all (List.map (reset_call dir) imgs) w = (Ok tt, w')
    /\ healthy w'
    /\ forall img, In img imgs ->
         persisted dir (ImageItem.relativePath img) (decisions w') = Some Pending.
Proof.
  intros H Hwk. destruct (perform_resets dir imgs w H) as (w' & E & Hd & Hf).
  exists w'. split; [exact E|]. split; [by eapply DbFacts.healthy_faults; [|exact H]|].
  intros img Himg.
  destruct (pending_writes
              (List.map (fun img => ImageDecision.mk dir (ImageItem.relativePath img)
                                                     Pending) imgs)
              (decisions w) Hwk) as (Hwk' & _ & Hnew).
  { intros d Hd'. apply in_map_iff in Hd' as (x & <- & _). reflexivity. }
  destruct (Hnew (ImageDecision.mk dir (ImageItem.relativePath img) Pending))
    as (r' & Hin & Hk & Hp); [apply in_map_iff; eauto|].
  rewrite <- Hd in Hin, Hwk'. destruct Hwk' as [_ Hkeys].
  pose proof (persisted_unique _ _ Hkeys Hin) as Hper.
  unfold record_key in Hk. simpl in Hk. injection Hk as Hdir Hpath.
  by rewrite Hdir, Hpath, Hp in Hper.
Qed.
End UpsertFacts.

(** ** Loading a directory *)

Module LoadFacts.
Import AppState.

(** The cursor and the view chosen at lines 924-926. *)
Lemma start_position (foundImages : list ImageItem.t) :
  let first := Js.findIndex (fun img _ => ImageItem.is_pending img) foundImages in
  let startIndex := if first =? -1 then 0 else first in
  let allDone := (first =? -1) && (Js.len foundImages >? 0) in
  (pending_at foundImages startIndex
   /\ (forall j, j < startIndex -> ~ pending_at foundImages j)
   /\ allDone = false)
  \/ ((forall j, ~ pending_at foundImages j)
      /\ startIndex = 0
      /\ allDone = (Js.len foundImages >? 0)).
Proof.
  set (p := fun (img : ImageItem.t) (_ : Z) => ImageItem.is_pending img).
  destruct (JsFacts.findIndex_spec p foundImages)
    as [[Hr Hnone]|(x & Hge & Hx & Hpx & Hfirst)]; fold p; simpl.
  - right. rewrite Hr. simpl. split; [|done].
    intros j. apply DecisionFacts.not_pending_at. intros img Hget.
    exact (Hnone _ _ Hget).
  - left. destruct (Z.eqb_spec (Js.findIndex p foundImages) (-1)) as [E|_]; [lia|].
    simpl. split; [by eapply DecisionFacts.pending_at_is_pending|]. split; [|done].
    intros j Hj. apply DecisionFacts.not_pending_at. intros img Hget.
    exact (Hfirst _ _ Hget Hj).
Qed.

(** C6: when a directory is loaded (the backend answering), the catalog is
    the scan merged with the persisted decisions of that directory name,
    the history is empty, and the cursor is the index of the first entry
    whose merged decision is pending, with the view on culling; when no
    entry is pending the cursor is 0 and the view is summary if the
    catalog is non-empty, culling if it is empty. *)
Theorem loadFolder_starts_at_first_pending
    scannedImages defaultName handle overrideName s w :
  Db.healthy w ->
  exists s' w',
    App.loadFolder (Some (scannedImages, defaultName)) handle overrideName s w
      = (s', w')
    /\ images s'
       = List.map
           (App.merge_decision
              (Db.decision_map
                 (List.filter (Db.decision_in (Js.or_else overrideName defaultName))
                              (Db.decisions w))))
           scannedImages
    /\ history s' = []
    /\ rootFolderName s' = Js.or_else overrideName defaultName
    /\ ((pending_at (images s') (currentIndex s')
         /\ (forall j, j < currentIndex s' -> ~ pending_at (images s') j)
         /\ view s' = Culling)
        \/ ((forall j, ~ pending_at (images s') j)
            /\ currentIndex s' = 0
            /\ view s' = if Js.len (images s') >? 0 then Summary else Culling)).
Proof.
  intros H. unfold App.loadFolder.
  rewrite (DbFacts.getDecisionsForDirectory_healthy _ w H).
  destruct (DbFacts.storeHandleLocally_healthy
              (Js.or_else overrideName defaultName) handle (Db.tick w))
    as (w2 & E & _); [by eapply DbFacts.healthy_faults; [|exact H]|].
  rewrite E. eexists _, _. split; [reflexivity|]. simpl.
  split; [done|]. split; [done|]. split; [done|].
  match goal with |- context [Js.findIndex _ ?l] =>
    destruct (start_position l) as [(Hp & Hfirst & ->)|(Hnone & Hz & ->)] end.
  - left. by repeat split.
  - right. by repeat split.
Qed.

Lemma loadFolder_starts_at_first_pending_witness :
  exists s' w',
    App.loadFolder (Some (Sample.skip_catalog, "shoot")) 7%nat None
                   (Sample.host []) SampleDb.up = (s', w')
    /\ List.map ImageItem.decision (images s') = [Keep; Delete; Pending; Keep]
    /\ currentIndex s' = 2.
Proof.
  destruct (loadFolder_starts_at_first_pending Sample.skip_catalog "shoot" 7%nat None
              (Sample.host []) SampleDb.up) as (s' & w' & E & Himg & _);
    [intros n; reflexivity|].
  exists s', w'. split; [exact E|].
  vm_compute in E. injection E as <- _. split; reflexivity.
Defined.

(** A catalog with nothing left to decide opens on the summary. *)
Example loadFolder_all_decided :
  view (fst (App.loadFolder (Some ([Sample.img "a" Pending], "shoot")) 7%nat None
                            (Sample.host []) SampleDb.up)) = Summary.
Proof. vm_compute. reflexivity. Qed.
End LoadFacts.

(** ** Bulk deletion *)

Module CleanupFacts.
Import AppState.

Lemma filter_all {A} (f : A -> bool) l :
  (forall x, In x l -> f x = true) -> List.filter f l = l.
Proof.
  induction l as [|a l IH]; intros H; simpl; [done|].
  rewrite (H a) by (by left). f_equal. apply IH. intros x Hx. apply H. by right.
Qed.

Lemma filter_filter {A} (f g : A -> bool) l :
  List.filter f (List.filter g l) = List.filter (fun x => g x && f x) l.
Proof.
  induction l as [|a l IH]; simpl; [done|].
  destruct (g a); simpl; [destruct (f a)|]; by rewrite IH.
Qed.

Lemma NoDup_ids_filter (f : ImageItem.t -> bool) l :
  NoDup (List.map ImageItem.id l) ->
  NoDup (List.map ImageItem.id (List.filter f l)).
Proof.
  induction l as [|a l IH]; simpl; intros Hnd; [done|].
  inversion Hnd as [|? ? Hna Hnd']; subst.
  destruct (f a); simpl; [|by apply IH].
  constructor; [|by apply IH].
  intros Hin. apply Hna. apply list_elem_of_In.
  apply list_elem_of_In, in_map_iff in Hin as (x & Hx & Hin).
  apply filter_In in Hin as [Hin _]. apply in_map_iff. eauto.
Qed.

Lemma same_id_same_image (l : list ImageItem.t) x y :
  NoDup (List.map ImageItem.id l) -> In x l -> In y l ->
  ImageItem.id x = ImageItem.id y -> x = y.
Proof.
  induction l as [|a l IH]; simpl; [done|].
  intros Hnd Hx Hy E. inversion Hnd as [|? ? Hna Hnd']; subst.
  destruct Hx as [->|Hx], Hy as [->|Hy]; [done| | |by apply IH].
  - exfalso. apply Hna. rewrite E. apply list_elem_of_In. by apply in_map.
  - exfalso. apply Hna. rewrite <- E. apply list_elem_of_In. by apply in_map.
Qed.

Lemma lookup_In {A} (l : list A) (j : nat) x : l !! j = Some x -> In x l.
Proof. intros H. apply list_elem_of_In. by eapply list_elem_of_lookup_2. Qed.

(** With distinct ids, lines 1019-1020 drop every record of that id. *)
Lemma remove_by_id_filter i l :
  NoDup (List.map ImageItem.id l) ->
  App.remove_by_id i l
  = List.filter (fun x => negb (String.eqb (ImageItem.id x) i)) l.
Proof.
  intros Hnd. unfold App.remove_by_id, Js.findIndex.
  set (p := fun (x : ImageItem.t) (_ : Z) => String.eqb (ImageItem.id x) i).
  destruct (JsFacts.findIndex_from_spec p l 0 ltac:(lia))
    as [[-> Hnone]|(n & x & -> & Hx & Hpx & Hbefore)].
  - simpl. symmetry. apply filter_all. intros y Hy.
    apply list_elem_of_In, list_elem_of_lookup in Hy as [j Hj].
    specialize (Hnone _ _ Hj). unfold p in Hnone. by rewrite Hnone.
  - destruct (Z.eqb_spec (0 + Z.of_nat n) (-1)) as [E|_]; [lia|].
    unfold Js.splice1. rewrite Z.add_0_l, Nat2Z.id.
    rewrite delete_take_drop.
    rewrite <- (take_drop_middle l n x Hx) at 3.
    rewrite List.filter_app. simpl. unfold p in Hpx. rewrite Hpx. simpl.
    rewrite <- (take_drop_middle l n x Hx) in Hnd.
    rewrite List.map_app in Hnd. simpl in Hnd.
    apply NoDup_ListNoDup, List.NoDup_remove_2 in Hnd.
    rewrite !filter_all; [done| |].
    + intros y Hy. apply negb_true_iff, String.eqb_neq. intros E.
      apply Hnd, in_or_app. right. apply String.eqb_eq in Hpx.
      rewrite Hpx, <- E. by apply in_map.
    + intros y Hy. apply list_elem_of_In, list_elem_of_lookup in Hy as [j Hj].
      pose proof (lookup_lt_Some _ _ _ Hj) as Hlt. rewrite length_take in Hlt.
      rewrite lookup_take_lt in Hj by lia.
      specialize (Hbefore _ _ Hj ltac:(lia)). unfold p in Hbefore. by rewrite Hbefore.
Qed.

(** The loop of lines 1016-1028 over any work list: the records whose id
    matches a removed file are gone, every attempt is counted, and every
    removal is followed by a reset of the persisted decision. *)
Lemma deletion_loop_spec fileRemoved dir ds :
  forall l c calls,
    NoDup (List.map ImageItem.id l) ->
    App.deletion_loop fileRemoved dir ds (l, c, calls)
    = (List.filter
         (fun x => negb (existsb (fun d => String.eqb (ImageItem.id x) (ImageItem.id d)
                                           && fileRemoved (ImageItem.handle d)) ds)) l,
       c + Js.len ds,
       calls ++ List.map (reset_call dir)
                  (List.filter (fun d => fileRemoved (ImageItem.handle d)) ds)).
Proof.
  induction ds as [|d ds IH]; intros l c calls Hnd.
  - simpl. rewrite filter_all by done. unfold Js.len. simpl.
    by rewrite Z.add_0_r, app_nil_r.
  - cbn [App.deletion_loop]. destruct (fileRemoved (ImageItem.handle d)) eqn:Hrm.
    + rewrite remove_by_id_filter by done.
      rewrite IH by (by apply NoDup_ids_filter).
      rewrite filter_filter. f_equal; [f_equal|].
      * apply List.filter_ext. intros x. simpl. rewrite Hrm, andb_true_r.
        by destruct (String.eqb _ _).
      * unfold Js.len. simpl length. lia.
      * simpl. rewrite Hrm. simpl. by rewrite <- app_assoc.
    + rewrite IH by done. f_equal; [f_equal|].
      * apply List.filter_ext. intros x. simpl. by rewrite Hrm, andb_false_r.
      * unfold Js.len. simpl length. lia.
      * simpl. by rewrite Hrm.
Qed.

(** With distinct ids, a record matches a removed file of the work list
    exactly when it is itself flagged and removed. *)
Lemma matches_removed fileRemoved l x :
  NoDup (List.map ImageItem.id l) -> In x l ->
  existsb (fun d => String.eqb (ImageItem.id x) (ImageItem.id d)
                    && fileRemoved (ImageItem.handle d))
          (List.filter App.is_delete l)
  = removed fileRemoved x.
Proof.
  intros Hnd Hx. unfold removed.
  destruct (App.is_delete x && fileRemoved (ImageItem.handle x)) eqn:Hrm.
  - apply andb_true_iff in Hrm as [Hd Hf]. apply existsb_exists. exists x.
    split; [apply filter_In; by split|]. by rewrite String.eqb_refl, Hf.
  - apply not_true_is_false. intros Hex.
    apply existsb_exists in Hex as (d & Hd & Hm).
    apply filter_In in Hd as [Hd Hdel]. apply andb_true_iff in Hm as [Hid Hf].
    apply String.eqb_eq in Hid.
    assert (x = d) as -> by (by eapply same_id_same_image).
    by rewrite Hdel, Hf in Hrm.
Qed.

Lemma get_In (l : list ImageItem.t) i x : Js.get l i = Some x -> In x l.
Proof.
  unfold Js.get. destruct (i <? 0); [discriminate|]. apply lookup_In.
Qed.

Lemma In_get (l : list ImageItem.t) x : In x l -> exists i, Js.get l i = Some x.
Proof.
  intros H. apply list_elem_of_In, list_elem_of_lookup in H as [j Hj].
  exists (Z.of_nat j). by rewrite JsFacts.get_of_nat.
Qed.

(** The viewed record survived: the new cursor points at it. *)
Lemma recompute_kept l (keep : ImageItem.t -> bool) cur :
  NoDup (List.map ImageItem.id l) -> In cur l ->
  ImageItem.id cur <> EmptyString -> keep cur = true ->
  Js.get (List.filter keep l)
         (App.recomputeIndex (Some (ImageItem.id cur)) (List.filter keep l))
  = Some cur.
Proof.
  intros Hnd Hin Hid Hkeep. unfold App.recomputeIndex.
  apply String.eqb_neq in Hid. rewrite Hid.
  set (p := fun (i : ImageItem.t) (_ : Z) => String.eqb (ImageItem.id i) (ImageItem.id cur)).
  destruct (JsFacts.findIndex_spec p (List.filter keep l))
    as [[Hr Hnone]|(x & Hge & Hx & Hpx & _)].
  - exfalso. destruct (In_get (List.filter keep l) cur) as [i Hi];
      [apply filter_In; by split|].
    specialize (Hnone _ _ Hi). unfold p in Hnone. by rewrite String.eqb_refl in Hnone.
  - destruct (Z.eqb_spec (Js.findIndex p (List.filter keep l)) (-1)) as [E|_]; [lia|].
    rewrite Hx. f_equal. unfold p in Hpx. apply String.eqb_eq in Hpx.
    apply get_In, filter_In in Hx as [Hx _]. by eapply same_id_same_image.
Qed.

(** The viewed record is gone: the cursor falls back to the first pending
    record, or to 0. *)
Lemma recompute_gone l (keep : ImageItem.t -> bool) cur :
  NoDup (List.map ImageItem.id l) -> In cur l ->
  ImageItem.id cur <> EmptyString -> keep cur = false ->
  let c := App.recomputeIndex (Some (ImageItem.id cur)) (List.filter keep l) in
  (pending_at (List.filter keep l) c
   /\ forall j, j < c -> ~ pending_at (List.filter keep l) j)
  \/ ((forall j, ~ pending_at (List.filter keep l) j) /\ c = 0).
Proof.
  intros Hnd Hin Hid Hkeep. unfold App.recomputeIndex.
  apply String.eqb_neq in Hid. rewrite Hid.
  set (p := fun (i : ImageItem.t) (_ : Z) => String.eqb (ImageItem.id i) (ImageItem.id cur)).
  destruct (JsFacts.findIndex_spec p (List.filter keep l))
    as [[-> _]|(x & _ & Hx & Hpx & _)].
  - simpl. destruct (LoadFacts.start_position (List.filter keep l))
      as [(Hp & Hfirst & _)|(Hnone & Hz & _)]; [by left|by right].
  - exfalso. unfold p in Hpx. apply String.eqb_eq in Hpx.
    apply get_In, filter_In in Hx as [Hx Hk].
    assert (x = cur) as -> by (by eapply same_id_same_image). congruence.
Qed.

(** C5: after a bulk deletion (write permission granted, record ids
    distinct) the catalog is the old one without the records that were
    flagged [delete] and whose file was removed; for each of them, in
    order, the gateway is asked to reset its persisted decision to
    [pending], and on a backend that answers and holds one record per
    [(directoryName, relativePath)] the lookup afterwards gives [pending]
    for each of their paths; the history is empty; and the cursor points at
    the record that was being viewed when that record survived, falls back
    to the first remaining pending record when it was removed, or to 0 when
    none is pending, and is 0 when no record was being viewed. *)
Theorem bulk_deletion_reindexes fileRemoved s h w :
  rootHandle s = Some h ->
  NoDup (List.map ImageItem.id (images s)) ->
  exists s' calls,
    App.executeLiveDeletion true fileRemoved s = (s', calls)
    /\ images s'
       = List.filter (fun img => negb (removed fileRemoved img)) (images s)
    /\ calls
       = List.map (reset_call (rootFolderName s))
                  (List.filter (removed fileRemoved) (images s))
    /\ (Db.healthy w -> well_keyed (Db.decisions w) ->
        exists w' m w'',
          Db.perform_all calls w = (Db.Ok tt, w')
          /\ Db.getDecisionsForDirectory (rootFolderName s) w' = (Db.Ok m, w'')
          /\ forall img, In img (images s) -> removed fileRemoved img = true ->
               m !! ImageItem.relativePath img = Some Pending)
    /\ history s' = []
    /\ (forall cur,
          Js.get (images s) (currentIndex s) = Some cur ->
          ImageItem.id cur <> EmptyString ->
          (removed fileRemoved cur = false ->
             Js.get (images s') (currentIndex s') = Some cur)
          /\ (removed fileRemoved cur = true ->
                (pending_at (images s') (currentIndex s')
                 /\ forall j, j < currentIndex s' -> ~ pending_at (images s') j)
                \/ ((forall j, ~ pending_at (images s') j)
                    /\ currentIndex s' = 0)))
    /\ (Js.get (images s) (currentIndex s) = None -> currentIndex s' = 0)
    /\ deleteProgress s'
       = (Js.len (List.filter App.is_delete (images s)),
          Js.len (List.filter App.is_delete (images s))).
Proof.
  intros Hroot Hnd. unfold App.executeLiveDeletion. rewrite Hroot. simpl negb.
  cbv iota. rewrite deletion_loop_spec by done.
  assert (Himg :
    List.filter
      (fun x => negb (existsb (fun d => String.eqb (ImageItem.id x) (ImageItem.id d)
                                        && fileRemoved (ImageItem.handle d))
                              (List.filter App.is_delete (images s)))) (images s)
    = List.filter (fun img => negb (removed fileRemoved img)) (images s)).
  { apply List.filter_ext_in. intros x Hx. by rewrite matches_removed. }
  rewrite Himg. eexists _, _. split; [reflexivity|]. simpl.
  split; [done|].
  assert (Hcalls :
    List.map (reset_call (rootFolderName s))
      (List.filter (fun d => fileRemoved (ImageItem.handle d))
                   (List.filter App.is_delete (images s)))
    = List.map (reset_call (rootFolderName s))
               (List.filter (removed fileRemoved) (images s))).
  { rewrite filter_filter. reflexivity. }
  rewrite Hcalls. split; [done|]. split.
  { intros Hw Hwk.
    destruct (UpsertFacts.resets_persist_pending (rootFolderName s)
                (List.filter (removed fileRemoved) (images s)) w Hw Hwk)
      as (w' & E & Hw' & Hper).
    exists w'. rewrite (DbFacts.getDecisionsForDirectory_healthy _ w' Hw').
    eexists _, _. split; [exact E|]. split; [reflexivity|].
    intros img Hin Hrm. apply Hper. apply filter_In. by split. }
  split; [done|]. split; [|split; [by intros ->|by rewrite Z.add_0_l]].
  intros cur Hcur Hid. rewrite Hcur. simpl. split; intros Hrm.
  - apply recompute_kept; [done|by eapply get_In|done|by rewrite Hrm].
  - apply recompute_gone; [done|by eapply get_In|done|by rewrite Hrm].
Qed.

Lemma bulk_deletion_reindexes_witness :
  exists s' calls,
    App.executeLiveDeletion true SampleCleanup.all_files SampleCleanup.host = (s', calls)
    /\ images s' = [Sample.img "B" Keep; Sample.img "D" Pending]
    /\ Js.get (images s') (currentIndex s') = Some (Sample.img "B" Keep)
    /\ history s' = []
    /\ exists w' m w'',
         Db.perform_all calls SampleDb.up = (Db.Ok tt, w')
         /\ Db.getDecisionsForDirectory "shoot" w' = (Db.Ok m, w'')
         /\ m !! "shoot/A.jpg" = Some Pending.
Proof.
  destruct (bulk_deletion_reindexes SampleCleanup.all_files SampleCleanup.host 7%nat
              SampleDb.up)
    as (s' & calls & E & Himg & _ & Hdb & Hhist & Hcur & _).
  - reflexivity.
  - apply (bool_decide_unpack _). vm_compute. reflexivity.
  - exists s', calls. split; [exact E|]. split; [by rewrite Himg|].
    split; [apply (Hcur (Sample.img "B" Keep)); [reflexivity|discriminate|reflexivity]|].
    split; [exact Hhist|].
    destruct Hdb as (w' & m & w'' & Hrun & Hget & Hm).
    + intros n. reflexivity.
    + split; apply (bool_decide_unpack _); vm_compute; reflexivity.
    + exists w', m, w''. split; [exact Hrun|]. split; [exact Hget|].
      apply (Hm (Sample.img "A" Delete)); [by left|reflexivity].
Defined.

(** Without the write permission nothing is attempted. *)
Lemma bulk_deletion_denied fileRemoved s h :
  rootHandle s = Some h ->
  App.executeLiveDeletion false fileRemoved s
  = (s, [Alert "Permission denied. Deletion cannot proceed."]).
Proof. intros H. unfold App.executeLiveDeletion. by rewrite H. Qed.
End CleanupFacts.

(** ** The prefetcher *)

Module PrefetchFacts.
Import AppState.

Lemma sendImage_indices readDataUrl s i :
  App.image_data_indices (App.sendImage readDataUrl s i)
  = if sendable readDataUrl s i then [i] else [].
Proof.
  unfold App.sendImage, sendable.
  destruct ((i >=? 0) && (i <? Js.len (images s))
            && negb (bool_decide (is_Some (remoteImageCache s !! i)))); simpl; [|done].
  destruct (Js.get (images s) i) as [img|]; [|done].
  by destruct (readDataUrl (ImageItem.handle img)).
Qed.

Lemma image_data_indices_app e1 e2 :
  App.image_data_indices (e1 ++ e2)
  = App.image_data_indices e1 ++ App.image_data_indices e2.
Proof. unfold App.image_data_indices. apply omap_app. Qed.

(** One run of the effect on a connected host with a catalog: the catalog
    snapshot, then the image of the cursor and of the next two indices,
    each of them if it lies in the catalog, is not in the cache and can be
    read. *)
Lemma prefetch_sends_current_and_two readDataUrl s :
  isRemote s = false -> connection s = true -> Js.len (images s) > 0 ->
  App.image_data_indices (App.prefetch_effect readDataUrl s)
  = List.filter (sendable readDataUrl s)
                [currentIndex s; currentIndex s + 1; currentIndex s + 2].
Proof.
  intros Hhost Hconn Hlen. unfold App.prefetch_effect.
  rewrite Hhost, Hconn. simpl negb. simpl andb.
  destruct (Z.gtb_spec (Js.len (images s)) 0) as [_|]; [|lia].
  change (App.image_data_indices (Send (INIT_SYNC ?a ?b ?c ?d ?e) :: ?l))
    with (App.image_data_indices l).
  rewrite !image_data_indices_app, !sendImage_indices. simpl.
  by repeat destruct (sendable _ _ _).
Qed.

(** Sending never records anything: the effect only reads the state, and
    a decision on the host leaves the cache as it was. *)
Lemma decision_keeps_cache now d idx s s' eff :
  App.makeDecision now d idx s = Some (s', eff) ->
  remoteImageCache (App.commit s') = remoteImageCache s.
Proof.
  unfold App.makeDecision.
  destruct (_ >=? _); [intros [= <- _]|].
  - unfold App.commit, App.completion_effect. by destruct (_ && _).
  - destruct (negb (isRemote s)).
    + destruct (_ <? 0); [discriminate|].
      match goal with
      | |- context [App.performSave ?a ?b ?c ?e ?f] =>
        pose proof (DecisionFacts.performSave_state a b c e f) as Hps;
        destruct (App.performSave a b c e f) as [s2 saves]
      end.
      intros [= <- _]. unfold App.commit, App.completion_effect.
      simpl in Hps. destruct Hps as [-> | ->]; by destruct (_ && _).
    + destruct (connection s); intros [= <- _];
        unfold App.commit, App.completion_effect; by destruct (_ && _).
Qed.

(** C7 breaks on the code: a connected host with four undecided, readable
    records and an empty cache sends the images of indices 0, 1 and 2;
    after the first record is kept the cursor is on 1, the effect runs
    again, the cache is still empty, and the images of indices 1, 2 and 3
    are sent: the payload of index 1 (and of index 2) goes out twice. *)
Theorem prefetch_resends_same_index :
  exists s1 eff,
    App.image_data_indices
      (App.prefetch_effect SampleCleanup.readable (Sample.host Sample.fresh_catalog))
      = [0; 1; 2]
    /\ App.makeDecision 5 Keep None (Sample.host Sample.fresh_catalog) = Some (s1, eff)
    /\ currentIndex (App.commit s1) = 1
    /\ App.prefetch_fires (Sample.host Sample.fresh_catalog) (App.commit s1) = true
    /\ remoteImageCache (App.commit s1) = ∅
    /\ App.image_data_indices
         (App.prefetch_effect SampleCleanup.readable (App.commit s1))
       = [1; 2; 3]
    /\ In (Send (IMAGE_DATA 1 "b" "b.jpg" "data:image/jpeg;base64,/9j/4AAQ"))
          (App.prefetch_effect SampleCleanup.readable (Sample.host Sample.fresh_catalog))
    /\ In (Send (IMAGE_DATA 1 "b" "b.jpg" "data:image/jpeg;base64,/9j/4AAQ"))
          (App.prefetch_effect SampleCleanup.readable (App.commit s1)).
Proof.
  eexists _, _. split; [vm_compute; reflexivity|].
  split; [vm_compute; reflexivity|].
  split; [vm_compute; reflexivity|].
  split; [vm_compute; reflexivity|].
  split; [vm_compute; reflexivity|].
  split; [vm_compute; reflexivity|].
  split; vm_compute; tauto.
Qed.
End PrefetchFacts.

(** ** The gateway, call by call *)

Module GatewayFacts.
Import Db.

(** [saveSession] on a backend that answers. *)
Lemma saveSession_healthy s w :
  healthy w ->
  exists w',
    saveSession s w = (Ok tt, w')
    /\ sessions w' = upsert_session s (sessions w)
    /\ decisions w' = decisions w
    /\ handles w' = handles_after_save s (handles w)
    /\ faults w' = faults w.
Proof.
  intros H. unfold saveSession, try_catch.
  erewrite DbFacts.bind_ok by (by apply DbFacts.getFirstListItem_healthy).
  unfold upsert_session, handles_after_save.
  change (sessions (tick w)) with (sessions w).
  assert (Hstep : exists w1,
    match List.find (session_in (CullSession.directoryName s)) (sessions w) with
    | Some r => update sessions setSessions SessionRecord.id (SessionRecord.id r)
                       (SessionRecord.with_data s)
    | None => sessions_create s
    end (tick w) = (Ok tt, w1)
    /\ sessions w1 = upsert_session s (sessions w)
    /\ decisions w1 = decisions w /\ handles w1 = handles w
    /\ faults w1 = faults w).
  { unfold upsert_session.
    destruct (List.find _ (sessions w)) as [r0|] eqn:Hfind.
    - rewrite DbFacts.update_healthy.
      + eexists. split; [reflexivity|]. by repeat split.
      + by eapply DbFacts.healthy_faults; [|exact H].
      + by eapply DbFacts.find_session_exists.
    - unfold sessions_create, bind, gets, modify, ret, request. simpl.
      rewrite H. simpl. eexists. split; [reflexivity|]. by repeat split. }
  destruct Hstep as (w1 & E1 & Hs1 & Hd1 & Hh1 & Hf1).
  erewrite DbFacts.bind_ok by exact E1.
  destruct (CullSession.handle s) as [dh|].
  - destruct (DbFacts.storeHandleLocally_healthy (CullSession.directoryName s) dh w1)
      as (w2 & E2 & Hs2 & Hd2 & Hh2 & Hf2 & _);
      [by eapply DbFacts.healthy_faults; [|exact H]|].
    rewrite E2. exists w2. split; [done|].
    by rewrite Hs2, Hd2, Hh2, Hf2, Hs1, Hd1, Hh1, Hf1.
  - exists w1. by repeat split.
Qed.

Lemma find_app_none {A} (p : A -> bool) l k :
  List.find p l = None -> List.find p (l ++ k) = List.find p k.
Proof.
  induction l as [|a l IH]; simpl; [done|]. destruct (p a); [discriminate|exact IH].
Qed.

(** After the in-place update or the append of [upsert_session], the first
    session of that directory name carries the saved data. *)
Lemma find_after_upsert_session s l :
  exists r,
    List.find (session_in (CullSession.directoryName s)) (upsert_session s l)
    = Some (SessionRecord.with_data s r).
Proof.
  unfold upsert_session.
  destruct (List.find _ l) as [r0|] eqn:Hfind.
  - revert Hfind. induction l as [|a l IH]; simpl; [discriminate|].
    destruct (session_in (CullSession.directoryName s) a) eqn:Ha.
    + intros [= ->]. rewrite Nat.eqb_refl. simpl.
      unfold session_in at 1. simpl. rewrite String.eqb_refl. eauto.
    + intros Hfind. destruct (Nat.eqb _ _).
      * unfold session_in at 1. simpl. rewrite String.eqb_refl. eauto.
      * rewrite Ha. by apply IH.
  - rewrite find_app_none by exact Hfind.
    simpl. unfold session_in at 1. simpl. rewrite String.eqb_refl. eauto.
Qed.

Lemma getSession_healthy name w :
  healthy w ->
  getSession name w
  = (Ok (option_map SessionRecord.to_session
                    (List.find (session_in name) (sessions w))), tick w).
Proof.
  intros H. unfold getSession, try_catch.
  erewrite DbFacts.bind_ok by (by apply DbFacts.getFirstListItem_healthy).
  change (sessions (tick w)) with (sessions w).
  by destruct (List.find _ (sessions w)).
Qed.

Lemma getHandleLocally_healthy name w :
  healthy w ->
  exists w', getHandleLocally name w = (Ok (handles w !! name), w')
             /\ handles w' = handles w /\ faults w' = faults w.
Proof.
  intros H. destruct (DbFacts.ensure_idb_healthy w H) as (w1 & E & _ & _ & Hh & Hf & _).
  unfold getHandleLocally. erewrite DbFacts.bind_ok by exact E.
  unfold bind, gets, request. simpl. rewrite Hf, H. simpl.
  eexists. split; [by rewrite Hh|]. by split.
Qed.

(** X1: on a backend that answers, a saved session whose [updatedAt] is a
    time value (so that the conversion of line 244 does not throw) is read
    back by [getSession] under its directory name with the five stored
    fields and without its handle; the handle, when the session had one,
    is read back by [getHandleLocally]; the decision collection is not
    touched. *)
Theorem saveSession_then_getSession s w :
  Js.valid_time (CullSession.updatedAt s) ->
  healthy w ->
  exists w',
    saveSession s w = (Ok tt, w')
    /\ decisions w' = decisions w
    /\ (exists w'', getSession (CullSession.directoryName s) w'
                    = (Ok (Some (without_handle s)), w''))
    /\ (forall h, CullSession.handle s = Some h ->
          exists w'', getHandleLocally (CullSession.directoryName s) w'
                      = (Ok (Some h), w'')).
Proof.
  intros _ H. destruct (saveSession_healthy s w H) as (w' & E & Hs & Hd & Hh & Hf).
  assert (H' : healthy w') by (by eapply DbFacts.healthy_faults; [|exact H]).
  exists w'. split; [exact E|]. split; [exact Hd|]. split.
  - rewrite (getSession_healthy _ w' H'), Hs.
    destruct (find_after_upsert_session s (sessions w)) as [r ->].
    eexists. reflexivity.
  - intros h Hsome.
    destruct (getHandleLocally_healthy (CullSession.directoryName s) w' H')
      as (w'' & E2 & _).
    exists w''. rewrite E2, Hh. unfold handles_after_save. rewrite Hsome.
    by rewrite lookup_insert_eq.
Qed.

Lemma saveSession_then_getSession_witness :
  Js.valid_time (CullSession.updatedAt SampleDb2.session)
  /\ exists w' w'',
       saveSession SampleDb2.session SampleDb.up = (Ok tt, w')
       /\ getSession "trip" w' = (Ok (Some (without_handle SampleDb2.session)), w'').
Proof.
  assert (Hvalid : Js.valid_time (CullSession.updatedAt SampleDb2.session))
    by (unfold Js.valid_time; simpl; lia).
  split; [exact Hvalid|].
  destruct (saveSession_then_getSession SampleDb2.session SampleDb.up Hvalid)
    as (w' & E & _ & (w'' & Hget) & _); [intros n; reflexivity|].
  exists w', w''. split; assumption.
Defined.

(** X2: on a backend that answers, a handle stored under a name is read
    back under that name, other names keep what they had, and after
    [deleteHandleLocally] the name reads [null]. *)
Theorem handle_store_roundtrip name h w :
  healthy w ->
  exists w1,
    storeHandleLocally name h w = (Ok tt, w1)
    /\ (forall n, exists w2,
          getHandleLocally n w1
          = (Ok (if decide (n = name) then Some h else handles w !! n), w2))
    /\ exists w2,
         deleteHandleLocally name w1 = (Ok tt, w2)
         /\ (forall n, exists w3,
               getHandleLocally n w2
               = (Ok (if decide (n = name) then None else handles w !! n), w3)).
Proof.
  intros H.
  destruct (DbFacts.storeHandleLocally_healthy name h w H)
    as (w1 & E1 & _ & _ & Hh1 & Hf1 & _).
  assert (H1 : healthy w1) by (by eapply DbFacts.healthy_faults; [|exact H]).
  exists w1. split; [exact E1|]. split.
  - intros n. destruct (getHandleLocally_healthy n w1 H1) as (w2 & E2 & _).
    exists w2. rewrite E2, Hh1. f_equal. f_equal.
    destruct (decide (n = name)) as [->|Hne];
      [apply lookup_insert_eq|by apply lookup_insert_ne].
  - destruct (DbFacts.deleteHandleLocally_healthy name w1 H1)
      as (w2 & E2 & _ & _ & Hh2 & Hf2 & _).
    assert (H2 : healthy w2) by (by eapply DbFacts.healthy_faults; [|exact H1]).
    exists w2. split; [exact E2|]. intros n.
    destruct (getHandleLocally_healthy n w2 H2) as (w3 & E3 & _).
    exists w3. rewrite E3, Hh2, Hh1. f_equal. f_equal.
    destruct (decide (n = name)) as [->|Hne].
    + apply lookup_delete_eq.
    + rewrite lookup_delete_ne by done. by apply lookup_insert_ne.
Qed.

Lemma handle_store_roundtrip_witness :
  exists w1 w2,
    storeHandleLocally "trip" 11%nat SampleDb.up = (Ok tt, w1)
    /\ getHandleLocally "trip" w1 = (Ok (Some 11%nat), w2).
Proof.
  destruct (handle_store_roundtrip "trip" 11%nat SampleDb.up)
    as (w1 & E & Hget & _); [intros n; reflexivity|].
  destruct (Hget "trip") as [w2 E2]. exists w1, w2. split; [exact E|].
  rewrite E2. reflexivity.
Defined.

(** X3: on a backend that answers, [getAllSessions] returns every stored
    session exactly once (as a permutation of the collection, handles
    left out), most recently updated first. *)
Theorem getAllSessions_newest_first w :
  healthy w ->
  exists l,
    getAllSessions w = (Ok (List.map SessionRecord.to_session l), tick w)
    /\ l ≡ₚ sessions w
    /\ StronglySorted newer_first l
    /\ StronglySorted (fun a b => CullSession.updatedAt b <= CullSession.updatedAt a)
                      (List.map SessionRecord.to_session l).
Proof.
  intros H. exists (merge_sort newer_first (sessions w)).
  assert (Htot : Total newer_first).
  { intros a b. unfold newer_first. lia. }
  assert (Htrans : Transitive newer_first).
  { intros a b c. unfold newer_first. lia. }
  assert (Hsorted : StronglySorted newer_first (merge_sort newer_first (sessions w)))
    by (apply StronglySorted_merge_sort; assumption).
  split; [|split; [apply merge_sort_Permutation|split; [exact Hsorted|]]].
  - unfold getAllSessions, sessions_sorted, try_catch, bind, gets, ret, request.
    simpl. by rewrite H.
  - induction Hsorted as [|a l Hl IH Hall]; simpl; constructor; [exact IH|].
    apply Forall_forall. intros x Hx.
    apply list_elem_of_In, in_map_iff in Hx as (r & <- & Hr).
    rewrite Forall_forall in Hall. apply (Hall r). by apply list_elem_of_In.
Qed.

Lemma getAllSessions_newest_first_witness :
  fst (getAllSessions SampleDb.up)
  = Ok [CullSession.mk "other" 0 9 2000 false None;
        CullSession.mk "shoot" 2 4 1000 false None].
Proof.
  destruct (getAllSessions_newest_first SampleDb.up) as (l & E & _);
    [intros n; reflexivity|].
  vm_compute. reflexivity.
Defined.

Lemma persisted_none dir path l :
  (forall r, In r l -> record_key r <> (dir, path)) ->
  persisted dir path l = None.
Proof.
  intros Hno. unfold persisted, decision_map.
  change (foldl _ ∅ ?rs) with (foldl put_decision ∅ rs).
  rewrite UpsertFacts.foldl_put_other; [apply lookup_empty|].
  intros Hin. apply in_map_iff in Hin as (r & Hp & Hr).
  apply filter_In in Hr as [Hr Hdir]. apply (Hno r Hr).
  unfold decision_in in Hdir. apply String.eqb_eq in Hdir.
  unfold record_key. by rewrite Hdir, Hp.
Qed.

(** A record of the collection after [saveDecision(d)] either carries
    [d]'s key or was there before. *)
Lemma upsert_members d l r :
  In r (upsert d l) ->
  record_key r = (ImageDecision.directoryName d, ImageDecision.relativePath d)
  \/ In r l.
Proof.
  unfold upsert. destruct (List.find _ l) as [r0|] eqn:Hfind.
  - intros Hin. apply in_map_iff in Hin as (x & <- & Hx).
    destruct (Nat.eqb _ _); [by left|by right].
  - intros Hin. apply in_app_or in Hin as [Hin|[<-|[]]]; [by right|by left].
Qed.

(** X4: on a backend that answers and holds one record per
    [(directoryName, relativePath)], [saveDecision(d)] for a path other
    than the prototype key of the lookup object keeps that invariant, the
    lookup of [d]'s directory then gives [d]'s decision for [d]'s path,
    and the persisted decision of every other [(directoryName,
    relativePath)], the prototype key apart, is what it was. *)
Theorem saveDecision_then_lookup d w :
  ImageDecision.relativePath d <> Js.proto_key ->
  healthy w -> well_keyed (decisions w) ->
  exists w',
    saveDecision d w = (Ok tt, w')
    /\ well_keyed (decisions w')
    /\ sessions w' = sessions w
    /\ (exists m w'',
          getDecisionsForDirectory (ImageDecision.directoryName d) w' = (Ok m, w'')
          /\ m !! ImageDecision.relativePath d = Some (ImageDecision.decision d))
    /\ (forall dir path,
          path <> Js.proto_key ->
          (dir, path) <> (ImageDecision.directoryName d, ImageDecision.relativePath d) ->
          persisted dir path (decisions w') = persisted dir path (decisions w)).
Proof.
  intros _ H Hwk.
  destruct (UpsertFacts.saveDecision_healthy d w H) as (w' & E & Hd & Hs & _ & Hf).
  assert (H' : healthy w') by (by eapply DbFacts.healthy_faults; [|exact H]).
  pose proof (UpsertFacts.upsert_well_keyed d _ Hwk) as Hwk'.
  exists w'. split; [exact E|]. rewrite Hd. split; [exact Hwk'|]. split; [exact Hs|].
  split.
  - rewrite (DbFacts.getDecisionsForDirectory_healthy _ w' H'), Hd.
    eexists _, _. split; [reflexivity|].
    destruct (UpsertFacts.upsert_written d (decisions w)) as (r & Hin & Hk & Hdec).
    pose proof (UpsertFacts.persisted_unique _ _ (proj2 Hwk') Hin) as Hper.
    unfold record_key in Hk. injection Hk as Hdir Hpath.
    by rewrite Hdir, Hpath, Hdec in Hper.
  - intros dir path _ Hne.
    destruct (List.find (decision_at dir path) (decisions w)) as [r|] eqn:Hfind.
    + apply find_some in Hfind as [Hin Hat].
      unfold decision_at in Hat. apply andb_true_iff in Hat as [Hdir Hpath].
      apply String.eqb_eq in Hdir, Hpath. subst dir path.
      rewrite (UpsertFacts.persisted_unique _ _ (proj2 Hwk) Hin).
      apply (UpsertFacts.persisted_unique _ _ (proj2 Hwk')).
      by apply UpsertFacts.upsert_others; [apply Hwk| |].
    + assert (Hno : forall r, In r (decisions w) -> record_key r <> (dir, path)).
      { intros r Hr Hk. pose proof (find_none _ _ Hfind r Hr) as Hf'.
        unfold decision_at in Hf'. unfold record_key in Hk. injection Hk as Hd' Hp'.
        by rewrite Hd', Hp', !String.eqb_refl in Hf'. }
      rewrite (persisted_none _ _ _ Hno). apply persisted_none.
      intros r Hr Hk. destruct (upsert_members _ _ _ Hr) as [Hkd|Hin].
      * congruence.
      * by apply (Hno r Hin).
Qed.

Lemma saveDecision_then_lookup_witness :
  exists w' m w'',
    saveDecision (ImageDecision.mk "shoot" "shoot/a.jpg" Delete) SampleDb.up = (Ok tt, w')
    /\ getDecisionsForDirectory "shoot" w' = (Ok m, w'')
    /\ m !! "shoot/a.jpg" = Some Delete.
Proof.
  destruct (saveDecision_then_lookup (ImageDecision.mk "shoot" "shoot/a.jpg" Delete)
              SampleDb.up) as (w' & E & _ & _ & (m & w'' & Hget & Hm) & _).
  - discriminate.
  - intros n. reflexivity.
  - split; apply (bool_decide_unpack _); vm_compute; reflexivity.
  - exists w', m, w''. repeat split; assumption.
Defined.

(** X5: when the lookup request of [saveDecision] fails and the next
    request succeeds, the failure is taken for "no such record": a new
    record is appended, and if the key was already stored the collection
    now holds two records for it. *)
Theorem saveDecision_duplicates_after_failed_lookup d w :
  faults w (clock w) = true -> faults w (S (clock w)) = false ->
  exists w',
    saveDecision d w = (Ok tt, w')
    /\ decisions w'
       = decisions w
         ++ [DecisionRecord.with_data d
               (DecisionRecord.mk
                  (fresh_id (List.map DecisionRecord.id (decisions w)))
                  EmptyString EmptyString Pending)]
    /\ ((exists r, In r (decisions w)
           /\ record_key r
              = (ImageDecision.directoryName d, ImageDecision.relativePath d)) ->
        ~ NoDup (List.map record_key (decisions w'))).
Proof.
  intros Hfail Hok.
  unfold saveDecision, getFirstListItem, decisions_create, catch_null, try_catch,
    bind, gets, modify, ret, throw, request. simpl. rewrite Hfail. simpl.
  rewrite Hok. simpl. eexists. split; [reflexivity|]. simpl. split; [done|].
  intros (r & Hr & Hk) Hnd. rewrite List.map_app in Hnd. simpl in Hnd.
  apply NoDup_app in Hnd as (_ & Hdisj & _).
  apply (Hdisj (record_key r)).
  - apply list_elem_of_In. by apply in_map.
  - rewrite Hk. by apply list_elem_of_singleton.
Qed.

Lemma saveDecision_duplicates_after_failed_lookup_witness :
  exists w',
    saveDecision (ImageDecision.mk "shoot" "shoot/a.jpg" Delete) SampleDb2.hiccup
    = (Ok tt, w')
    /\ length (decisions w') = 4%nat
    /\ ~ NoDup (List.map record_key (decisions w')).
Proof.
  destruct (saveDecision_duplicates_after_failed_lookup
              (ImageDecision.mk "shoot" "shoot/a.jpg" Delete) SampleDb2.hiccup)
    as (w' & E & Hd & Hdup); [reflexivity|reflexivity|].
  exists w'. split; [exact E|]. split; [by rewrite Hd|].
  apply Hdup. exists (DecisionRecord.mk 1 "shoot" "shoot/a.jpg" Keep).
  split; [by left|reflexivity].
Defined.

(** *** Requests that succeed or fail one at a time *)

Lemma getFirstListItem_ok {R} (coll : World -> list R) p w :
  faults w (clock w) = false ->
  catch_null (getFirstListItem coll p) w = (Ok (List.find p (coll (tick w))), tick w).
Proof.
  intros H. unfold getFirstListItem, catch_null, try_catch, bind, gets, ret, throw,
    request. simpl. rewrite H. simpl. by destruct (List.find p (coll (tick w))).
Qed.

Lemma getFullList_ok {R} (coll : World -> list R) p w :
  faults w (clock w) = false ->
  getFullList coll p w = (Ok (List.filter p (coll (tick w))), tick w).
Proof.
  intros H. unfold getFullList, bind, gets, ret, request. simpl. by rewrite H.
Qed.

Lemma update_ok {R} (coll : World -> list R) setColl idOf i (f : R -> R) w :
  faults w (clock w) = false ->
  existsb (fun r => Nat.eqb (idOf r) i) (coll (tick w)) = true ->
  update coll setColl idOf i f w
  = (Ok tt, setColl (List.map (fun r => if Nat.eqb (idOf r) i then f r else r)
                              (coll (tick w))) (tick w)).
Proof.
  intros H Hex. unfold update, bind, gets, modify, ret, throw, request. simpl.
  rewrite H. simpl. by rewrite Hex.
Qed.

Lemma update_fails {R} (coll : World -> list R) setColl idOf i (f : R -> R) w :
  faults w (clock w) = true ->
  update coll setColl idOf i f w = (Thrown, tick w).
Proof.
  intros H. unfold update, bind, gets, modify, ret, throw, request. simpl.
  by rewrite H.
Qed.

(** The migration loop when its first [k] updates succeed and the next one
    fails: the first [k] records are renamed, the callback has heard
    [count + 1 .. count + k], and the loop rejects. *)
Lemma migrate_interrupted newPath total :
  forall k rs c w,
    (k < length rs)%nat ->
    (forall i, (i < k)%nat -> faults w (clock w + i)%nat = false) ->
    faults w (clock w + k)%nat = true ->
    (forall r, In r rs ->
       existsb (fun x => Nat.eqb (DecisionRecord.id x) (DecisionRecord.id r))
               (decisions w) = true) ->
    exists w',
      migrate newPath true total rs c w = (Thrown, w')
      /\ decisions w'
         = List.map (fun x =>
             if existsb (fun r => Nat.eqb (DecisionRecord.id r) (DecisionRecord.id x))
                        (take k rs)
             then DecisionRecord.with_directoryName newPath x else x) (decisions w)
      /\ sessions w' = sessions w /\ handles w' = handles w
      /\ progressLog w'
         = progressLog w ++ List.map (fun j => (c + Z.of_nat j, total)) (seq 1 k).
Proof.
  induction k as [|k IH]; intros rs c w Hlen Hok Hfail Hex.
  - destruct rs as [|r rs]; [simpl in Hlen; lia|].
    cbn [migrate]. unfold bind at 1.
    rewrite update_fails by (by rewrite Nat.add_0_r in Hfail).
    eexists. split; [reflexivity|]. simpl.
    rewrite List.map_id, app_nil_r. by repeat split.
  - destruct rs as [|r rs]; [simpl in Hlen; lia|].
    cbn [migrate]. unfold bind at 1.
    rewrite update_ok;
      [|by rewrite <- (Hok 0%nat), Nat.add_0_r by lia|apply Hex; by left].
    unfold bind at 1. unfold modify at 1.
    match goal with |- context [migrate _ _ _ _ _ ?w1] => set (w1' := w1) end.
    destruct (IH rs (c + 1) w1') as (w' & Hrun & Hd & Hs & Hh & Hp).
    + simpl in Hlen. lia.
    + intros i Hi. subst w1'. simpl. rewrite <- Nat.add_succ_r. apply Hok. lia.
    + subst w1'. simpl. by rewrite <- Nat.add_succ_r.
    + intros r' Hr'. subst w1'. simpl.
      rewrite DbFacts.existsb_map_same_id by (intros x; by destruct (Nat.eqb _ _)).
      apply Hex. by right.
    + exists w'. split; [exact Hrun|]. subst w1'. simpl in *.
      split; [|split; [done|split; [done|]]].
      * rewrite Hd, List.map_map. apply List.map_ext. intros x.
        destruct (Nat.eqb (DecisionRecord.id x) (DecisionRecord.id r)) eqn:E.
        -- rewrite (Nat.eqb_sym (DecisionRecord.id r)), E. simpl.
           by destruct (existsb _ (take k rs)).
        -- by rewrite (Nat.eqb_sym (DecisionRecord.id r)), E.
      * rewrite Hp, <- app_assoc. f_equal. apply DbFacts.progress_step.
Qed.

(** X6: [relinkSession] is not atomic.  When the session of the old name
    exists, the first [3 + k] requests succeed and the next one fails, with
    [k] smaller than the number of decision records of the old name, the
    call rejects and leaves the session already renamed (the record with
    the looked-up id is stored under the new name, its other fields as
    they were), exactly the first [k] decision records of the old name
    renamed (the others still under the old name), the callback called
    [k] times, and the handle store untouched. *)
Theorem relink_interrupted old new h w r0 k :
  List.find (session_in old) (sessions w) = Some r0 ->
  (k < length (List.filter (decision_in old) (decisions w)))%nat ->
  (forall i, (i < 3 + k)%nat -> faults w (clock w + i)%nat = false) ->
  faults w (clock w + (3 + k))%nat = true ->
  exists w',
    relinkSession old new h true w = (Thrown, w')
    /\ sessions w' = relinked_sessions old new (sessions w)
    /\ In (SessionRecord.mk (SessionRecord.id r0) new
             (SessionRecord.lastIndex r0) (SessionRecord.totalImages r0)
             (SessionRecord.isDone r0) (SessionRecord.updatedAt r0))
          (sessions w')
    /\ decisions w'
       = List.map (fun x =>
           if existsb (fun r => Nat.eqb (DecisionRecord.id r) (DecisionRecord.id x))
                      (take k (List.filter (decision_in old) (decisions w)))
           then DecisionRecord.with_directoryName new x else x) (decisions w)
    /\ handles w' = handles w
    /\ progressLog w'
       = progressLog w
         ++ List.map (fun j => (Z.of_nat j,
                                Js.len (List.filter (decision_in old) (decisions w))))
                     (seq 1 k).
Proof.
  intros Hfind Hk Hok Hfail. unfold relinkSession.
  erewrite DbFacts.bind_ok;
    [|apply getFirstListItem_ok; by rewrite <- (Hok 0%nat), Nat.add_0_r by lia].
  change (sessions (tick w)) with (sessions w). rewrite Hfind.
  erewrite DbFacts.bind_ok;
    [|apply update_ok;
      [simpl; by rewrite <- (Hok 1%nat), Nat.add_1_r by lia
      |by eapply DbFacts.find_session_exists]].
  erewrite DbFacts.bind_ok;
    [|apply getFullList_ok; simpl;
      by rewrite <- (Hok 2%nat) by lia; f_equal; lia].
  match goal with
  | |- exists w', bind (migrate _ _ _ _ _) _ ?w2 = _ /\ _ =>
    destruct (migrate_interrupted new
                (Js.len (List.filter (decision_in old) (decisions w))) k
                (List.filter (decision_in old) (decisions w)) 0 w2)
      as (w' & E & Hd & Hs & Hh & Hp)
  end.
  - exact Hk.
  - intros i Hi. simpl. rewrite <- (Hok (3 + i)%nat) by lia. f_equal. lia.
  - simpl. rewrite <- Hfail. f_equal. lia.
  - intros r Hr. simpl. apply existsb_exists. exists r.
    split; [by apply filter_In in Hr as [Hr _]|apply Nat.eqb_refl].
  - exists w'. split; [by erewrite DbFacts.bind_thrown by exact E|].
    pose proof (DbFacts.relinked_session_renamed old new _ _ Hfind) as Hin.
    unfold relinked_sessions in *. rewrite Hfind in *. simpl in *.
    split; [exact Hs|]. split; [by rewrite Hs|].
    split; [exact Hd|]. split; [exact Hh|].
    rewrite Hp. reflexivity.
Qed.

Lemma relink_interrupted_witness :
  exists w',
    relinkSession "shoot" "archive" 9%nat true
      (mkWorld SampleDb.sessions SampleDb.decisions {["shoot" := 7%nat]} true
               (fun n => Nat.eqb n 4) 0 []) = (Thrown, w')
    /\ List.map SessionRecord.directoryName (sessions w') = ["archive"; "other"]
    /\ In (SessionRecord.mk 1 "archive" 2 4 false 1000) (sessions w')
    /\ List.map DecisionRecord.directoryName (decisions w')
       = ["archive"; "other"; "shoot"]
    /\ handles w' !! "shoot" = Some 7%nat
    /\ progressLog w' = [(1, 2)].
Proof.
  destruct (relink_interrupted "shoot" "archive" 9%nat
              (mkWorld SampleDb.sessions SampleDb.decisions {["shoot" := 7%nat]} true
                       (fun n => Nat.eqb n 4) 0 [])
              (SessionRecord.mk 1 "shoot" 2 4 false 1000) 1)
    as (w' & E & Hs & Hin & Hd & Hh & Hp).
  - reflexivity.
  - vm_compute. lia.
  - intros i Hi. simpl. destruct i as [|[|[|[|i]]]]; try reflexivity. lia.
  - reflexivity.
  - exists w'. split; [exact E|]. split; [by rewrite Hs|].
    split; [exact Hin|]. split; [by rewrite Hd|].
    split; [by rewrite Hh|exact Hp].
Defined.
End GatewayFacts.

(** ** The file service *)

Module FileFacts.
Import FileService.

Lemma append_cons c (a b : string) : String c a +:+ b = String c (a +:+ b).
Proof. reflexivity. Qed.

Lemma append_nil_l (b : string) : EmptyString +:+ b = b.
Proof. reflexivity. Qed.

Ltac ssimpl := simpl; rewrite ?append_cons, ?append_nil_l; simpl.

Lemma append_assoc (a b c : string) : (a +:+ b) +:+ c = a +:+ (b +:+ c).
Proof. induction a as [|x a IH]; ssimpl; [done|]. by rewrite IH. Qed.

Lemma append_nil_r (a : string) : a +:+ EmptyString = a.
Proof. induction a as [|x a IH]; ssimpl; [done|]. by rewrite IH. Qed.

Lemma lower_char_dot c : Ascii.eqb (lower_char c) "."%char = Ascii.eqb c "."%char.
Proof. destruct c as [[] [] [] [] [] [] [] []]; reflexivity. Qed.

Lemma lower_char_idem c : lower_char (lower_char c) = lower_char c.
Proof. destruct c as [[] [] [] [] [] [] [] []]; reflexivity. Qed.

Lemma toLowerCase_app a b : toLowerCase (a +:+ b) = toLowerCase a +:+ toLowerCase b.
Proof. induction a as [|x a IH]; ssimpl; [done|]. by rewrite IH. Qed.

Lemma toLowerCase_idem s : toLowerCase (toLowerCase s) = toLowerCase s.
Proof. induction s as [|x s IH]; simpl; [done|]. by rewrite lower_char_idem, IH. Qed.

Lemma last_segment_lower s : forall acc,
  last_segment_from (toLowerCase acc) (toLowerCase s)
  = toLowerCase (last_segment_from acc s).
Proof.
  induction s as [|c s IH]; intros acc; simpl; [done|].
  rewrite lower_char_dot. destruct (Ascii.eqb c "."%char).
  - apply (IH EmptyString).
  - rewrite <- IH. by rewrite toLowerCase_app.
Qed.

Lemma extension_of_lower name : extension_of (toLowerCase name) = extension_of name.
Proof.
  unfold extension_of.
  change (last_segment_from EmptyString (toLowerCase name))
    with (last_segment_from (toLowerCase EmptyString) (toLowerCase name)).
  rewrite (last_segment_lower name EmptyString). apply toLowerCase_idem.
Qed.

(** X7: the three format tests look at the name only up to the case of
    its letters: two names that agree once lowered are both images or both
    not, both rendered by the browser or both not, both raw or both not. *)
Theorem format_tests_ignore_case n m :
  toLowerCase n = toLowerCase m ->
  is_image n = is_image m
  /\ browser_renders n = browser_renders m
  /\ is_raw n = is_raw m.
Proof.
  intros E. assert (Hext : extension_of n = extension_of m).
  { by rewrite <- (extension_of_lower n), <- (extension_of_lower m), E. }
  unfold is_image, browser_renders, is_raw. by rewrite Hext.
Qed.

Lemma format_tests_ignore_case_witness :
  is_image "IMG_0042.JPG" = is_image "img_0042.jpg"
  /\ is_image "IMG_0042.JPG" = true.
Proof.
  split; [|reflexivity].
  apply (format_tests_ignore_case "IMG_0042.JPG" "img_0042.jpg"). reflexivity.
Defined.

(** X8: a name passes the scan filter exactly when the browser renders it,
    or it is a raw format, or its extension is [bmp]; the browser never
    renders a raw format.  So every file [getImageUrl] accepts is found by
    the scan, and the scan also finds [bmp] and raw files, on which
    [getImageUrl] throws. *)
Theorem scan_filter_classes name :
  is_image name
  = browser_renders name || is_raw name || String.eqb (extension_of name) "bmp"
  /\ (browser_renders name = true -> is_raw name = false).
Proof.
  unfold is_image, browser_renders, is_raw, includes, IMAGE_EXTENSIONS, webFormats,
    rawExtensions.
  generalize (extension_of name). intros e. simpl.
  repeat match goal with
  | |- context [String.eqb e ?x] =>
    destruct (String.eqb_spec e x); [subst; split; [reflexivity|simpl; congruence]|]
  end.
  simpl. destruct (String.eqb e EmptyString); simpl; split; congruence.
Qed.

Lemma last_segment_app a : forall acc b,
  last_segment_from acc (a +:+ b) = last_segment_from (last_segment_from acc a) b.
Proof.
  induction a as [|c a IH]; intros acc b; ssimpl; [done|].
  destruct (Ascii.eqb c "."%char); apply IH.
Qed.

Lemma last_segment_no_dot e : forall acc,
  no_dot e = true -> last_segment_from acc e = acc +:+ e.
Proof.
  induction e as [|c e IH]; intros acc H; simpl in *.
  - by rewrite append_nil_r.
  - apply andb_true_iff in H as [Hc He]. apply negb_true_iff in Hc. rewrite Hc.
    rewrite IH by done. by rewrite append_assoc, append_cons, append_nil_l.
Qed.

(** X9: the extension is the lowered text after the last dot: for a text
    [e] without a dot, [a.e] has extension [e] lowered, whatever [a] is
    (dots included); a name without any dot is its own extension, so a
    file called [PNG] passes the scan filter; a name ending in a dot has
    the empty extension and never passes it. *)
Theorem extension_is_after_last_dot a e :
  no_dot e = true ->
  extension_of (a +:+ "." +:+ e) = toLowerCase e
  /\ extension_of e = toLowerCase e
  /\ is_image (a +:+ ".") = false.
Proof.
  intros He. unfold is_image, extension_of. split; [|split].
  - rewrite last_segment_app, last_segment_app. simpl.
    by rewrite last_segment_no_dot, append_nil_l.
  - by rewrite last_segment_no_dot, append_nil_l.
  - rewrite last_segment_app. reflexivity.
Qed.

Lemma extension_is_after_last_dot_witness :
  extension_of "trip.2024/day.1.NEF" = "nef" /\ is_image "PNG" = true.
Proof.
  destruct (extension_is_after_last_dot "trip.2024/day.1" "NEF" eq_refl) as (H1 & _).
  destruct (extension_is_after_last_dot "" "PNG" eq_refl) as (_ & H2 & _).
  split; [exact H1|]. unfold is_image. rewrite H2. reflexivity.
Defined.

(** *** The scan *)

Lemma Entry_nested_ind (P : Entry -> Prop) :
  (forall name file, P (FileEntry name file)) ->
  (forall name children, Forall P children -> P (DirEntry name children)) ->
  forall e, P e.
Proof.
  intros Hf Hd. fix IH 1. intros [name file|name children]; [apply Hf|].
  apply Hd. induction children as [|c cs IHcs]; constructor; [apply IH|exact IHcs].
Qed.

Lemma extends_refl randomId st : extends randomId st st.
Proof.
  exists []. simpl. rewrite !app_nil_r. unfold Js.len. simpl.
  rewrite Z.add_0_r. by repeat split.
Qed.

Lemma map_seq_shift {B} (f : nat -> B) a n : forall s,
  List.map f (seq (s + a) n) = List.map (fun k => f (k + a)%nat) (seq s n).
Proof.
  induction n as [|n IH]; intros s; simpl; [done|].
  f_equal. apply (IH (S s)).
Qed.

Lemma extends_trans randomId st1 st2 st3 :
  extends randomId st1 st2 -> extends randomId st2 st3 -> extends randomId st1 st3.
Proof.
  intros (n1 & Hi1 & Hc1 & Hp1 & Hok1 & Hid1) (n2 & Hi2 & Hc2 & Hp2 & Hok2 & Hid2).
  exists (n1 ++ n2). rewrite Hi2, Hi1, Hc2, Hc1, Hp2, Hp1, Hc1.
  rewrite Hi1 in Hid2. rewrite length_app in Hid2.
  split; [by rewrite app_assoc|]. split.
  { unfold Js.len. rewrite length_app. lia. }
  split.
  { rewrite <- app_assoc. f_equal. rewrite length_app, seq_app, List.map_app.
    f_equal. rewrite (map_seq_shift _ (length n1) (length n2) 1).
    apply List.map_ext. intros k. unfold Js.len. lia. }
  split; [by apply Forall_app|].
  by rewrite List.map_app, length_app, seq_app, List.map_app, Hid1, Hid2.
Qed.

Lemma walk_entry_extends randomId e :
  forall path st, extends randomId st (walk_entry randomId path e st).
Proof.
  induction e as [name file|name children IH] using Entry_nested_ind;
    intros path [[images count] calls]; simpl.
  - destruct (is_image name) eqn:Himg; [|apply extends_refl].
    eexists [_]. simpl. split; [reflexivity|]. split; [reflexivity|].
    split; [reflexivity|]. split.
    + constructor; [|constructor]. unfold scanned_ok. simpl. eauto.
    + reflexivity.
  - generalize (entryPath path name). intros p.
    generalize (images, count, calls). clear images count calls.
    induction IH as [|c cs Hc _ IHcs]; intros st; simpl; [apply extends_refl|].
    eapply extends_trans; [apply Hc|apply IHcs].
Qed.

Lemma walk_extends randomId path entries :
  forall st, extends randomId st (walk randomId path entries st).
Proof.
  unfold walk. induction entries as [|c cs IH]; intros st; simpl;
    [apply extends_refl|].
  eapply extends_trans; [apply walk_entry_extends|apply IH].
Qed.

(** X10: a scan returns only pending records without a URL, with a real
    file handle and a name that passes the extension filter; it reports
    progress once per record, with the counts [1, 2, ..., n] for [n]
    records; and the ids are the first [n] random ids in order. *)
Theorem scan_reports_every_record randomId rootName entries :
  exists images,
    scanDirectory randomId rootName entries
    = (images, rootName, List.map Z.of_nat (seq 1 (length images)))
    /\ Forall scanned_ok images
    /\ List.map ImageItem.id images = List.map randomId (seq 0 (length images)).
Proof.
  unfold scanDirectory.
  destruct (walk_extends randomId EmptyString entries ([], 0, []))
    as (new & Hi & _ & Hp & Hok & Hid).
  destruct (walk randomId EmptyString entries ([], 0, [])) as [[images count] calls].
  simpl in *. subst images calls. exists new. split; [reflexivity|by split].
Qed.

(** *** The paths of a scan *)

Lemma paths_walk_entry randomId e :
  forall path st,
    paths_of (walk_entry randomId path e st)
    = paths_of st ++ paths_of (walk_entry randomId path e init).
Proof.
  induction e as [name file|name children IH] using Entry_nested_ind;
    intros path [[images count] calls]; simpl.
  - destruct (is_image name); unfold paths_of; simpl;
      [by rewrite List.map_app|by rewrite app_nil_r].
  - generalize (entryPath path name). intros p.
    generalize (images, count, calls). clear images count calls.
    induction IH as [|c cs Hc _ IHcs]; intros st; simpl.
    + unfold paths_of. simpl. by rewrite app_nil_r.
    + rewrite IHcs, Hc. rewrite (IHcs (walk_entry randomId p c init)).
      by rewrite app_assoc.
Qed.

Lemma paths_walk randomId path entries :
  forall st,
    paths_of (walk randomId path entries st)
    = paths_of st ++ paths_of (walk randomId path entries init).
Proof.
  unfold walk. induction entries as [|c cs IH]; intros st; simpl.
  - unfold paths_of. simpl. by rewrite app_nil_r.
  - rewrite IH, paths_walk_entry.
    rewrite (IH (walk_entry randomId path c init)). by rewrite app_assoc.
Qed.

Lemma walk_cons randomId path c cs st :
  walk randomId path (c :: cs) st
  = walk randomId path cs (walk_entry randomId path c st).
Proof. reflexivity. Qed.

Lemma entryPath_root name : entryPath EmptyString name = name.
Proof. reflexivity. Qed.

Lemma entryPath_nested path name :
  path <> EmptyString -> entryPath path name = path +:+ "/" +:+ name.
Proof. intros H. unfold entryPath. apply String.eqb_neq in H. by rewrite H. Qed.

Lemma nested_path_nonempty path name :
  path <> EmptyString -> path +:+ "/" +:+ name <> EmptyString.
Proof. destruct path; [done|]. rewrite append_cons. discriminate. Qed.

(** Below a directory path [p], every path is [p/] followed by the path
    the same entries get at the root. *)
Lemma paths_under randomId e :
  forall p, p <> EmptyString -> dirs_named e = true ->
    paths_of (walk_entry randomId p e init)
    = List.map (fun q => p +:+ "/" +:+ q)
               (paths_of (walk_entry randomId EmptyString e init)).
Proof.
  induction e as [name file|name children IH] using Entry_nested_ind;
    intros p Hp Hnamed.
  - simpl. rewrite entryPath_root, (entryPath_nested p name Hp).
    by destruct (is_image name).
  - simpl in Hnamed. apply andb_true_iff in Hnamed as [Hname Hcs].
    apply negb_true_iff, String.eqb_neq in Hname.
    assert (Hlist : forall q, q <> EmptyString ->
      paths_of (walk randomId q children init)
      = List.map (fun r => q +:+ "/" +:+ r)
                 (paths_of (walk randomId EmptyString children init))).
    { intros q Hq. clear Hname. induction IH as [|c cs Hc _ IHcs].
      - reflexivity.
      - simpl in Hcs. apply andb_true_iff in Hcs as [Hc' Hcs'].
        rewrite !walk_cons, paths_walk, (paths_walk _ EmptyString).
        rewrite List.map_app, (Hc q Hq Hc'), (IHcs Hcs'). reflexivity. }
    change (walk_entry randomId p (DirEntry name children) init)
      with (walk randomId (entryPath p name) children init).
    change (walk_entry randomId EmptyString (DirEntry name children) init)
      with (walk randomId (entryPath EmptyString name) children init).
    rewrite entryPath_root, (entryPath_nested p name Hp).
    rewrite (Hlist _ (nested_path_nonempty p name Hp)), (Hlist name Hname).
    rewrite List.map_map. apply List.map_ext. intros r.
    by rewrite !append_assoc.
Qed.

(** X11: the paths of a scan follow the directory walk.  The paths of two
    listings put one after the other are the paths of the first followed by
    those of the second; a file at the root gives its own name if it passes
    the filter and nothing otherwise; and a directory [d] (every directory
    of the tree having a name) gives the paths of its own listing, each
    with [d/] in front. *)
Theorem scan_paths_follow_the_walk randomId :
  (forall es1 es2,
     scan_paths randomId (es1 ++ es2)
     = scan_paths randomId es1 ++ scan_paths randomId es2)
  /\ (forall name file,
        scan_paths randomId [FileEntry name file]
        = if is_image name then [name] else [])
  /\ (forall d children,
        dirs_named (DirEntry d children) = true ->
        scan_paths randomId [DirEntry d children]
        = List.map (fun q => d +:+ "/" +:+ q) (scan_paths randomId children)).
Proof.
  assert (Hscan : forall es, scan_paths randomId es
                             = paths_of (walk randomId EmptyString es init)).
  { intros es. unfold scan_paths, scanDirectory, paths_of, init.
    by destruct (walk randomId EmptyString es ([], 0, [])) as [[images count] calls]. }
  split; [|split].
  - intros es1 es2. rewrite !Hscan. unfold walk. rewrite fold_left_app.
    fold (walk randomId EmptyString es1 init).
    apply (paths_walk randomId EmptyString es2).
  - intros name file. rewrite Hscan. unfold walk. simpl.
    by destruct (is_image name).
  - intros d children Hnamed. rewrite !Hscan.
    pose proof (paths_under randomId (DirEntry d children)) as Hunder.
    simpl in Hnamed. apply andb_true_iff in Hnamed as [Hname Hcs].
    apply negb_true_iff, String.eqb_neq in Hname.
    change (walk randomId EmptyString [DirEntry d children] init)
      with (walk randomId d children init).
    clear Hunder. induction children as [|c cs IH]; [reflexivity|].
    simpl in Hcs. apply andb_true_iff in Hcs as [Hc Hcs].
    rewrite !walk_cons, paths_walk, (paths_walk _ EmptyString), List.map_app.
    rewrite (paths_under randomId c d Hname Hc), (IH Hcs). reflexivity.
Qed.

Lemma scan_paths_follow_the_walk_witness :
  scan_paths (fun _ => "id")
    [DirEntry "day1" [FileEntry "a.jpg" 1; FileEntry "notes.txt" 2;
                      DirEntry "raw" [FileEntry "b.NEF" 3]]]
  = ["day1/a.jpg"; "day1/raw/b.NEF"].
Proof.
  destruct (scan_paths_follow_the_walk (fun _ => "id")) as (_ & _ & Hdir).
  rewrite Hdir by reflexivity. reflexivity.
Defined.
(** *** The deletion script *)

Lemma to_backslashes_app a b :
  to_backslashes (a +:+ b) = to_backslashes a +:+ to_backslashes b.
Proof. induction a as [|c a IH]; ssimpl; [done|]. by rewrite IH. Qed.

Lemma to_backslashes_length s :
  String.length (to_backslashes s) = String.length s.
Proof. induction s as [|c s IH]; simpl; [done|]. by rewrite IH. Qed.

Lemma to_backslashes_no_slash s :
  ~ In "/"%char (list_ascii_of_string (to_backslashes s)).
Proof.
  induction s as [|c s IH]; simpl; [tauto|].
  intros [E|Hin]; [|by apply IH].
  destruct (Ascii.eqb_spec c "/"%char); [discriminate|congruence].
Qed.

Lemma fold_commands platform rootPath l : forall script,
  fold_left (add_command platform rootPath) l script
  = script +:+ join (List.map (command platform rootPath) l).
Proof.
  induction l as [|img l IH]; intros script; simpl.
  - by rewrite append_nil_r.
  - rewrite IH. destruct platform; unfold add_command, command;
      by rewrite ?to_backslashes_app, !append_assoc.
Qed.

Lemma filter_idem {A} (f : A -> bool) l :
  List.filter f (List.filter f l) = List.filter f l.
Proof.
  induction l as [|x l IH]; simpl; [done|].
  destruct (f x) eqn:E; simpl; rewrite ?E, IH; done.
Qed.

(** X12: the deletion script is its header, one command per record flagged
    [delete] in catalog order, and its footer; records kept or pending
    never appear, so the script of a catalog is the script of its flagged
    records.  The Unix command names [root/relativePath] as it is; the
    Windows command names the root and the relative path each with every
    [/] turned into a backslash, joined by a backslash: a text of the same
    length with no [/] left. *)
Theorem deletion_script_commands images rootPath platform :
  generateDeletionScript images rootPath platform
  = script_header platform (length (List.filter App.is_delete images))
    +:+ join (List.map (command platform rootPath)
                       (List.filter App.is_delete images))
    +:+ script_footer platform
  /\ generateDeletionScript images rootPath platform
     = generateDeletionScript (List.filter App.is_delete images) rootPath platform
  /\ (forall path,
        String.length (to_backslashes path) = String.length path
        /\ ~ In "/"%char (list_ascii_of_string (to_backslashes path))).
Proof.
  assert (Hform : forall imgs,
    generateDeletionScript imgs rootPath platform
    = script_header platform (length (List.filter App.is_delete imgs))
      +:+ join (List.map (command platform rootPath) (List.filter App.is_delete imgs))
      +:+ script_footer platform).
  { intros imgs. unfold generateDeletionScript.
    change (List.filter (fun img => bool_decide (ImageItem.decision img = Delete)) imgs)
      with (List.filter App.is_delete imgs).
    destruct platform; rewrite fold_commands; unfold script_header, script_footer;
      by rewrite !append_assoc. }
  split; [apply Hform|]. split.
  - rewrite !Hform. by rewrite filter_idem.
  - intros path. split; [apply to_backslashes_length|apply to_backslashes_no_slash].
Qed.
End FileFacts.

(** ** The counters, the completion of a catalog and the summary *)

Module CompletionFacts.
Import AppState.

Lemma count_cons d (img : ImageItem.t) l :
  Stats.count d (img :: l)
  = (if bool_decide (ImageItem.decision img = d) then 1 else 0) + Stats.count d l.
Proof.
  unfold Stats.count, Js.len. simpl.
  destruct (bool_decide (ImageItem.decision img = d)); simpl length; lia.
Qed.

Lemma count_nonneg d l : 0 <= Stats.count d l.
Proof. unfold Stats.count, Js.len. lia. Qed.

Lemma every_spec {A} (p : A -> bool) l :
  Js.every p l = true <-> forall j x, Js.get l j = Some x -> p x = true.
Proof.
  unfold Js.every. rewrite forallb_forall. split.
  - intros H j x Hget. apply H. unfold Js.get in Hget.
    destruct (j <? 0); [discriminate|].
    apply list_elem_of_In. by eapply list_elem_of_lookup_2.
  - intros H x Hin. apply list_elem_of_In, list_elem_of_lookup in Hin as [j Hj].
    apply (H (Z.of_nat j)). by rewrite JsFacts.get_of_nat.
Qed.

Lemma pending_count_zero l :
  Stats.count Pending l = 0
  <-> Js.every (fun img => negb (ImageItem.is_pending img)) l = true.
Proof.
  induction l as [|img l IH]; [done|].
  rewrite count_cons. pose proof (count_nonneg Pending l) as Hn.
  unfold Js.every in *. simpl. unfold ImageItem.is_pending at 1.
  destruct (bool_decide (ImageItem.decision img = Pending)); simpl.
  - split; [lia|discriminate].
  - rewrite <- IH. split; lia.
Qed.

(** X13: the counters of [stats] split the catalog: every record is
    counted once, as kept, deleted or unsorted, so the three counters add
    up to the total, which is the catalog's length; and the unsorted
    counter is zero exactly when the completion test (every record
    decided) holds. *)
Theorem stats_partition images :
  Stats.kept (Stats.of_images images) + Stats.deleted (Stats.of_images images)
    + Stats.pending (Stats.of_images images)
  = Stats.total (Stats.of_images images)
  /\ Stats.total (Stats.of_images images) = Js.len images
  /\ (Stats.pending (Stats.of_images images) = 0
      <-> Js.every (fun img => negb (ImageItem.is_pending img)) images = true).
Proof.
  split; [|split; [done|apply pending_count_zero]].
  simpl. induction images as [|img l IH]; [done|].
  rewrite !count_cons.
  replace (Js.len (img :: l)) with (1 + Js.len l) by (unfold Js.len; simpl length; lia).
  destruct (ImageItem.decision img);
    repeat match goal with
    | |- context [bool_decide ?P] =>
      first [rewrite (bool_decide_eq_true_2 P) by done
            |rewrite (bool_decide_eq_false_2 P) by done]
    end; lia.
Qed.

Lemma count_alter d' d (img : ImageItem.t) l : forall n,
  l !! n = Some img ->
  Stats.count d' (alter (ImageItem.with_decision d) n l)
  = Stats.count d' l
    - (if bool_decide (ImageItem.decision img = d') then 1 else 0)
    + (if bool_decide (d = d') then 1 else 0).
Proof.
  induction l as [|x l IH]; intros [|n] Hn; try discriminate.
  - injection Hn as ->.
    change (alter (ImageItem.with_decision d) 0%nat (img :: l))
      with (ImageItem.with_decision d img :: l).
    rewrite !count_cons. simpl. lia.
  - change (alter (ImageItem.with_decision d) (S n) (x :: l))
      with (x :: alter (ImageItem.with_decision d) n l).
    rewrite !count_cons, (IH n Hn). lia.
Qed.

(** X14: a decision on the host moves one record between the counters:
    the counter of the record's old decision loses one, the counter of
    the new decision gains one, and the total stays. *)
Theorem decision_moves_one_count now d i s old :
  isRemote s = false -> Js.get (images s) i = Some old ->
  exists s' eff,
    App.makeDecision now d (Some i) s = Some (s', eff)
    /\ Stats.total (Stats.of_images (images s'))
       = Stats.total (Stats.of_images (images s))
    /\ forall d',
         Stats.count d' (images s')
         = Stats.count d' (images s)
           - (if bool_decide (ImageItem.decision old = d') then 1 else 0)
           + (if bool_decide (d = d') then 1 else 0).
Proof.
  intros Hhost Hget.
  destruct (DecisionFacts.makeDecision_host now d i s Hhost
              (JsFacts.get_Some_range _ _ _ Hget))
    as (s' & eff & E & Himg & _).
  exists s', eff. split; [exact E|]. rewrite Himg. split.
  - simpl. apply JsFacts.len_update_at.
  - intros d'. unfold Js.update_at. apply count_alter.
    unfold Js.get in Hget. by destruct (i <? 0).
Qed.

Lemma decision_moves_one_count_witness :
  exists s' eff,
    App.makeDecision 5 Keep (Some 2) (Sample.host Sample.skip_catalog) = Some (s', eff)
    /\ Stats.count Keep (images s') = 2
    /\ Stats.count Pending (images s') = 1.
Proof.
  destruct (decision_moves_one_count 5 Keep 2 (Sample.host Sample.skip_catalog)
              (Sample.img "c" Pending) eq_refl eq_refl)
    as (s' & eff & E & _ & Hc).
  exists s', eff. split; [exact E|].
  split; [rewrite (Hc Keep)|rewrite (Hc Pending)]; reflexivity.
Defined.

Lemma commit_view s :
  view (App.commit s)
  = if (Js.len (images s) >? 0) && negb (isRemote s)
       && bool_decide (view s = Culling)
       && Js.every (fun img => negb (ImageItem.is_pending img)) (images s)
    then Summary else view s.
Proof.
  unfold App.commit, App.completion_effect. simpl.
  by destruct (_ && _).
Qed.

Lemma not_pending_decided (img : ImageItem.t) :
  negb (ImageItem.is_pending img) = true <-> ImageItem.decision img <> Pending.
Proof.
  unfold ImageItem.is_pending. destruct (decide (ImageItem.decision img = Pending)) as [E|E].
  - rewrite bool_decide_eq_true_2 by done. simpl. split; [discriminate|done].
  - rewrite bool_decide_eq_false_2 by done. done.
Qed.

(** X15: the summary opens exactly when the last unsorted record is
    decided.  On a host in the culling view, after a keep or delete
    decision on record [i] and the render that follows, the view is the
    summary if and only if no other record was still pending; otherwise
    the view stays on culling. *)
Theorem summary_opens_on_last_decision now d i s s' eff :
  isRemote s = false -> view s = Culling -> d <> Pending ->
  0 <= i < Js.len (images s) ->
  App.makeDecision now d (Some i) s = Some (s', eff) ->
  (view (App.commit s') = Summary
   <-> forall j, j <> i -> ~ pending_at (images s) j)
  /\ (view (App.commit s') = Summary \/ view (App.commit s') = Culling).
Proof.
  intros Hhost Hview Hd Hi E.
  destruct (DecisionFacts.makeDecision_host now d i s Hhost Hi)
    as (s1 & eff1 & E1 & Himg & _ & _ & _ & Hv & Hr).
  rewrite E in E1. injection E1 as <- <-.
  rewrite commit_view, Hr, Hv, Hview, Himg, JsFacts.len_update_at.
  rewrite bool_decide_eq_true_2 by done.
  destruct (Z.gtb_spec (Js.len (images s)) 0) as [_|]; [|lia]. simpl.
  destruct (Js.every _ _) eqn:Hev.
  - split; [|by left]. split; [intros _|done].
    intros j Hj (img & Hget & Hp).
    rewrite every_spec in Hev.
    specialize (Hev j img). rewrite JsFacts.get_update_at_ne in Hev by lia.
    apply Hev, not_pending_decided in Hget. done.
  - split; [|by right]. split; [discriminate|]. intros Hall. exfalso.
    assert (Js.every (fun img => negb (ImageItem.is_pending img))
              (Js.update_at (images s) i (ImageItem.with_decision d)) = true) as Ht;
      [|congruence].
    apply every_spec. intros j x Hget. apply not_pending_decided.
    destruct (decide (j = i)) as [->|Hne].
    + destruct (JsFacts.get_in_range (images s) i Hi) as [old Hold].
      rewrite (JsFacts.get_update_at_eq _ _ _ _ Hold) in Hget.
      injection Hget as <-. done.
    + rewrite JsFacts.get_update_at_ne in Hget by lia.
      intros Hp. apply (Hall j Hne). by exists x.
Qed.

Lemma summary_opens_on_last_decision_witness :
  exists s' eff,
    App.makeDecision 5 Keep (Some 0) (Sample.host Sample.last_pending_first)
      = Some (s', eff)
    /\ view (App.commit s') = Summary.
Proof.
  destruct (App.makeDecision 5 Keep (Some 0) (Sample.host Sample.last_pending_first))
    as [[s' eff]|] eqn:E; [|vm_compute in E; discriminate].
  exists s', eff. split; [reflexivity|].
  apply (summary_opens_on_last_decision 5 Keep 0 (Sample.host Sample.last_pending_first)
           s' eff eq_refl eq_refl); [done|vm_compute; split; congruence|exact E|].
  intros j Hj (img & Hget & Hp).
  assert (j = 1 \/ j = 2) as [-> | ->].
  { apply JsFacts.get_Some_range in Hget. unfold Js.len in Hget. simpl in Hget. lia. }
  all: vm_compute in Hget; injection Hget as <-; discriminate.
Defined.

(** X16: a catalog with nothing left to decide cannot be reopened on the
    host.  RESTART and a click on any thumbnail switch to the culling view,
    and the completion effect of the render that follows switches back to
    the summary; the cursor keeps the clicked position.  With a record
    still pending the culling view stays. *)
Theorem decided_catalog_reopens_on_summary idx s :
  isRemote s = false -> Js.len (images s) > 0 ->
  (Js.every (fun img => negb (ImageItem.is_pending img)) (images s) = true ->
   view (App.commit (AppEvents.openRecord idx s)) = Summary
   /\ view (App.commit (AppEvents.restart s)) = Summary)
  /\ (Js.every (fun img => negb (ImageItem.is_pending img)) (images s) = false ->
      view (App.commit (AppEvents.openRecord idx s)) = Culling
      /\ view (App.commit (AppEvents.restart s)) = Culling)
  /\ currentIndex (App.commit (AppEvents.openRecord idx s)) = idx
  /\ currentIndex (App.commit (AppEvents.restart s)) = 0
  /\ images (App.commit (AppEvents.openRecord idx s)) = images s.
Proof.
  intros Hhost Hlen.
  assert (Hgt : (Js.len (images s) >? 0) = true) by (apply Z.gtb_lt; lia).
  split; [|split].
  - intros Hev. rewrite !commit_view. simpl. by rewrite Hgt, Hhost, Hev.
  - intros Hev. rewrite !commit_view. simpl. by rewrite Hgt, Hhost, Hev.
  - destruct (DecisionFacts.commit_fields (AppEvents.openRecord idx s)) as (Hi & Hc & _).
    destruct (DecisionFacts.commit_fields (AppEvents.restart s)) as (_ & Hc' & _).
    rewrite Hc, Hc', Hi. done.
Qed.

Lemma decided_catalog_reopens_on_summary_witness :
  view (App.commit (AppEvents.restart
          (Sample.host [Sample.img "a" Keep; Sample.img "b" Delete]))) = Summary.
Proof.
  apply (decided_catalog_reopens_on_summary 1
           (Sample.host [Sample.img "a" Keep; Sample.img "b" Delete]) eq_refl);
    [unfold Js.len; simpl; lia|reflexivity].
Defined.
End CompletionFacts.

(** ** The remote mirror *)

Module MirrorFacts.
Import AppState.








(** X18: a remote never saves and never changes a decision by itself.
    Whichever of the seven messages it receives, the handler has an
    outcome, its effects hold no [saveSession] and no [saveDecision] call,
    and the catalog, the history and the directory handle are as before,
    except that [INIT_SYNC] replaces the catalog by the host's; its own
    decide and undo leave its state untouched, save nothing and send at
    most one intent. *)
Theorem remote_never_persists now msg s :
  isRemote s = true ->
  (exists s' eff,
     App.handlePeerMessage now msg s = Some (s', eff)
     /\ Forall (fun e => is_save e = false) eff
     /\ isRemote s' = true
     /\ history s' = history s
     /\ rootHandle s' = rootHandle s
     /\ ((forall imgs idx root st v, msg <> INIT_SYNC imgs idx root st v) ->
         images s' = images s))
  /\ (forall d idx, exists eff,
        App.makeDecision now d idx s = Some (s, eff)
        /\ (length eff <= 1)%nat
        /\ Forall (fun e => is_save e = false) eff)
  /\ (exists eff,
        App.undoLast now s = Some (s, eff)
        /\ (length eff <= 1)%nat
        /\ Forall (fun e => is_save e = false) eff).
Proof.
  intros Hr.
  assert (Hdec : forall d idx, exists eff,
            App.makeDecision now d idx s = Some (s, eff)
            /\ (length eff <= 1)%nat
            /\ Forall (fun e => is_save e = false) eff).
  { intros d idx. unfold App.makeDecision. rewrite Hr.
    destruct (_ >=? _); [exists []; repeat split; [simpl; lia|constructor]|].
    simpl. destruct (connection s); eexists; (split; [reflexivity|]);
      (split; [simpl; lia|]); repeat constructor. }
  split; [|split; [exact Hdec|]].
  - destruct msg as [imgs idx root st v|index id nm url|d index|index|
                     |v [index|]|index st];
      simpl; rewrite ?Hr; simpl.
    + eexists _, _. split; [reflexivity|]. repeat split; try done.
      intros Hne. by destruct (Hne imgs idx root st v).
    + eexists _, _. split; [reflexivity|]. by repeat split.
    + destruct (Hdec d (Some index)) as (eff & E & _ & Hf).
      exists s, eff. by repeat split.
    + eexists _, _. split; [reflexivity|]. by repeat split.
    + eexists _, _. split; [reflexivity|]. by repeat split.
    + eexists _, _. split; [reflexivity|]. by repeat split.
    + eexists _, _. split; [reflexivity|]. by repeat split.
    + eexists _, _. split; [reflexivity|]. by repeat split.
  - unfold App.undoLast. rewrite Hr.
    destruct (connection s); eexists; (split; [reflexivity|]);
      (split; [simpl; lia|]); repeat constructor.
Qed.

Lemma remote_never_persists_witness :
  (exists s' eff,
     App.handlePeerMessage 5 (DECISION Keep 1) (Sample.remote Sample.skip_catalog)
     = Some (s', eff)
     /\ Forall (fun e => is_save e = false) eff
     /\ images s' = images (Sample.remote Sample.skip_catalog))
  /\ App.handlePeerMessage 5 (SYNC_INDEX 2 (Stats.of_images Sample.skip_catalog))
                           (Sample.remote Sample.skip_catalog)
     = Some (Sample.remote Sample.skip_catalog, []).
Proof.
  destruct (remote_never_persists 5 (DECISION Keep 1)
              (Sample.remote Sample.skip_catalog) eq_refl)
    as ((s' & eff & E & Hf & _ & _ & _ & Hi) & _).
  split; [|reflexivity].
  exists s', eff. split; [exact E|]. split; [exact Hf|].
  apply Hi. discriminate.
Defined.
End MirrorFacts.

(** ** Checkpoints and resuming a project *)

Module ResumeFacts.
Import AppState Db.

Lemma getHandleLocally_frame name w :
  healthy w ->
  exists w', getHandleLocally name w = (Ok (handles w !! name), w')
    /\ sessions w' = sessions w /\ decisions w' = decisions w
    /\ handles w' = handles w /\ faults w' = faults w.
Proof.
  intros H.
  destruct (DbFacts.ensure_idb_healthy w H) as (w1 & E & Hs & Hd & Hh & Hf & _).
  unfold getHandleLocally. erewrite DbFacts.bind_ok by exact E.
  unfold bind, gets, request. simpl. rewrite Hf, H. simpl.
  eexists. split; [by rewrite Hh|]. simpl. auto.
Qed.

(** The gateway calls of a handler, carried out on a backend that answers. *)
Lemma perform_all_healthy es : forall w,
  healthy w -> well_keyed (decisions w) ->
  exists w',
    perform_all es w = (Ok tt, w')
    /\ healthy w' /\ well_keyed (decisions w')
    /\ decisions w'
       = foldl (fun l d => upsert d l) (decisions w) (saved_decisions es)
    /\ handles w'
       = foldl (fun h s => handles_after_save s h) (handles w) (saved_sessions es).
Proof.
  induction es as [|e es IH]; intros w H Hwk.
  - exists w. split; [done|]. split; [done|]. split; [done|]. split; done.
  - destruct e as [m|sess|d|msg].
    + destruct (IH w H Hwk) as (w' & E & Hrest). exists w'. split; [exact E|exact Hrest].
    + destruct (GatewayFacts.saveSession_healthy sess w H)
        as (w1 & E1 & _ & Hd1 & Hh1 & Hf1).
      destruct (IH w1) as (w' & E & Hh' & Hwk' & Hd' & Hhd');
        [by eapply DbFacts.healthy_faults; [|exact H]|by rewrite Hd1|].
      exists w'. split.
      { simpl. erewrite DbFacts.bind_ok by exact E1. exact E. }
      split; [done|]. split; [done|]. split.
      * by rewrite Hd', Hd1.
      * by rewrite Hhd', Hh1.
    + destruct (UpsertFacts.saveDecision_healthy d w H)
        as (w1 & E1 & Hd1 & _ & Hh1 & Hf1).
      destruct (IH w1) as (w' & E & Hh' & Hwk' & Hd' & Hhd');
        [by eapply DbFacts.healthy_faults; [|exact H]
        |rewrite Hd1; by apply UpsertFacts.upsert_well_keyed|].
      exists w'. split.
      { simpl. erewrite DbFacts.bind_ok by exact E1. exact E. }
      split; [done|]. split; [done|]. split.
      * by rewrite Hd', Hd1.
      * by rewrite Hhd', Hh1.
    + destruct (IH w H Hwk) as (w' & E & Hrest). exists w'. split; [exact E|exact Hrest].
Qed.

Lemma persisted_after_upsert d l :
  well_keyed l ->
  persisted (ImageDecision.directoryName d) (ImageDecision.relativePath d) (upsert d l)
  = Some (ImageDecision.decision d).
Proof.
  intros Hwk. destruct (UpsertFacts.upsert_written d l) as (r & Hin & Hk & Hdec).
  destruct (UpsertFacts.upsert_well_keyed d l Hwk) as [_ Hkeys].
  pose proof (UpsertFacts.persisted_unique _ _ Hkeys Hin) as Hp.
  unfold record_key in Hk. injection Hk as Hdir Hpath.
  by rewrite Hdir, Hpath, Hdec in Hp.
Qed.

Lemma or_else_some name fallback :
  name <> EmptyString -> Js.or_else (Some name) fallback = name.
Proof.
  intros H. unfold Js.or_else. by destruct (String.eqb_spec name EmptyString).
Qed.

Lemma get_map {A B} (f : A -> B) l j :
  Js.get (List.map f l) j = option_map f (Js.get l j).
Proof.
  unfold Js.get. destruct (j <? 0); [done|].
  change (List.map f l) with (f <$> l). by rewrite list_lookup_fmap.
Qed.

(** [loadFolder] on a backend that answers. *)
Lemma loadFolder_healthy scannedImages defaultName handle overrideName s w :
  healthy w ->
  exists s' w',
    App.loadFolder (Some (scannedImages, defaultName)) handle overrideName s w
      = (s', w')
    /\ images s'
       = List.map
           (App.merge_decision
              (decision_map
                 (List.filter (decision_in (Js.or_else overrideName defaultName))
                              (decisions w))))
           scannedImages
    /\ rootFolderName s' = Js.or_else overrideName defaultName
    /\ rootHandle s' = Some handle
    /\ history s' = []
    /\ isRemote s' = isRemote s
    /\ decisions w' = decisions w /\ sessions w' = sessions w
    /\ faults w' = faults w
    /\ handles w' = <[Js.or_else overrideName defaultName := handle]> (handles w).
Proof.
  intros H. unfold App.loadFolder.
  rewrite (DbFacts.getDecisionsForDirectory_healthy _ w H).
  destruct (DbFacts.storeHandleLocally_healthy
              (Js.or_else overrideName defaultName) handle (tick w))
    as (w2 & E & Hs & Hd & Hh & Hf & _); [by eapply DbFacts.healthy_faults; [|exact H]|].
  rewrite E. eexists _, _. split; [reflexivity|]. simpl.
  by rewrite Hs, Hd, Hh, Hf.
Qed.

(** Resuming after a checkpoint that saved one decision and one session. *)
Lemma resume_after_checkpoint eff dec sess h permissionReturns scan picked s0 w
    scanned defaultName :
  healthy w -> well_keyed (decisions w) ->
  saved_decisions eff = [dec] -> saved_sessions eff = [sess] ->
  CullSession.directoryName sess = ImageDecision.directoryName dec ->
  CullSession.handle sess = Some h ->
  ImageDecision.directoryName dec <> EmptyString ->
  CullSession.directoryName picked = ImageDecision.directoryName dec ->
  permissionReturns h = true -> scan h = Some (scanned, defaultName) ->
  exists w1 s2 w2,
    perform_all eff w = (Ok tt, w1)
    /\ AppEvents.handleResumeProject permissionReturns scan picked s0 w1
       = AppEvents.Loaded s2 w2
    /\ rootHandle s2 = Some h
    /\ rootFolderName s2 = ImageDecision.directoryName dec
    /\ history s2 = []
    /\ forall j img,
         Js.get scanned j = Some img ->
         ImageItem.relativePath img = ImageDecision.relativePath dec ->
         Js.get (images s2) j
         = Some (ImageItem.with_decision (ImageDecision.decision dec) img).
Proof.
  intros H Hwk Hdecs Hsess Hdir Hh Hne Hpicked Hperm Hscan.
  destruct (perform_all_healthy eff w H Hwk) as (w1 & E1 & H1 & Hwk1 & Hd1 & Hh1).
  rewrite Hdecs in Hd1. rewrite Hsess in Hh1. simpl in Hd1, Hh1.
  unfold handles_after_save in Hh1. rewrite Hh, Hdir in Hh1.
  exists w1. unfold AppEvents.handleResumeProject.
  destruct (getHandleLocally_frame (CullSession.directoryName picked) w1 H1)
    as (w1' & E2 & _ & Hd2 & _ & Hf2).
  rewrite E2, Hpicked, Hh1, lookup_insert_eq, Hperm, Hscan.
  destruct (loadFolder_healthy scanned defaultName h
              (Some (ImageDecision.directoryName dec)) s0 w1')
    as (s2 & w2 & E3 & Himg & Hname & Hroot & Hhist & _);
    [by eapply DbFacts.healthy_faults; [|exact H1]|].
  rewrite E3. exists s2, w2. split; [exact E1|]. split; [reflexivity|].
  rewrite (or_else_some _ _ Hne) in Himg, Hname.
  split; [exact Hroot|]. split; [exact Hname|]. split; [exact Hhist|].
  intros j img Hget Hpath. rewrite Himg, get_map, Hget. simpl.
  unfold App.merge_decision. rewrite Hpath, Hd2, Hd1.
  fold (persisted (ImageDecision.directoryName dec) (ImageDecision.relativePath dec)
                  (upsert dec (decisions w))).
  by rewrite persisted_after_upsert.
Qed.




(** What an undo on the host saves. *)
Lemma undoLast_checkpoint now s i old h :
  isRemote s = false -> rootHandle s = Some h ->
  Js.last_elem (historyRef s) = Some i -> Js.get (images s) i = Some old ->
  exists s' eff sess,
    App.undoLast now s = Some (s', eff)
    /\ saved_decisions eff
       = [ImageDecision.mk (rootFolderName s) (ImageItem.relativePath old) Pending]
    /\ saved_sessions eff = [sess]
    /\ CullSession.directoryName sess = rootFolderName s
    /\ CullSession.handle sess = Some h
    /\ CullSession.lastIndex sess = i
    /\ currentIndex s' = i
    /\ Js.get (images s') i = Some (ImageItem.with_decision Pending old).
Proof.
  intros Hhost Hh Hlast Hget. unfold App.undoLast. rewrite Hhost, Hlast, Hget, Hh.
  eexists _, _, _. split; [reflexivity|]. simpl.
  by rewrite (JsFacts.get_update_at_eq _ _ _ _ Hget).
Qed.

(** X20: an undo outlives the session too.  Undo on a host with an open,
    named directory puts the last decided record back to pending, moves
    the cursor onto it, and saves the pending decision and a session that
    is not done; on a backend that answers and holds one record per
    directory and path, the persisted decision of that path is then
    pending, and a later resume (the permission calls returning, the scan
    succeeding) loads every record with that path as pending.  Without
    the one-record-per-key condition the lookup may return another record
    of the key. *)
Theorem undo_survives_resume now i s old h w permissionReturns scan picked
    s0 scanned defaultName :
  isRemote s = false -> rootHandle s = Some h ->
  rootFolderName s <> EmptyString ->
  Js.last_elem (historyRef s) = Some i -> Js.get (images s) i = Some old ->
  healthy w -> well_keyed (decisions w) ->
  CullSession.directoryName picked = rootFolderName s ->
  permissionReturns h = true -> scan h = Some (scanned, defaultName) ->
  exists s1 eff w1 s2 w2,
    App.undoLast now s = Some (s1, eff)
    /\ currentIndex s1 = i
    /\ pending_at (images s1) i
    /\ perform_all eff w = (Ok tt, w1)
    /\ persisted (rootFolderName s) (ImageItem.relativePath old) (decisions w1)
       = Some Pending
    /\ AppEvents.handleResumeProject permissionReturns scan picked s0 w1
       = AppEvents.Loaded s2 w2
    /\ forall j img,
         Js.get scanned j = Some img ->
         ImageItem.relativePath img = ImageItem.relativePath old ->
         pending_at (images s2) j.
Proof.
  intros Hhost Hh Hne Hlast Hget H Hwk Hpicked Hperm Hscan.
  destruct (undoLast_checkpoint now s i old h Hhost Hh Hlast Hget)
    as (s1 & eff & sess & E & Hdecs & Hsess & Hdir & Hhandle & _ & Hcur & Hrec1).
  destruct (resume_after_checkpoint eff _ sess h permissionReturns scan picked s0 w
              scanned defaultName H Hwk Hdecs Hsess Hdir Hhandle Hne Hpicked Hperm Hscan)
    as (w1 & s2 & w2 & E1 & E2 & _ & _ & _ & Hrec).
  exists s1, eff, w1, s2, w2. split; [exact E|]. split; [exact Hcur|].
  split; [by eexists; split; [exact Hrec1|]|]. split; [exact E1|]. split.
  - destruct (perform_all_healthy eff w H Hwk) as (w1' & E1' & _ & _ & Hd & _).
    rewrite E1 in E1'. injection E1' as <-. rewrite Hd, Hdecs. simpl.
    exact (persisted_after_upsert
             (ImageDecision.mk (rootFolderName s) (ImageItem.relativePath old) Pending)
             (decisions w) Hwk).
  - split; [exact E2|]. intros j img Hj Hp.
    eexists. split; [exact (Hrec j img Hj Hp)|reflexivity].
Qed.

Lemma undo_survives_resume_witness :
  exists s1 eff w1,
    App.undoLast 6 (AppState.sync_refs SampleCleanup.host) = Some (s1, eff)
    /\ perform_all eff SampleDb.up = (Ok tt, w1)
    /\ persisted "shoot" "shoot/C.jpg" (decisions w1) = Some Pending.
Proof.
  assert (Hup : healthy SampleDb.up) by (intros n; reflexivity).
  assert (Hwk : well_keyed SampleDb.decisions)
    by (split; apply (bool_decide_unpack _); vm_compute; reflexivity).
  assert (Hne : "shoot" <> EmptyString) by discriminate.
  destruct (undo_survives_resume 6 2 (AppState.sync_refs SampleCleanup.host)
              (Sample.img "C" Delete) 7%nat SampleDb.up (fun _ => true)
              (fun _ => Some (SampleCleanup.catalog, "shoot"))
              (CullSession.mk "shoot" 0 4 0 false None) (Sample.host [])
              SampleCleanup.catalog "shoot"
              eq_refl eq_refl Hne eq_refl eq_refl Hup Hwk eq_refl eq_refl eq_refl)
    as (s1 & eff & w1 & s2 & w2 & E & _ & _ & E1 & Hp & _).
  exists s1, eff, w1. split; [exact E|]. split; [exact E1|exact Hp].
Defined.
End ResumeFacts.

(** ** A host session never leaves the catalog *)

Module SessionFacts.
Import AppState.

(** The invariant of a host session. *)
Lemma nextIndex_nonneg l i : 0 <= i -> 0 <= App.nextIndex l i.
Proof.
  intros Hi.
  destruct (DecisionFacts.nextIndex_spec l i)
    as [(Hlt & _)|[(_ & (img & Hget & _) & _)|(_ & ->)]]; [lia| |lia].
  by apply JsFacts.get_Some_range in Hget as [? _].
Qed.

Lemma recomputeIndex_nonneg tid l : 0 <= App.recomputeIndex tid l.
Proof.
  unfold App.recomputeIndex. destruct tid as [tid|]; [|done].
  destruct (String.eqb tid EmptyString); [done|].
  match goal with |- context [Js.findIndex ?p l =? -1] =>
    destruct (JsFacts.findIndex_spec p l) as [[-> _]|(x & Hge & _)] end.
  - simpl.
    match goal with |- context [Js.findIndex ?p l =? -1] =>
      destruct (JsFacts.findIndex_spec p l) as [[-> _]|(x & Hge & _)] end; [done|].
    destruct (_ =? -1); lia.
  - destruct (_ =? -1); [|lia].
    match goal with |- context [Js.findIndex ?p l =? -1] =>
      destruct (JsFacts.findIndex_spec p l) as [[-> _]|(y & Hge' & _)] end; [done|].
    destruct (_ =? -1); lia.
Qed.

Lemma step_keeps_invariant now a s :
  isRemote s = false -> history_in_range s -> cursor_ok s ->
  exists s' eff,
    AppEvents.step now a (App.commit s) = Some (s', eff)
    /\ isRemote s' = false /\ history_in_range s' /\ cursor_ok s'.
Proof.
  intros Hhost Hwf Hcur.
  destruct (DecisionFacts.commit_fields s) as (Hci & Hcc & Hch & Hchr & Hccr & Hcrem).
  assert (Hhost' : isRemote (App.commit s) = false) by (by rewrite Hcrem).
  assert (Hwf' : history_in_range (App.commit s))
    by (unfold history_in_range; by rewrite Hci, Hch).
  assert (Hcur' : cursor_ok (App.commit s)) by (unfold cursor_ok; by rewrite Hcc).
  destruct a as [d| |idx| |granted fileRemoved]; simpl.
  - (* a decision on the viewed record *)
    change (App.makeDecision now d None (App.commit s))
      with (App.makeDecision now d (Some (currentIndexRef (App.commit s))) (App.commit s)).
    rewrite Hccr.
    destruct (Z.lt_ge_cases (currentIndex s) (Js.len (images (App.commit s))))
      as [Hlt|Hge].
    + destruct (DecisionFacts.makeDecision_host now d (currentIndex s) (App.commit s)
                  Hhost' (conj Hcur Hlt))
        as (s' & eff & E & Himg & Hhist & Hidx & _ & _ & Hrem).
      exists s', eff. split; [exact E|]. split; [exact Hrem|]. split.
      * by eapply DecisionFacts.decide_keeps_history_in_range; [| |exact E].
      * unfold cursor_ok. rewrite Hidx. by apply nextIndex_nonneg.
    + exists (App.commit s), []. split; [|done].
      unfold App.makeDecision, App.targetIndexOf.
      by destruct (Z.geb_spec (currentIndex s) (Js.len (images (App.commit s)))); [|lia].
  - (* undo *)
    unfold App.undoLast. rewrite Hhost', Hchr. unfold Js.last_elem.
    destruct (last (history s)) as [lastIndex|] eqn:Hlast; [|by eauto 10].
    apply last_Some in Hlast as [h' Hh'].
    assert (Hin : 0 <= lastIndex < Js.len (images s)).
    { unfold history_in_range in Hwf. rewrite Hh' in Hwf.
      apply Forall_app in Hwf as [_ Hl]. exact (proj1 (Forall_singleton _ _) Hl). }
    rewrite Hci. destruct (JsFacts.get_in_range (images s) lastIndex Hin) as [old ->].
    eexists _, _. split; [reflexivity|]. split; [exact Hhost'|]. split.
    + unfold history_in_range. simpl. rewrite JsFacts.len_update_at, Hch, Hh'.
      unfold Js.slice_init. rewrite removelast_last.
      unfold history_in_range in Hwf. rewrite Hh' in Hwf.
      by apply Forall_app in Hwf as [Hl _].
    + unfold cursor_ok. simpl. lia.
  - (* a thumbnail *)
    eexists _, _. split; [reflexivity|]. split; [exact Hhost'|].
    split; [exact Hwf'|]. unfold cursor_ok. simpl. lia.
  - (* RESTART *)
    eexists _, _. split; [reflexivity|]. split; [exact Hhost'|].
    split; [exact Hwf'|]. unfold cursor_ok. simpl. lia.
  - (* the live deletion *)
    unfold App.executeLiveDeletion.
    destruct (rootHandle (App.commit s)); [|by eauto 10].
    destruct granted; simpl; [|by eauto 10].
    destruct (App.deletion_loop _ _ _ _) as [[updatedImages currentCount] calls].
    eexists _, _. split; [reflexivity|]. split; [exact Hhost'|]. split.
    + unfold history_in_range. simpl. constructor.
    + unfold cursor_ok. simpl. apply recomputeIndex_nonneg.
Qed.

(** X21: a host session never writes outside its catalog.  From a host
    state whose history indices lie inside the catalog and whose cursor is
    not negative, every sequence of decisions on the viewed record, undos,
    thumbnail clicks, RESTARTs and live deletions has an outcome (no step
    touches an index outside the catalog), and the end state again has its
    history inside the catalog and a cursor that is not negative. *)
Theorem host_session_stays_in_catalog acts : forall s,
  isRemote s = false -> history_in_range s -> cursor_ok s ->
  exists s' effs,
    AppEvents.run acts s = Some (s', effs)
    /\ isRemote s' = false /\ history_in_range s' /\ cursor_ok s'.
Proof.
  induction acts as [|[now a] acts IH]; intros s Hhost Hwf Hcur.
  - exists s, []. by repeat split.
  - destruct (step_keeps_invariant now a s Hhost Hwf Hcur)
      as (s1 & out1 & E1 & Hhost1 & Hwf1 & Hcur1).
    destruct (IH s1 Hhost1 Hwf1 Hcur1) as (s2 & out2 & E2 & Hinv).
    exists s2, (out1 ++ out2). split; [|exact Hinv].
    simpl. by rewrite E1, E2.
Qed.

Lemma host_session_stays_in_catalog_witness :
  exists s' effs,
    AppEvents.run [(1, AppEvents.Decide Keep); (2, AppEvents.Undo);
                   (3, AppEvents.Open 3); (4, AppEvents.Decide Delete);
                   (5, AppEvents.Cleanup true SampleCleanup.all_files);
                   (6, AppEvents.Undo)]
                  (Sample.host Sample.skip_catalog) = Some (s', effs)
    /\ history_in_range s'.
Proof.
  destruct (host_session_stays_in_catalog
              [(1, AppEvents.Decide Keep); (2, AppEvents.Undo);
               (3, AppEvents.Open 3); (4, AppEvents.Decide Delete);
               (5, AppEvents.Cleanup true SampleCleanup.all_files);
               (6, AppEvents.Undo)]
              (Sample.host Sample.skip_catalog) eq_refl)
    as (s' & effs & E & _ & Hwf & _).
  - constructor.
  - unfold cursor_ok. simpl. lia.
  - exists s', effs. split; [exact E|exact Hwf].
Defined.
End SessionFacts.

(** ** Relinking and loading *)

Module RelinkLoadFacts.
Import AppState Db.

(** [relinkSession] on a backend that answers. *)
Lemma relinkSession_healthy old new h w :
  healthy w ->
  NoDup (List.map DecisionRecord.id (decisions w)) ->
  exists w',
    relinkSession old new h true w = (Ok tt, w')
    /\ decisions w' = migrated old new (decisions w)
    /\ handles w' = <[new := h]> (delete old (handles w))
    /\ faults w' = faults w.
Proof.
  intros H Hnd. unfold relinkSession.
  match goal with
  | |- context [bind (catch_null _) (fun _ => bind _ (fun _ => ?rest))] =>
    destruct (DbFacts.relink_session_step old new rest w H)
      as (w1 & E1 & Hs1 & Hd1 & Hh1 & Hf1 & Hp1)
  end.
  rewrite E1. clear E1.
  assert (H1 : healthy w1) by (by eapply DbFacts.healthy_faults; [|exact H]).
  erewrite DbFacts.bind_ok by (by apply DbFacts.getFullList_healthy).
  change (decisions (tick w1)) with (decisions w1). rewrite Hd1.
  set (rs := List.filter (decision_in old) (decisions w)).
  destruct (DbFacts.migrate_healthy new (Js.len rs) rs 0 (tick w1)) as
    (w2 & E2 & Hd2 & Hs2 & Hh2 & Hf2 & Hp2).
  { by eapply DbFacts.healthy_faults; [|exact H1]. }
  { intros r Hr. change (decisions (tick w1)) with (decisions w1). rewrite Hd1.
    apply existsb_exists. exists r. split; [|apply Nat.eqb_refl].
    by apply filter_In in Hr as [Hr _]. }
  erewrite DbFacts.bind_ok by exact E2.
  assert (H2 : healthy w2)
    by (by eapply DbFacts.healthy_faults; [|exact H1]; rewrite Hf2).
  destruct (DbFacts.deleteHandleLocally_healthy old w2 H2)
    as (w3 & E3 & Hs3 & Hd3 & Hh3 & Hf3 & Hp3).
  erewrite DbFacts.bind_ok by exact E3.
  assert (H3 : healthy w3) by (by eapply DbFacts.healthy_faults; [|exact H2]).
  destruct (DbFacts.storeHandleLocally_healthy new h w3 H3)
    as (w4 & E4 & Hs4 & Hd4 & Hh4 & Hf4 & Hp4).
  exists w4. split; [exact E4|]. split; [|split].
  - rewrite Hd4, Hd3, Hd2. change (decisions (tick w1)) with (decisions w1).
    rewrite Hd1. by apply DbFacts.migrated_by_ids.
  - rewrite Hh4, Hh3, Hh2. change (handles (tick w1)) with (handles w1).
    by rewrite Hh1.
  - rewrite Hf4, Hf3, Hf2. change (faults (tick w1)) with (faults w1).
    by rewrite Hf1.
Qed.

Lemma getAllSessions_world w :
  decisions (snd (getAllSessions w)) = decisions w
  /\ handles (snd (getAllSessions w)) = handles w
  /\ sessions (snd (getAllSessions w)) = sessions w.
Proof.
  unfold getAllSessions, sessions_sorted, try_catch, bind, gets, ret, request.
  simpl. by destruct (faults w (clock w)).
Qed.

(** X22: relinking keeps what a load shows.  When a project stored under
    [old] is relinked to a directory picked under the name [new] (the
    backend answering, record ids distinct, nothing stored under [new]
    yet), the catalog that [confirmPathSelection] loads is the scan merged
    with the decisions that were stored under [old]: the same catalog that
    loading under [old] would have given before; the project is open under
    [new] with the picked handle, which is the only handle the store keeps
    for the two names. *)
Theorem relink_then_load_keeps_decisions old new handle scannedImages defaultName s w :
  healthy w ->
  NoDup (List.map DecisionRecord.id (decisions w)) ->
  (forall r, In r (decisions w) -> decision_in new r = false) ->
  old <> EmptyString -> new <> EmptyString -> old <> new ->
  exists s' w',
    AppEvents.confirmPathSelection (Some old) new handle
      (Some (scannedImages, defaultName)) s w = (s', w')
    /\ images s'
       = List.map
           (App.merge_decision
              (decision_map (List.filter (decision_in old) (decisions w))))
           scannedImages
    /\ images s'
       = images (fst (App.loadFolder (Some (scannedImages, defaultName)) handle
                                     (Some old) s w))
    /\ rootFolderName s' = new
    /\ rootHandle s' = Some handle
    /\ handles w' !! new = Some handle
    /\ handles w' !! old = None
    /\ decisions w' = migrated old new (decisions w).
Proof.
  intros H Hnd Hfresh Hold Hnew Hne.
  unfold AppEvents.confirmPathSelection.
  destruct (String.eqb_spec old EmptyString) as [|_]; [done|].
  change (default EmptyString (Some old)) with old. cbn [negb].
  destruct (relinkSession_healthy old new handle w H Hnd)
    as (w1 & E1 & Hd1 & Hh1 & Hf1).
  rewrite E1.
  destruct (ResumeFacts.loadFolder_healthy scannedImages defaultName handle
              (Some new) s w1)
    as (s' & w2 & E2 & Himg & Hname & Hroot & _ & _ & Hd2 & _ & _ & Hh2);
    [by eapply DbFacts.healthy_faults; [|exact H]|].
  rewrite E2. eexists _, _. split; [reflexivity|].
  destruct (getAllSessions_world w2) as (Hd3 & Hh3 & _).
  rewrite (ResumeFacts.or_else_some _ _ Hnew) in Himg, Hname, Hh2.
  assert (Hcat : images s'
                 = List.map
                     (App.merge_decision
                        (decision_map (List.filter (decision_in old) (decisions w))))
                     scannedImages).
  { rewrite Himg, Hd1, DbFacts.filter_migrated_fresh by done.
    by rewrite DbFacts.decision_map_renamed. }
  split; [exact Hcat|]. split.
  { destruct (ResumeFacts.loadFolder_healthy scannedImages defaultName handle
                (Some old) s w H) as (s0 & w0 & E0 & Himg0 & _).
    rewrite E0. simpl. rewrite Himg0, (ResumeFacts.or_else_some _ _ Hold). exact Hcat. }
  split; [exact Hname|]. split; [exact Hroot|].
  rewrite Hh3, Hh2, Hh1, Hd3, Hd2.
  split; [by rewrite lookup_insert_eq|]. split; [|exact Hd1].
  rewrite !lookup_insert_ne by done. apply lookup_delete_eq.
Qed.

Lemma relink_then_load_keeps_decisions_witness :
  exists s' w',
    AppEvents.confirmPathSelection (Some "shoot") "archive" 9%nat
      (Some (Sample.fresh_catalog, "archive")) (Sample.host []) SampleDb.up = (s', w')
    /\ List.map ImageItem.decision (images s') = [Keep; Delete; Pending; Pending]
    /\ rootFolderName s' = "archive".
Proof.
  assert (Hup : healthy SampleDb.up) by (intros n; reflexivity).
  assert (Hnd : NoDup (List.map DecisionRecord.id (decisions SampleDb.up)))
    by (apply (bool_decide_unpack _); vm_compute; reflexivity).
  assert (Hfresh : forall r, In r (decisions SampleDb.up) ->
                     decision_in "archive" r = false).
  { intros r [<-|[<-|[<-|[]]]]; reflexivity. }
  destruct (relink_then_load_keeps_decisions "shoot" "archive" 9%nat
              Sample.fresh_catalog "archive" (Sample.host []) SampleDb.up
              Hup Hnd Hfresh)
    as (s' & w' & E & Himg & _ & Hname & _); [discriminate..|].
  exists s', w'. split; [exact E|]. split; [|exact Hname].
  rewrite Himg. reflexivity.
Defined.

Lemma getDecisionsForDirectory_fails dir w :
  faults w (clock w) = true -> getDecisionsForDirectory dir w = (Ok ∅, tick w).
Proof.
  intros H. unfold getDecisionsForDirectory, getFullList, try_catch, bind, gets,
    ret, request. simpl. by rewrite H.
Qed.

Lemma storeHandleLocally_ok name h w :
  (forall k, (k < 3)%nat -> faults w (clock w + k)%nat = false) ->
  exists w',
    storeHandleLocally name h w = (Ok tt, w')
    /\ sessions w' = sessions w /\ decisions w' = decisions w
    /\ handles w' = <[name := h]> (handles w).
Proof.
  intros H.
  pose proof (H 0%nat ltac:(lia)) as H0. rewrite Nat.add_0_r in H0.
  pose proof (H 1%nat ltac:(lia)) as H1. rewrite Nat.add_1_r in H1.
  pose proof (H 2%nat ltac:(lia)) as H2.
  replace (clock w + 2)%nat with (S (S (clock w))) in H2 by lia.
  unfold storeHandleLocally, ensure_idb, init, try_catch, bind, gets, modify,
    ret, request.
  destruct (idb w) eqn:Hidb; simpl; rewrite ?Hidb, ?H0; simpl; rewrite ?H1; simpl;
    rewrite ?H2; simpl; eexists; (split; [reflexivity|]); by repeat split.
Qed.

(** X23: a failed decision lookup is taken for a fresh directory.  When
    the request of [getDecisionsForDirectory] fails and the next requests
    are answered, [loadFolder] still opens the directory: the catalog is
    the scan as it is, whatever decisions the backend holds for that
    directory, the cursor is on the first pending record of the scan, and
    the stored decisions are left as they were. *)
Theorem failed_lookup_loads_undecided scannedImages defaultName handle overrideName s w :
  faults w (clock w) = true ->
  (forall k, (1 <= k <= 3)%nat -> faults w (clock w + k)%nat = false) ->
  exists s' w',
    App.loadFolder (Some (scannedImages, defaultName)) handle overrideName s w
      = (s', w')
    /\ images s' = scannedImages
    /\ rootHandle s' = Some handle
    /\ history s' = []
    /\ decisions w' = decisions w
    /\ ((exists img, In img scannedImages /\ ImageItem.decision img = Pending) ->
        view s' = Culling /\ pending_at scannedImages (currentIndex s')).
Proof.
  intros Hfail Hok. unfold App.loadFolder.
  rewrite (getDecisionsForDirectory_fails _ w Hfail).
  destruct (storeHandleLocally_ok (Js.or_else overrideName defaultName) handle (tick w))
    as (w2 & E & _ & Hd & _).
  { intros k Hk. simpl. replace (S (clock w + k)) with (clock w + S k)%nat by lia.
    apply Hok. lia. }
  rewrite E.
  assert (Hsame : List.map (App.merge_decision ∅) scannedImages = scannedImages).
  { erewrite List.map_ext; [apply List.map_id|].
    intros img. unfold App.merge_decision. by rewrite lookup_empty. }
  rewrite Hsame. eexists _, _. split; [reflexivity|]. simpl.
  split; [done|]. split; [done|]. split; [done|]. split; [exact Hd|].
  intros (img & Hin & Hp).
  destruct (LoadFacts.start_position scannedImages)
    as [(Hpend & _ & ->)|(Hnone & _)]; [done|].
  exfalso. apply CleanupFacts.In_get in Hin as [j Hj].
  apply (Hnone j). by exists img.
Qed.

Lemma failed_lookup_loads_undecided_witness :
  exists s' w',
    App.loadFolder (Some (Sample.fresh_catalog, "shoot")) 7%nat None
                   (Sample.host []) SampleDb2.hiccup = (s', w')
    /\ images s' = Sample.fresh_catalog
    /\ persisted "shoot" "shoot/a.jpg" (decisions w') = Some Keep.
Proof.
  destruct (failed_lookup_loads_undecided Sample.fresh_catalog "shoot" 7%nat None
              (Sample.host []) SampleDb2.hiccup eq_refl)
    as (s' & w' & E & Himg & _ & _ & Hd & _).
  - intros [|k] Hk; [lia|reflexivity].
  - exists s', w'. split; [exact E|]. split; [exact Himg|]. by rewrite Hd.
Defined.

(** X24: with the backend down nothing is opened.  [loadFolder] gets an
    empty lookup, the handle store then rejects, the rejection is caught
    and the component state stays as it was; a relink rejects at its
    second request (the failure of the first, the session lookup, is
    swallowed by [.catch(() => null)]), [confirmPathSelection] catches it
    and never calls [loadFolder].  Neither touches the stored records or
    handles. *)
Theorem backend_down_opens_nothing scanned handle overrideName relinkFrom customPath s w :
  down w ->
  (exists w',
     App.loadFolder scanned handle overrideName s w = (s, w')
     /\ sessions w' = sessions w /\ decisions w' = decisions w
     /\ handles w' = handles w)
  /\ (exists w',
        AppEvents.confirmPathSelection relinkFrom customPath handle scanned s w = (s, w')
        /\ sessions w' = sessions w /\ decisions w' = decisions w
        /\ handles w' = handles w).
Proof.
  intros Hdown.
  assert (Hload : forall name, exists w',
            App.loadFolder scanned handle name s w = (s, w')
            /\ sessions w' = sessions w /\ decisions w' = decisions w
            /\ handles w' = handles w).
  { intros name. unfold App.loadFolder. destruct scanned as [[imgs dflt]|]; [|by eauto].
    rewrite (getDecisionsForDirectory_fails _ w (Hdown _)).
    unfold storeHandleLocally, ensure_idb, init, try_catch, bind, gets, modify,
      ret, request.
    destruct (idb w) eqn:Hidb; repeat (progress (simpl; rewrite ?Hidb, ?Hdown));
      eexists; (split; [reflexivity|]); by repeat split. }
  split; [apply Hload|].
  unfold AppEvents.confirmPathSelection.
  destruct (match relinkFrom with
            | Some old => negb (String.eqb old EmptyString)
            | None => false
            end); [|apply Hload].
  rewrite DbFacts.relinkSession_down by done.
  eexists. split; [reflexivity|]. by repeat split.
Qed.

Lemma backend_down_opens_nothing_witness :
  fst (AppEvents.confirmPathSelection (Some "shoot") "archive" 9%nat
         (Some (Sample.fresh_catalog, "archive")) (Sample.host [])
         SampleDb.unreachable) = Sample.host [].
Proof.
  destruct (backend_down_opens_nothing (Some (Sample.fresh_catalog, "archive"))
              9%nat None (Some "shoot") "archive" (Sample.host [])
              SampleDb.unreachable) as (_ & w' & E & _).
  - intros n. reflexivity.
  - by rewrite E.
Defined.
End RelinkLoadFacts.
